(** * Bulk export of an Airtable Enterprise account: scan and reconciliation

    A shallow embedding of [base_data.js] (the base scanner, its retry
    wrapper and the reconciliation deletes) and of the base upsert of
    [metadata.js], over an explicit model of the SQLite store.

    Conventions of the model.
    - A promise is modelled by its settlement: a promise settles once, and
      every [await] of it observes the same settlement.  The remote
      account is an oracle giving, for each call, the settlement of the
      promise the call returns.
    - The store is the pair of tables [bases] and [data] of
      [metadata.js:createTables]; a TEXT column is an [option string]
      ([None] is SQL NULL), the key columns the program always supplies
      are plain strings.  Rows are kept in a list in rowid order.
      I/O errors of SQLite are not modelled.  SQLite refuses a statement
      that has more host parameters than the connection allows
      (SQLITE_LIMIT_VARIABLE_NUMBER, 999 or 32766 in the stock builds);
      the limit is a field of the connection, [variable_limit].  It bears
      on the one statement whose number of parameters depends on the data,
      the DELETE of [deleteData]; the other statements bind at most six.
    - SQLite enforces FOREIGN KEY clauses only on a connection on which
      [PRAGMA foreign_keys = ON] was issued (or in a build that turns it on
      by default).  Neither script issues it, so the setting is a field of
      the connection, [foreign_keys]; the stock build has it off.
    - bluebird's [Promise.map] runs several mappers at a time; the
      functions below follow one schedule of it, the one that runs the
      mappers one after the other in list order and starts no mapper once
      one has rejected.  The statements proved of [scan_base] and [run] are
      phrased so as to hold of every schedule: they say which events occur
      and what precedes what within one mapper, and leave open the order
      between mappers and which mappers are started beside one that fails.
    - Everything observable that the program does (remote calls, awaits,
      sleeps, SQL statements) is recorded in a trace, most recent first. *)

From Stdlib Require Import String List Bool Arith NArith Lia Permutation.
Import ListNotations.
Open Scope string_scope.
Open Scope list_scope.

(** ** The store *)

(** [bases (id TEXT PRIMARY KEY, workspace_id, name, created_time,
    scan_time, scan_id)] *)
Module Bases.
Record row : Type := mk {
  id : string;
  workspace_id : option string;
  name : option string;
  created_time : option string;
  scan_time : option string;
  scan_id : option string
}.
End Bases.

(** [data (base_id, table_id, record_id TEXT PRIMARY KEY, data,
    created_time, scan_id, FOREIGN KEY(base_id) REFERENCES bases(id)
    ON DELETE CASCADE)] *)
Module Data.
Record row : Type := mk {
  base_id : string;
  table_id : string;
  record_id : string;
  data : option string;
  created_time : option string;
  scan_id : option string
}.
End Data.

Record database : Type := mkdb {
  foreign_keys : bool;
  variable_limit : nat;
  bases : list Bases.row;
  data : list Data.row
}.

Definition set_bases (d : database) (l : list Bases.row) : database :=
  mkdb (foreign_keys d) (variable_limit d) l (data d).

Definition set_data (d : database) (l : list Data.row) : database :=
  mkdb (foreign_keys d) (variable_limit d) (bases d) l.

(** [WHERE scan_id != ? OR scan_id IS NULL], the parameter being a string *)
Definition stale (scan_id : string) (tag : option string) : bool :=
  match tag with
  | None => true
  | Some s => negb (String.eqb s scan_id)
  end.

(** [x IN (?, ..., ?)] *)
Definition sql_in (x : string) (l : list string) : bool :=
  existsb (String.eqb x) l.

(** The two tables a statement can name. *)
Inductive table_name : Type := tbl_bases | tbl_data.

Definition row_of (t : table_name) : Type :=
  match t with
  | tbl_bases => Bases.row
  | tbl_data => Data.row
  end.

Definition rows (t : table_name) (d : database) : list (row_of t) :=
  match t with
  | tbl_bases => bases d
  | tbl_data => data d
  end.

Definition tag_of (t : table_name) : row_of t -> option string :=
  match t with
  | tbl_bases => Bases.scan_id
  | tbl_data => Data.scan_id
  end.

(** [SELECT f FROM t WHERE scan_id != ? OR scan_id IS NULL] *)
Definition select_stale (t : table_name) (f : row_of t -> string)
    (scan_id : string) (d : database) : list string :=
  map f (filter (fun r => stale scan_id (tag_of t r)) (rows t d)).

(** [DELETE FROM t WHERE f IN (...)].  Deleting rows of [bases] removes,
    on a connection that enforces foreign keys, the [data] rows that
    reference them. *)
Definition delete_in (t : table_name) :
    (row_of t -> string) -> list string -> database -> database :=
  match t with
  | tbl_bases => fun f ids d =>
      let gone := filter (fun r => sql_in (f r) ids) (bases d) in
      let kept := filter (fun r => negb (sql_in (f r) ids)) (bases d) in
      let d' := set_bases d kept in
      if foreign_keys d
      then set_data d'
             (filter (fun r => negb (sql_in (Data.base_id r) (map Bases.id gone)))
                     (data d))
      else d'
  | tbl_data => fun f ids d =>
      set_data d (filter (fun r => negb (sql_in (f r) ids)) (data d))
  end.

(** [SELECT * FROM bases WHERE scan_id != ? OR scan_id IS NULL] *)
Definition select_bases (scan_id : string) (d : database) : list Bases.row :=
  filter (fun b => stale scan_id (Bases.scan_id b)) (bases d).

(** [INSERT OR REPLACE INTO data ...]: the row with the same primary key,
    [record_id], is deleted and the new row is appended.  (Where foreign
    keys are enforced the statement needs the base of the row in [bases];
    [run] writes rows of bases it has just selected from there.) *)
Definition insert_or_replace_data (r : Data.row) (d : database) : database :=
  set_data d
    (filter (fun x => negb (String.eqb (Data.record_id x) (Data.record_id r)))
            (data d) ++ [r]).

(** [UPDATE bases SET scan_time=?, scan_id=? WHERE id=?] *)
Definition update_base_scan (scan_time scan_id id : string) (d : database)
    : database :=
  set_bases d
    (map (fun b =>
            if String.eqb (Bases.id b) id
            then Bases.mk (Bases.id b) (Bases.workspace_id b) (Bases.name b)
                          (Bases.created_time b) (Some scan_time) (Some scan_id)
            else b)
         (bases d)).

(** [INSERT OR REPLACE INTO bases (id, workspace_id, created_time, name)
    VALUES ...]: the row with the same [id] is deleted (which cascades to
    its [data] rows where foreign keys are enforced) and a row with the
    four supplied columns is appended; the columns not supplied, [scan_time]
    and [scan_id], take their default, NULL. *)
Definition insert_or_replace_base
    (id : string) (workspace_id created_time name : option string)
    (d : database) : database :=
  let present := existsb (fun b => String.eqb (Bases.id b) id) (bases d) in
  let d' :=
    set_bases d
      (filter (fun b => negb (String.eqb (Bases.id b) id)) (bases d)
       ++ [Bases.mk id workspace_id name created_time None None]) in
  if foreign_keys d && present
  then set_data d'
         (filter (fun r => negb (String.eqb (Data.base_id r) id)) (data d))
  else d'.

(** ** Remote side *)

(** [err.response] of an axios error: [status] and [data.error] (the body
    [data] is always there; its [error] member may be undefined). *)
Record http_response : Type := mkresp {
  status : nat;
  data_error : option string
}.

(** The object a remote call rejects with: [err.code], [err.response]. *)
Record error : Type := mkerr {
  code : option string;
  response : option http_response
}.

(** What a JavaScript [throw] carries here: the rejection of a remote call,
    or the TypeError raised by reading a property of [undefined] or by
    [reduce] on an empty array. *)
Inductive thrown : Type :=
| Err (e : error)
| TypeError.

Inductive settlement (A : Type) : Type :=
| Fulfilled (a : A)
| Rejected (e : error).
Arguments Fulfilled {A} a.
Arguments Rejected {A} e.

(** A table of the Metadata API and a record of the Airtable SDK;
    [fields] stands for [JSON.stringify(rec.fields)]. *)
Record table : Type := mktable { t_id : string; t_name : string }.
Record record : Type := mkrecord {
  rec_id : string;
  fields : string;
  createdTime : string
}.

(** The remote account as seen by one run, and the clock. *)
Record remote : Type := mkremote {
  (** [admin.post('meta/bases/<id>/collaborators', ...)] *)
  add_collaborator : string -> settlement unit;
  (** [admin.get('meta/bases/<id>/tables')], giving [metadata.data.tables] *)
  get_tables : string -> settlement (list table);
  (** [base(t.name).select().all()] in the base of that id *)
  select_all : string -> string -> settlement (list record);
  (** [admin.delete('meta/bases/<id>/collaborators/<admin>')] *)
  remove_collaborator : string -> settlement unit;
  (** [admin.get('meta/bases/<id>')], giving [name] and [created_time] *)
  get_base : string -> settlement (option string * option string);
  (** [new Date().toISOString()] when the base of that id is marked *)
  now : string -> string
}.

(** ** Effects *)

Inductive remote_call : Type :=
| AddCollaborator (base_id : string)
| GetTables (base_id : string)
| SelectAll (base_id : string) (table : string)
| RemoveCollaborator (base_id : string)
| GetBase (base_id : string).

Inductive statement : Type :=
| SelectBases (scan_id : string)
| InsertData (r : Data.row)
| UpdateBase (scan_time scan_id id : string)
| InsertBase (id : string)
| SelectStale (t : table_name) (scan_id : string)
| DeleteIn (t : table_name) (ids : list string).

Inductive event : Type :=
| Remote (c : remote_call)
| Await (request_id : string)
| WarnTimeout (request_id : string)
| Sleep (ms : N)
| WarnTooManyRetries (request_id : string)
| Sql (s : statement).

(** The process: the store behind [db], the module-level array
    [UNSCANNED_BASES], and the trace. *)
Record world : Type := mkworld {
  db : database;
  UNSCANNED_BASES : list string;
  trace : list event
}.

Inductive completion (A : Type) : Type :=
| Return (a : A)
| Throw (t : thrown).
Arguments Return {A} a.
Arguments Throw {A} t.

Definition M (A : Type) : Type := world -> completion A * world.

Definition ret {A} (a : A) : M A := fun w => (Return a, w).

Definition throw {A} (t : thrown) : M A := fun w => (Throw t, w).

Definition bind {A B} (m : M A) (k : A -> M B) : M B :=
  fun w =>
    match m w with
    | (Return a, w') => k a w'
    | (Throw t, w') => (Throw t, w')
    end.

(** [try { m } catch (err) { h err }] *)
Definition try_catch {A} (m : M A) (h : thrown -> M A) : M A :=
  fun w =>
    match m w with
    | (Return a, w') => (Return a, w')
    | (Throw t, w') => h t w'
    end.

Declare Scope js_scope.
Delimit Scope js_scope with js.
Notation "x <- m ;; k" := (bind m (fun x => k))
  (at level 61, m at next level, right associativity) : js_scope.
Notation "m ;; k" := (bind m (fun _ => k))
  (at level 61, right associativity) : js_scope.
Open Scope js_scope.

Definition emit (e : event) : M unit :=
  fun w => (Return tt, mkworld (db w) (UNSCANNED_BASES w) (e :: trace w)).

(** [db.run(statement, payload)]: the statement is logged and applied. *)
Definition db_run (s : statement) (f : database -> database) : M unit :=
  fun w => (Return tt, mkworld (f (db w)) (UNSCANNED_BASES w) (Sql s :: trace w)).

(** [db.all(statement, payload)]: the db_all is logged and answered. *)
Definition db_all {A} (s : statement) (f : database -> A) : M A :=
  fun w => (Return (f (db w)), mkworld (db w) (UNSCANNED_BASES w) (Sql s :: trace w)).

(** [asyncOp(db, statement, payload)], of [base_data.js]: a promise that
    resolves when [db.run] has completed the statement. *)
Definition asyncOp (s : statement) (f : database -> database) : M unit :=
  db_run s f.

(** [UNSCANNED_BASES.push(base_id)] *)
Definition push_unscanned (base_id : string) : M unit :=
  fun w => (Return tt, mkworld (db w) (UNSCANNED_BASES w ++ [base_id]) (trace w)).

(** Issuing a remote call yields its promise. *)
Definition issue {A} (c : remote_call) (p : settlement A) : M (settlement A) :=
  emit (Remote c) ;; ret p.

(** [Promise.map(l, f)], along the schedule that runs the mappers one
    after the other in list order (see the conventions above). *)
Fixpoint Promise_map {A B} (f : A -> M B) (l : list A) : M (list B) :=
  match l with
  | [] => ret []
  | a :: l' => b <- f a ;; bs <- Promise_map f l' ;; ret (b :: bs)
  end.

(** ** [base_data.js] *)

Definition is_ETIMEDOUT (e : error) : bool :=
  match code e with
  | Some c => String.eqb c "ETIMEDOUT"
  | None => false
  end.

(** [requestWithRetry(request, request_id, retry_count)], by recursion on a
    bound on the retries still possible; [requestWithRetry] below starts it
    with [5 - retry_count], which the branch for an exhausted bound never
    meets. *)
Fixpoint requestWithRetry_rec {A} (bound : nat) (request : settlement A)
    (request_id : string) (retry_count : nat) : M A :=
  emit (Await request_id) ;;
  match request with
  | Fulfilled r => ret r
  | Rejected err =>
      if is_ETIMEDOUT err && (retry_count <? 5)%nat
      then
        emit (WarnTimeout request_id) ;;
        match bound with
        | S bound' =>
            emit (Sleep 10000%N) ;;
            requestWithRetry_rec bound' request request_id (retry_count + 1)
        | O => throw (Err err)
        end
      else
        (if (5 <=? retry_count)%nat
         then emit (WarnTooManyRetries request_id)
         else ret tt) ;;
        throw (Err err)
  end.

(** [retry_count === undefined ? 0 : retry_count] *)
Definition requestWithRetry {A} (request : settlement A) (request_id : string)
    (retry_count : option nat) : M A :=
  let retry_count := match retry_count with None => 0 | Some n => n end in
  requestWithRetry_rec (5 - retry_count) request request_id retry_count.

(** [err.response] of whatever was thrown. *)
Definition response_of (t : thrown) : option http_response :=
  match t with
  | Err e => response e
  | TypeError => None
  end.

(** [err.response.status === 404 || err.response.data.error === 'NOT_FOUND'] *)
Definition is_not_found (r : http_response) : bool :=
  (status r =? 404)%nat ||
  match data_error r with
  | Some s => String.eqb s "NOT_FOUND"
  | None => false
  end.

(** [array.reduce((aggregate, current) => aggregate + current)], which
    throws on an empty array. *)
Definition reduce_sum (l : list nat) : M nat :=
  match l with
  | [] => throw TypeError
  | x :: l' => ret (fold_left Nat.add l' x)
  end.

(** The row one record is written as.  The statement lists the columns as
    [(base_id, table_id, record_id, created_time, data, scan_id)] and the
    values as [($base_id, $table_id, $record_id, $data, $created_time,
    $scan_id)]: the payload lands in [created_time] and the creation time
    in [data]. *)
Definition data_row (base_id : string) (t : table) (scan_id : string)
    (rec : record) : Data.row :=
  Data.mk base_id (t_id t) (rec_id rec)
          (Some (createdTime rec)) (Some (fields rec)) (Some scan_id).

(** The mapper over the tables of one base. *)
Definition scan_table (env : remote) (scan_id base_id : string) (t : table)
    : M nat :=
  request <- issue (SelectAll base_id (t_name t))
                   (select_all env base_id (t_name t)) ;;
  records <- requestWithRetry request (t_id t) None ;;
  results <- Promise_map
               (fun rec =>
                  let r := data_row base_id t scan_id rec in
                  asyncOp (InsertData r) (insert_or_replace_data r))
               records ;;
  ret (length results).

(** A [try] block either falls through to the code after it or makes the
    enclosing function return. *)
Inductive flow (A R : Type) : Type :=
| Next (a : A)
| Exit (r : R).
Arguments Next {A R} a.
Arguments Exit {A R} r.

Notation "x <~ m ;; k" :=
  (bind m (fun f => match f with Next x => k | Exit r => ret r end))
  (at level 61, m at next level, right associativity) : js_scope.

(** The mapper over the bases; it returns [0] or [undefined]. *)
Definition scan_base (env : remote) (scan_id : string) (b : Bases.row)
    : M (option nat) :=
  let base_id := Bases.id b in
  r <~ try_catch
         (request <- issue (AddCollaborator base_id)
                           (add_collaborator env base_id) ;;
          r <- requestWithRetry request base_id None ;;
          ret (Next r))
         (fun err =>
            match response_of err with
            | None => throw TypeError
            | Some resp =>
                if is_not_found resp then ret (Exit (Some 0))
                else if (status resp =? 403)%nat
                     then push_unscanned base_id ;; ret (Exit (Some 0))
                     else throw err
            end) ;;
  tables <~ try_catch
              (request <- issue (GetTables base_id) (get_tables env base_id) ;;
               metadata <- requestWithRetry request base_id None ;;
               ret (Next metadata))
              (fun err =>
                 match response_of err with
                 | None => throw TypeError
                 | Some resp =>
                     if (status resp =? 403)%nat then ret (Exit (Some 0))
                     else throw err
                 end) ;;
  record_numbers <~ try_catch
                      (l <- Promise_map (scan_table env scan_id base_id) tables ;;
                       ret (Next l))
                      (fun err => push_unscanned base_id ;; ret (Exit None)) ;;
  num_records <- reduce_sum record_numbers ;;
  let now := now env base_id in
  try_catch
    (request <- issue (RemoveCollaborator base_id)
                      (remove_collaborator env base_id) ;;
     requestWithRetry request base_id None)
    (fun err =>
       match response_of err with
       | None => throw TypeError
       | Some resp =>
           if (status resp =? 403)%nat then ret tt else throw err
       end) ;;
  asyncOp (UpdateBase now scan_id base_id) (update_base_scan now scan_id base_id) ;;
  ret None.

(** What SQLite answers a statement that has more host parameters than
    the connection allows ("too many SQL variables"). *)
Definition too_many_variables : error := mkerr (Some "SQLITE_ERROR") None.

(** The check SQLite makes of a statement with [n] host parameters before
    it runs it. *)
Definition bind_parameters (n : nat) : M unit :=
  fun w =>
    if (n <=? variable_limit (db w))%nat then (Return tt, w)
    else (Throw (Err too_many_variables), w).

(** [deleteData(db, scan_id, table_name, primary_field)].  The DELETE has
    one [?] for each identifier selected. *)
Definition deleteData (scan_id : string) (t : table_name)
    (primary_field : row_of t -> string) : M unit :=
  to_delete <- db_all (SelectStale t scan_id)
                      (select_stale t primary_field scan_id) ;;
  bind_parameters (length to_delete) ;;
  asyncOp (DeleteIn t to_delete) (delete_in t primary_field to_delete).

(** The DELETE of [deleteData] on that table fits the limit of the
    connection. *)
Definition fits (scan_id : string) (t : table_name)
    (primary_field : row_of t -> string) (d : database) : bool :=
  (length (select_stale t primary_field scan_id d) <=? variable_limit d)%nat.

(** The values the [delete_data] argument can hold. *)
Inductive js_value : Type :=
| JsUndefined
| JsBool (b : bool)
| JsNumber (n : nat)
| JsString (s : string).

(** [v !== true] *)
Definition not_true (v : js_value) : bool :=
  match v with
  | JsBool true => false
  | _ => true
  end.

(** The scanning part of [run]: the SELECT and the [Promise.map] over the
    selected bases. *)
Definition scan_bases (env : remote) (scan_id : string) : M (list (option nat)) :=
  bases <- db_all (SelectBases scan_id) (select_bases scan_id) ;;
  Promise_map (scan_base env scan_id) bases.

(** [run(db, scan_id, delete_data)] *)
Definition run (env : remote) (scan_id : string) (delete_data : js_value)
    : M unit :=
  scan_bases env scan_id ;;
  if not_true delete_data then ret tt
  else
    deleteData scan_id tbl_bases Bases.id ;;
    deleteData scan_id tbl_data Data.record_id.

(** ** [metadata.js] *)

(** The second [Promise.map] of [run]: each queued (workspace, base) pair
    is fetched and written to [bases].  [db.run] is given no callback
    there, so nothing waits for the statement to complete; it is applied
    here where it is issued. *)
Definition write_base (env : remote) (q : string * string) : M unit :=
  let '(workspace_id, base_id) := q in
  request <- issue (GetBase base_id) (get_base env base_id) ;;
  match request with
  | Rejected err => throw (Err err)
  | Fulfilled (name, created_time) =>
      db_run (InsertBase base_id)
             (insert_or_replace_base base_id (Some workspace_id) created_time name)
  end.

Definition write_bases (env : remote) (queue : list (string * string))
    : M unit :=
  Promise_map (write_base env) queue ;; ret tt.

(** ** Vocabulary of the statements *)

(** The world after the events [evs] (most recent first) were recorded. *)
Definition log (evs : list event) (w : world) : world :=
  mkworld (db w) (UNSCANNED_BASES w) (evs ++ trace w).

(** One timed-out attempt followed by its back-off, most recent first. *)
Definition timed_out_attempt (request_id : string) : list event :=
  [Sleep 10000%N; WarnTimeout request_id; Await request_id].

Definition is_await (e : event) : bool :=
  match e with Await _ => true | _ => false end.

Definition is_sleep (e : event) : bool :=
  match e with Sleep _ => true | _ => false end.

(** Number of times the request was awaited, and of back-offs slept. *)
Definition attempts (tr : list event) : nat := length (filter is_await tr).
Definition sleeps (tr : list event) : nat := length (filter is_sleep tr).

(** What awaiting a settled promise completes with. *)
Definition settled {A} (s : settlement A) : completion A :=
  match s with
  | Fulfilled r => Return r
  | Rejected err => Throw (Err err)
  end.

(** The events of one call of [requestWithRetry] on a promise, most
    recent first. *)
Definition retry_events {A} (request : settlement A) (request_id : string)
    : list event :=
  match request with
  | Fulfilled _ => [Await request_id]
  | Rejected err =>
      if is_ETIMEDOUT err
      then WarnTooManyRetries request_id :: Await request_id
             :: concat (repeat (timed_out_attempt request_id) 5)
      else [Await request_id]
  end.

(** The SQL statements of a trace, oldest first. *)
Definition statements (tr : list event) : list statement :=
  flat_map (fun e => match e with Sql s => [s] | _ => [] end) (rev tr).

(** The remote calls of a trace, oldest first. *)
Definition calls (tr : list event) : list remote_call :=
  flat_map (fun e => match e with Remote c => [c] | _ => [] end) (rev tr).

(** The base a remote call is addressed to. *)
Definition call_base (c : remote_call) : string :=
  match c with
  | AddCollaborator i | GetTables i | SelectAll i _
  | RemoveCollaborator i | GetBase i => i
  end.

(** The [bases] row [b] once marked as scanned. *)
Definition marked (scan_time scan_id : string) (b : Bases.row) : Bases.row :=
  Bases.mk (Bases.id b) (Bases.workspace_id b) (Bases.name b)
           (Bases.created_time b) (Some scan_time) (Some scan_id).

(** The store holds a [data] row for that record of that base, tagged
    with that scan. *)
Definition persisted (scan_id base_id record_id : string) (d : database)
    : Prop :=
  exists r, In r (data d) /\ Data.record_id r = record_id
            /\ Data.base_id r = base_id /\ Data.scan_id r = Some scan_id.

(** What scanning the bases selected by [P] under [scan_id] may record:
    remote calls about those bases, writes of their records tagged with
    the scan, their marking; never a reconciliation statement. *)
Definition scan_event (scan_id : string) (P : string -> Prop) (e : event)
    : Prop :=
  match e with
  | Remote (GetBase _) => False
  | Remote c => P (call_base c)
  | Sql (InsertData r) => P (Data.base_id r) /\ Data.scan_id r = Some scan_id
  | Sql (UpdateBase _ s i) => P i /\ s = scan_id
  | Sql _ => False
  | _ => True
  end.

(** A [bases] row is as it was, or it is a row of [P] marked with the scan. *)
Definition base_kept (scan_id : string) (P : string -> Prop)
    (b b' : Bases.row) : Prop :=
  b' = b \/ (P (Bases.id b) /\ exists t, b' = marked t scan_id b).

(** How scanning bases of [P] under [scan_id] may move the world. *)
Record scan_step (scan_id : string) (P : string -> Prop) (w w' : world)
    : Prop := mkstep {
  step_fk : foreign_keys (db w') = foreign_keys (db w);
  step_bases : Forall2 (base_kept scan_id P) (bases (db w)) (bases (db w'));
  step_data : forall r, In r (data (db w)) ->
      In r (data (db w')) \/
      exists r', In r' (data (db w'))
                 /\ Data.record_id r' = Data.record_id r
                 /\ Data.scan_id r' = Some scan_id;
  step_trace : exists evs, trace w' = evs ++ trace w
                           /\ Forall (scan_event scan_id P) evs;
  step_unscanned : exists l, UNSCANNED_BASES w' = UNSCANNED_BASES w ++ l
                             /\ Forall P l
}.

(** Every run of [m] moves the world along [R]. *)
Definition preserves {A} (R : world -> world -> Prop) (m : M A) : Prop :=
  forall w c w', m w = (c, w') -> R w w'.

(** *** Closed forms of the table scans of one base *)

(** The store after the records of one table were written, and the
    statements that wrote them (most recent first). *)
Definition write_records (base_id : string) (t : table) (scan_id : string)
    (records : list record) (d : database) : database :=
  fold_left (fun d rec => insert_or_replace_data (data_row base_id t scan_id rec) d)
            records d.

Definition write_events (base_id : string) (t : table) (scan_id : string)
    (records : list record) : list event :=
  rev (map (fun rec => Sql (InsertData (data_row base_id t scan_id rec))) records).

(** The events of the scan of one table, most recent first. *)
Definition table_events (env : remote) (scan_id base_id : string) (t : table)
    : list event :=
  let request := select_all env base_id (t_name t) in
  match request with
  | Fulfilled records => write_events base_id t scan_id records
  | Rejected _ => []
  end ++ retry_events request (t_id t) ++ [Remote (SelectAll base_id (t_name t))].

(** Along the schedule of [Promise_map], the tables whose scan is
    started: those up to the first one that fails, included. *)
Fixpoint attempted (env : remote) (base_id : string) (tables : list table)
    : list table :=
  match tables with
  | [] => []
  | t :: ts =>
      t :: match select_all env base_id (t_name t) with
           | Fulfilled _ => attempted env base_id ts
           | Rejected _ => []
           end
  end.

(** What [Promise.map] over the tables completes with. *)
Fixpoint tables_result (env : remote) (base_id : string) (tables : list table)
    : completion (list nat) :=
  match tables with
  | [] => Return []
  | t :: ts =>
      match select_all env base_id (t_name t) with
      | Fulfilled records =>
          match tables_result env base_id ts with
          | Return l => Return (length records :: l)
          | Throw e => Throw e
          end
      | Rejected err => Throw (Err err)
      end
  end.

(** The store after the table scans of a base. *)
Fixpoint tables_db (env : remote) (scan_id base_id : string)
    (tables : list table) (d : database) : database :=
  match tables with
  | [] => d
  | t :: ts =>
      match select_all env base_id (t_name t) with
      | Fulfilled records =>
          tables_db env scan_id base_id ts
                    (write_records base_id t scan_id records d)
      | Rejected _ => d
      end
  end.

(** The events of the table scans of a base, most recent first. *)
Definition tables_events (env : remote) (scan_id base_id : string)
    (tables : list table) : list event :=
  concat (rev (map (table_events env scan_id base_id)
                   (attempted env base_id tables))).

(** The rows written for the records of a table, and for the tables of a
    base whose scan is started, oldest first. *)
Definition table_rows (env : remote) (scan_id base_id : string) (t : table)
    : list Data.row :=
  match select_all env base_id (t_name t) with
  | Fulfilled records => map (data_row base_id t scan_id) records
  | Rejected _ => []
  end.

Definition scan_rows (env : remote) (scan_id base_id : string)
    (tables : list table) : list Data.row :=
  flat_map (table_rows env scan_id base_id) (attempted env base_id tables).

(** [INSERT OR REPLACE INTO data] for each row in turn. *)
Definition insert_all (l : list Data.row) (d : database) : database :=
  fold_left (fun d r => insert_or_replace_data r d) l d.

(** The table is read in full. *)
Definition readable (env : remote) (base_id : string) (t : table) : Prop :=
  exists records, select_all env base_id (t_name t) = Fulfilled records.

(** The table is read in full and each of its records is in the store,
    tagged with the scan. *)
Definition written (env : remote) (scan_id base_id : string) (d : database)
    (t : table) : Prop :=
  exists records,
    select_all env base_id (t_name t) = Fulfilled records
    /\ Forall (fun rec => persisted scan_id base_id (rec_id rec) d) records.

(** The table cannot be read: its request is rejected. *)
Definition unreadable (env : remote) (base_id : string) (t : table) : Prop :=
  exists err, select_all env base_id (t_name t) = Rejected err.

(** *** The life cycle of one base in closed form *)

(** How the scan of a base ends. *)
Inductive outcome : Type :=
| Scanned              (** every table written, the base marked *)
| Deleted              (** grant: not found; returns 0 *)
| Forbidden            (** grant: forbidden; skip list, returns 0 *)
| Unavailable          (** table list: forbidden; returns 0 *)
| TableFailed          (** a table scan failed; skip list *)
| Failed (t : thrown). (** an exception leaves the mapper *)

Definition on_grant_error (err : error) : outcome :=
  match response err with
  | None => Failed TypeError
  | Some resp =>
      if is_not_found resp then Deleted
      else if (status resp =? 403)%nat then Forbidden
           else Failed (Err err)
  end.

Definition on_listing_error (err : error) : outcome :=
  match response err with
  | None => Failed TypeError
  | Some resp =>
      if (status resp =? 403)%nat then Unavailable else Failed (Err err)
  end.

Definition on_revoke_error (err : error) : outcome :=
  match response err with
  | None => Failed TypeError
  | Some resp =>
      if (status resp =? 403)%nat then Scanned else Failed (Err err)
  end.

Definition on_tables (env : remote) (base_id : string) (tables : list table)
    : outcome :=
  match tables_result env base_id tables with
  | Throw _ => TableFailed
  | Return [] => Failed TypeError
  | Return (_ :: _) =>
      match remove_collaborator env base_id with
      | Fulfilled _ => Scanned
      | Rejected err => on_revoke_error err
      end
  end.

Definition outcome_of (env : remote) (base_id : string) : outcome :=
  match add_collaborator env base_id with
  | Rejected err => on_grant_error err
  | Fulfilled _ =>
      match get_tables env base_id with
      | Rejected err => on_listing_error err
      | Fulfilled tables => on_tables env base_id tables
      end
  end.

Definition result_of (o : outcome) : completion (option nat) :=
  match o with
  | Scanned | TableFailed => Return None
  | Deleted | Forbidden | Unavailable => Return (Some 0)
  | Failed t => Throw t
  end.

Definition skips_of (base_id : string) (o : outcome) : list string :=
  match o with
  | Forbidden | TableFailed => [base_id]
  | _ => []
  end.

Definition grant_events (env : remote) (base_id : string) : list event :=
  retry_events (add_collaborator env base_id) base_id
  ++ [Remote (AddCollaborator base_id)].

Definition listing_events (env : remote) (base_id : string) : list event :=
  retry_events (get_tables env base_id) base_id
  ++ [Remote (GetTables base_id)].

Definition revoke_events (env : remote) (base_id : string) : list event :=
  retry_events (remove_collaborator env base_id) base_id
  ++ [Remote (RemoveCollaborator base_id)].

(** The events of the scan of one base, most recent first. *)
Definition events_of (env : remote) (scan_id base_id : string) : list event :=
  match add_collaborator env base_id with
  | Rejected _ => grant_events env base_id
  | Fulfilled _ =>
      match get_tables env base_id with
      | Rejected _ => listing_events env base_id ++ grant_events env base_id
      | Fulfilled tables =>
          match tables_result env base_id tables with
          | Return (_ :: _) =>
              match on_tables env base_id tables with
              | Scanned =>
                  [Sql (UpdateBase (now env base_id) scan_id base_id)]
              | _ => []
              end ++ revoke_events env base_id
          | _ => []
          end
          ++ tables_events env scan_id base_id tables
          ++ listing_events env base_id ++ grant_events env base_id
      end
  end.

(** The store after the scan of one base. *)
Definition db_of (env : remote) (scan_id base_id : string) (d : database)
    : database :=
  match add_collaborator env base_id, get_tables env base_id with
  | Fulfilled _, Fulfilled tables =>
      let d' := tables_db env scan_id base_id tables d in
      match on_tables env base_id tables with
      | Scanned => update_base_scan (now env base_id) scan_id base_id d'
      | _ => d'
      end
  | _, _ => d
  end.

Definition is_scanned (o : outcome) : bool :=
  match o with Scanned => true | _ => false end.

(** The rows the scan of a base writes, oldest first. *)
Definition rows_of (env : remote) (scan_id base_id : string) : list Data.row :=
  match add_collaborator env base_id, get_tables env base_id with
  | Fulfilled _, Fulfilled tables => scan_rows env scan_id base_id tables
  | _, _ => []
  end.

(** The remote calls the scan of a base makes, oldest first. *)
Definition calls_of (env : remote) (base_id : string) : list remote_call :=
  AddCollaborator base_id ::
  match add_collaborator env base_id with
  | Rejected _ => []
  | Fulfilled _ =>
      GetTables base_id ::
      match get_tables env base_id with
      | Rejected _ => []
      | Fulfilled tables =>
          map (fun t => SelectAll base_id (t_name t))
              (attempted env base_id tables)
          ++ match tables_result env base_id tables with
             | Return (_ :: _) => [RemoveCollaborator base_id]
             | _ => []
             end
      end
  end.

(** *** The scan of the selected bases in closed form *)

Definition is_failed (o : outcome) : bool :=
  match o with Failed _ => true | _ => false end.

(** Along the schedule of [Promise_map], the bases whose scan is started:
    those up to the first one whose scan throws, included. *)
Fixpoint processed (env : remote) (l : list Bases.row) : list Bases.row :=
  match l with
  | [] => []
  | b :: l' =>
      b :: if is_failed (outcome_of env (Bases.id b)) then []
           else processed env l'
  end.

(** What [Promise.map] over the bases completes with. *)
Fixpoint bases_result (env : remote) (l : list Bases.row)
    : completion (list (option nat)) :=
  match l with
  | [] => Return []
  | b :: l' =>
      match result_of (outcome_of env (Bases.id b)) with
      | Throw t => Throw t
      | Return x =>
          match bases_result env l' with
          | Return xs => Return (x :: xs)
          | Throw t => Throw t
          end
      end
  end.

Definition bases_db (env : remote) (scan_id : string) (l : list Bases.row)
    (d : database) : database :=
  fold_left (fun d b => db_of env scan_id (Bases.id b) d) (processed env l) d.

Definition bases_events (env : remote) (scan_id : string) (l : list Bases.row)
    : list event :=
  concat (rev (map (fun b => events_of env scan_id (Bases.id b))
                   (processed env l))).

Definition bases_skips (env : remote) (l : list Bases.row) : list string :=
  flat_map (fun b => skips_of (Bases.id b) (outcome_of env (Bases.id b)))
           (processed env l).

(** The world after the scanning part of [run]. *)
Definition scanned_world (env : remote) (scan_id : string) (w : world) : world :=
  let l := select_bases scan_id (db w) in
  mkworld (bases_db env scan_id l (db w))
          (UNSCANNED_BASES w ++ bases_skips env l)
          (bases_events env scan_id l ++ Sql (SelectBases scan_id) :: trace w).

(** ** A sample account

    Base appA was scanned by the run "S", appB by an older run and has
    since been deleted upstream, appC was never scanned: its table Orders
    is read, its table Items times out.  The grant on appD is refused with
    status 500. *)

Definition sample_bases : list Bases.row :=
  [ Bases.mk "appA" (Some "wsp1") (Some "Sales") None
             (Some "2021-03-01T10:00:00.000Z") (Some "S");
    Bases.mk "appB" (Some "wsp1") (Some "Leads") None
             (Some "2021-02-01T10:00:00.000Z") (Some "S_old");
    Bases.mk "appC" (Some "wsp2") (Some "Stock") None None None ].

Definition sample_data : list Data.row :=
  [ Data.mk "appA" "tbl1" "rec1" None None (Some "S");
    Data.mk "appB" "tbl2" "rec2" None None (Some "S_old") ].

Definition timed_out : error := mkerr (Some "ETIMEDOUT") None.

Definition sample_env : remote :=
  mkremote
    (fun i => if String.eqb i "appB"
              then Rejected (mkerr None (Some (mkresp 404 (Some "NOT_FOUND"))))
              else if String.eqb i "appD"
                   then Rejected (mkerr None (Some (mkresp 500 None)))
                   else Fulfilled tt)
    (fun i => if String.eqb i "appC"
              then Fulfilled [mktable "tbl3" "Orders"; mktable "tbl4" "Items"]
              else Fulfilled [mktable "tbl1" "Main"])
    (fun i n => if String.eqb n "Items" then Rejected timed_out
                else if String.eqb n "Orders"
                     then Fulfilled [mkrecord "rec3" "{}" "2021-03-02T08:00:00.000Z"]
                     else Fulfilled [mkrecord "rec1" "{}" "2021-01-05T08:00:00.000Z"])
    (fun _ => Fulfilled tt)
    (fun _ => Fulfilled (Some "Sales", None))
    (fun _ => "2021-03-03T12:00:00.000Z").

Definition sample_appC : Bases.row :=
  Bases.mk "appC" (Some "wsp2") (Some "Stock") None None None.

(** The process before the run, on a connection with and without
    foreign-key enforcement. *)
Definition sample_world (foreign_keys : bool) : world :=
  mkworld (mkdb foreign_keys 999 sample_bases sample_data) [] [].

(** Three bases not yet scanned, on an account where every grant is
    refused with status 500. *)
Definition unscanned_bases : list Bases.row :=
  [ Bases.mk "appD" None None None None None;
    Bases.mk "appE" None None None None None;
    Bases.mk "appF" None None None None None ].

Definition refusing_env : remote :=
  mkremote
    (fun _ => Rejected (mkerr None (Some (mkresp 500 None))))
    (fun _ => Fulfilled []) (fun _ _ => Fulfilled [])
    (fun _ => Fulfilled tt) (fun _ => Fulfilled (None, None))
    (fun _ => "2021-03-03T12:00:00.000Z").

(** ** Further vocabulary *)

(** Every row of the table carries that scan identifier. *)
Definition all_tagged (scan_id : string) (t : table_name) (d : database)
    : Prop :=
  forall r, In r (rows t d) -> tag_of t r = Some scan_id.

(** What the scan of base [b] makes of the [bases] row [x]: the row is
    marked when the scan marks its base and the row has that identifier. *)
Definition mark_step (env : remote) (scan_id : string) (b x : Bases.row)
    : Bases.row :=
  if is_scanned (outcome_of env (Bases.id b))
     && String.eqb (Bases.id x) (Bases.id b)
  then marked (now env (Bases.id b)) scan_id x
  else x.

(** What the scans of the bases [p], in turn, make of the row [x]. *)
Definition mark_all (env : remote) (scan_id : string) (p : list Bases.row)
    (x : Bases.row) : Bases.row :=
  fold_left (fun x b => mark_step env scan_id b x) p x.

(** Some base of [p] with the identifier of [x] is marked by its scan. *)
Definition marked_by (env : remote) (p : list Bases.row) (x : Bases.row)
    : bool :=
  existsb (fun b => is_scanned (outcome_of env (Bases.id b))
                    && String.eqb (Bases.id x) (Bases.id b)) p.

(** The sample account, with the removal of the collaborator refused with
    the given status, with the grant answered without a response, and with
    the listing of tables refused as forbidden. *)
Definition revoke_refusing_env (status : nat) : remote :=
  mkremote (add_collaborator sample_env) (get_tables sample_env)
           (select_all sample_env)
           (fun _ => Rejected (mkerr None (Some (mkresp status None))))
           (get_base sample_env) (now sample_env).

Definition unreachable_env : remote :=
  mkremote (fun _ => Rejected timed_out) (get_tables sample_env)
           (select_all sample_env) (remove_collaborator sample_env)
           (get_base sample_env) (now sample_env).

Definition sample_appA : Bases.row :=
  Bases.mk "appA" (Some "wsp1") (Some "Sales") None
           (Some "2021-03-01T10:00:00.000Z") (Some "S").

(** ** [metadata.js]: the crawl of the accounts

    The [workspaces] table, [workspaces (id TEXT PRIMARY KEY, owners,
    created_time, name)], is kept beside the store of the scan and passed
    along explicitly, with the queue of (workspace, base) pairs that [run]
    fills.  The account and workspace calls are not recorded on the
    trace. *)
Module Workspaces.
Record row : Type := mk {
  id : string;
  owners : string;
  created_time : option string;
  name : option string
}.
End Workspaces.

(** A member of [r.data.collaborators.workspaceCollaborators]. *)
Record collaborator : Type := mkcollaborator {
  permissionLevel : string;
  email : string
}.

(** The [data] of the answer to [meta/workspaces/<id>?include=collaborators]. *)
Record workspace : Type := mkworkspace {
  ws_name : option string;
  ws_created_time : option string;
  workspaceCollaborators : list collaborator;
  baseIds : list string
}.

(** The account side of the Admin API. *)
Record admin_api : Type := mkapi {
  (** [admin.get('meta/enterpriseAccounts/<id>')], giving [workspaceIds] *)
  get_account : string -> settlement (list string);
  (** [admin.get('meta/workspaces/<id>?include=collaborators')] *)
  get_workspace : string -> settlement workspace
}.

(** [workspaceCollaborators.filter(o => o.permissionLevel === 'owner')
    .map(o => o.email).join(',')] *)
Definition owners_of (ws : workspace) : string :=
  String.concat ","
    (map email
         (filter (fun o => String.eqb (permissionLevel o) "owner")
                 (workspaceCollaborators ws))).

(** [INSERT OR REPLACE INTO workspaces (id, owners, created_time, name)] *)
Definition insert_or_replace_workspace (r : Workspaces.row)
    (tbl : list Workspaces.row) : list Workspaces.row :=
  filter (fun x => negb (String.eqb (Workspaces.id x) (Workspaces.id r))) tbl
  ++ [r].

(** The row written for a workspace. *)
Definition workspace_row (wid : string) (ws : workspace) : Workspaces.row :=
  Workspaces.mk wid (owners_of ws) (ws_created_time ws) (ws_name ws).

(** The state of the first [Promise.map] of [run]: the [workspaces] table
    and the queue. *)
Definition crawl_state : Type :=
  (list Workspaces.row * list (string * string))%type.

(** The mapper over the workspaces: the workspace is fetched, its row is
    written (the statement is started and not awaited) and each of its
    bases is pushed on the queue. *)
Definition fetch_workspace (api : admin_api) (wid : string) (st : crawl_state)
    : completion unit * crawl_state :=
  match get_workspace api wid with
  | Rejected err => (Throw (Err err), st)
  | Fulfilled ws =>
      (Return tt,
       (insert_or_replace_workspace (workspace_row wid ws) (fst st),
        snd st ++ map (fun b => (wid, b)) (baseIds ws)))
  end.

(** The first [Promise.map] of [run], along the schedule that takes the
    workspaces one after the other in list order. *)
Fixpoint fetch_workspaces (api : admin_api) (wids : list string)
    (st : crawl_state) : completion unit * crawl_state :=
  match wids with
  | [] => (Return tt, st)
  | wid :: rest =>
      match fetch_workspace api wid st with
      | (Return _, st') => fetch_workspaces api rest st'
      | (Throw t, st') => (Throw t, st')
      end
  end.

(** [run(db)] of [metadata.js], over the accounts of
    [config.enterpriseAccountId]. *)
Fixpoint metadata_run (api : admin_api) (env : remote) (accounts : list string)
    (tbl : list Workspaces.row) (w : world)
    : completion unit * (list Workspaces.row * world) :=
  match accounts with
  | [] => (Return tt, (tbl, w))
  | enterpriseAccountId :: rest =>
      match get_account api enterpriseAccountId with
      | Rejected err => (Throw (Err err), (tbl, w))
      | Fulfilled workspaces =>
          match fetch_workspaces api workspaces (tbl, []) with
          | (Throw t, (tbl', _)) => (Throw t, (tbl', w))
          | (Return _, (tbl', queue)) =>
              match write_bases env queue w with
              | (Throw t, w') => (Throw t, (tbl', w'))
              | (Return _, w') => metadata_run api env rest tbl' w'
              end
          end
      end
  end.

(** The queue the workspaces of an account give when they are all
    fetched. *)
Definition queue_of (api : admin_api) (wids : list string)
    : list (string * string) :=
  flat_map (fun wid =>
              match get_workspace api wid with
              | Fulfilled ws => map (fun b => (wid, b)) (baseIds ws)
              | Rejected _ => []
              end) wids.

(** The base is listed by a workspace of one of the accounts. *)
Definition crawled (api : admin_api) (accounts : list string)
    (base_id : string) : Prop :=
  exists acc wids wid ws,
    In acc accounts
    /\ get_account api acc = Fulfilled wids
    /\ In wid wids
    /\ get_workspace api wid = Fulfilled ws
    /\ In base_id (baseIds ws).

(** The table [bases] holds a row for the base with no scan recorded. *)
Definition unscanned_row (base_id : string) (d : database) : Prop :=
  exists b, In b (bases d) /\ Bases.id b = base_id
            /\ Bases.scan_id b = None /\ Bases.scan_time b = None.

(** The workspace is listed by one of the accounts. *)
Definition crawled_workspace (api : admin_api) (accounts : list string)
    (wid : string) : Prop :=
  exists acc wids,
    In acc accounts /\ get_account api acc = Fulfilled wids /\ In wid wids.

(** A sample enterprise: the account entA has the workspaces wsp1 (bases
    appA and appB; two owners and an editor) and wsp2 (base appC; no
    owner); the account entB lists a workspace that cannot be fetched. *)
Definition sample_api : admin_api :=
  mkapi
    (fun acc => if String.eqb acc "entA" then Fulfilled ["wsp1"; "wsp2"]
                else if String.eqb acc "entB" then Fulfilled ["wsp1"; "wsp9"]
                     else Rejected (mkerr None (Some (mkresp 404 None))))
    (fun wid =>
       if String.eqb wid "wsp1"
       then Fulfilled
              (mkworkspace (Some "Sales") None
                 [mkcollaborator "owner" "alice@example.com";
                  mkcollaborator "edit" "bob@example.com";
                  mkcollaborator "owner" "carol@example.com"]
                 ["appA"; "appB"])
       else if String.eqb wid "wsp2"
            then Fulfilled
                   (mkworkspace (Some "Stock") None
                      [mkcollaborator "read" "dan@example.com"] ["appC"])
            else Rejected (mkerr None (Some (mkresp 403 None)))).

(** ** The attachments script

    The third script reads the tables of each base with the definitions
    of their fields and downloads the attachments of the records. *)

Record field : Type := mkfield { f_name : string; f_type : string }.

(** A table of the Metadata API with its fields. *)
Record atable : Type := mkatable {
  at_id : string;
  at_name : string;
  at_fields : list field
}.

Record attachment : Type := mkattachment {
  a_id : string;
  a_filename : string;
  a_url : string
}.

(** A record of a page: the members of [r.fields] that hold attachments,
    by field name. *)
Record arecord : Type := mkarecord {
  ar_fields : list (string * list attachment)
}.

(** [table.fields.filter(f => f.type === 'multipleAttachments')] *)
Definition findAttachmentField (t : atable) : list field :=
  filter (fun f => String.eqb (f_type f) "multipleAttachments") (at_fields t).

(** [r.fields[name]], [None] when it is undefined. *)
Fixpoint field_value (name : string) (fields : list (string * list attachment))
    : option (list attachment) :=
  match fields with
  | [] => None
  | (n, v) :: rest =>
      if String.eqb n name then Some v else field_value name rest
  end.

(** The two loops at the head of [downloadAttachmentsAsync]. *)
Definition found_attachments (records : list arecord)
    (attachment_fields : list field) : list attachment :=
  flat_map
    (fun r =>
       flat_map
         (fun f =>
            match field_value (f_name f) (ar_fields r) with
            | Some l => l
            | None => []
            end)
         attachment_fields)
    records.

(** [s] without the prefix [pat], when it has it. *)
Fixpoint strip_prefix (pat s : string) : option string :=
  match pat with
  | EmptyString => Some s
  | String c pat' =>
      match s with
      | EmptyString => None
      | String d s' =>
          if Ascii.eqb c d then strip_prefix pat' s' else None
      end
  end.

(** [s.replace(pat, '')] for a string [pat]: the first occurrence of
    [pat] is removed. *)
Fixpoint replace_first (pat s : string) : string :=
  match strip_prefix pat s with
  | Some rest => rest
  | None =>
      match s with
      | EmptyString => EmptyString
      | String c s' => String c (replace_first pat s')
      end
  end.

(** [`${a.id}_${a.filename.replace("?authuser=0", '')}`], the name handed
    to [path.join] after the directory of the base. *)
Definition file_name (a : attachment) : string :=
  (a_id a ++ "_" ++ replace_first "?authuser=0" (a_filename a))%string.

(** What the downloads meet: the answer to the GET of each URL and
    whether the write of each file fails. *)
Record network : Type := mknetwork {
  get_url : string -> settlement unit;
  write_fails : string -> string -> bool
}.

(** The [Promise.map] of [downloadAttachmentsAsync] over the attachments;
    the files written are kept as (directory, name) pairs. *)
Fixpoint download_each (net : network) (attachment_path : string)
    (l : list attachment) (files : list (string * string))
    : completion unit * list (string * string) :=
  match l with
  | [] => (Return tt, files)
  | a :: l' =>
      match get_url net (a_url a) with
      | Rejected err => (Throw (Err err), files)
      | Fulfilled _ =>
          download_each net attachment_path l'
            (if write_fails net attachment_path (file_name a) then files
             else files ++ [(attachment_path, file_name a)])
      end
  end.

(** [downloadAttachmentsAsync(base_id, table, records, attachment_fields,
    attachment_path)] *)
Definition downloadAttachmentsAsync (net : network) (records : list arecord)
    (attachment_fields : list field) (attachment_path : string)
    (files : list (string * string))
    : completion nat * list (string * string) :=
  let attachments := found_attachments records attachment_fields in
  match download_each net attachment_path attachments files with
  | (Return _, files') => (Return (length attachments), files')
  | (Throw t, files') => (Throw t, files')
  end.

(** [s] holds [pat] after [a]. *)
Definition occurs_at (pat a s : string) : Prop :=
  exists b, s = (a ++ pat ++ b)%string.

(** What the attachments script can throw: what [base_data.js] throws, and
    the ReferenceError of reading an identifier that is not declared. *)
Inductive raised : Type :=
| Thrown (t : thrown)
| ReferenceError (identifier : string).

Inductive ending (A : Type) : Type :=
| Done (a : A)
| Raised (r : raised).
Arguments Done {A} a.
Arguments Raised {A} r.

Definition MA (A : Type) : Type := world -> ending A * world.

Definition done {A} (a : A) : MA A := fun w => (Done a, w).

Definition raise {A} (r : raised) : MA A := fun w => (Raised r, w).

Definition bind_a {A B} (m : MA A) (k : A -> MA B) : MA B :=
  fun w =>
    match m w with
    | (Done a, w') => k a w'
    | (Raised r, w') => (Raised r, w')
    end.

(** [try { m } catch (err) { h err }] *)
Definition try_a {A} (m : MA A) (h : raised -> MA A) : MA A :=
  fun w =>
    match m w with
    | (Done a, w') => (Done a, w')
    | (Raised r, w') => h r w'
    end.

(** The code shared with [base_data.js] runs as it does there. *)
Definition lift {A} (m : M A) : MA A :=
  fun w =>
    match m w with
    | (Return a, w') => (Done a, w')
    | (Throw t, w') => (Raised (Thrown t), w')
    end.

Notation "x <-- m ;; k" := (bind_a m (fun x => k))
  (at level 61, m at next level, right associativity) : js_scope.
Notation "x <~~ m ;; k" :=
  (bind_a m (fun f => match f with Next x => k | Exit r => done r end))
  (at level 61, m at next level, right associativity) : js_scope.

(** [Promise.map(l, f)], along the schedule of [Promise_map]. *)
Fixpoint Promise_map_a {A B} (f : A -> MA B) (l : list A) : MA (list B) :=
  match l with
  | [] => done []
  | a :: l' => b <-- f a ;; bs <-- Promise_map_a f l' ;; done (b :: bs)
  end.

(** [err.response] of whatever was thrown. *)
Definition response_of_raised (r : raised) : option http_response :=
  match r with
  | Thrown t => response_of t
  | ReferenceError _ => None
  end.

(** A row of [listofbases.csv]; only its [id] is read. *)
Record listed_base : Type := mklisted_base { lb_id : string }.

(** The remote account and the disk as seen by the attachments script. *)
Record attachments_remote : Type := mkattachments_remote {
  (** [admin.post('meta/bases/<id>/collaborators', ...)] *)
  post_collaborator : string -> settlement unit;
  (** [admin.get('meta/bases/<id>/tables')], giving [metadata.data.tables] *)
  get_tables_fields : string -> settlement (list atable);
  (** [base(t.name).select().eachPage(page)] in the base of that id: how
      the promise settles, and what the page callbacks have added up in
      [num_attachments] by then *)
  eachPage : string -> atable -> settlement nat;
  (** [admin.delete('meta/bases/<id>/collaborators/<admin>')] *)
  delete_collaborator : string -> settlement unit;
  (** [fs.existsSync(p)] or else [fs.mkdirSync(p)] for the directory of the
      base of that id: the error thrown, if any *)
  mkdirSync : string -> option error
}.

(** The mapper over the tables of a base.  The branch for a table without
    attachment fields reads [table.id], and no [table] is declared. *)
Definition download_table (env : attachments_remote) (base_id : string)
    (t : atable) : MA nat :=
  let attachment_fields := findAttachmentField t in
  if (List.length attachment_fields =? 0)%nat
  then raise (ReferenceError "table")
  else
    try_a
      (lift (request <- issue (SelectAll base_id (at_name t))
                              (eachPage env base_id t) ;;
             requestWithRetry request "undefined" None))
      (fun err => raise err).

(** The mapper over the bases of the attachments script. *)
Definition download_base (env : attachments_remote) (b : listed_base)
    : MA (option nat) :=
  let base_id := lb_id b in
  r <~~ try_a
          (lift (request <- issue (AddCollaborator base_id)
                                  (post_collaborator env base_id) ;;
                 r <- requestWithRetry request base_id None ;;
                 ret (Next r)))
          (fun err =>
             match response_of_raised err with
             | None => raise (Thrown TypeError)
             | Some resp =>
                 if is_not_found resp then done (Exit (Some 0))
                 else if (status resp =? 403)%nat
                      then _ <-- lift (push_unscanned base_id) ;;
                           done (Exit (Some 0))
                      else raise err
             end) ;;
  tables <~~ try_a
               (lift (request <- issue (GetTables base_id)
                                       (get_tables_fields env base_id) ;;
                      metadata <- requestWithRetry request base_id None ;;
                      ret (Next metadata)))
               (fun err =>
                  match response_of_raised err with
                  | None => raise (Thrown TypeError)
                  | Some resp =>
                      if (status resp =? 403)%nat then done (Exit (Some 0))
                      else raise err
                  end) ;;
  _ <-- match mkdirSync env base_id with
        | Some err => raise (Thrown (Err err))
        | None => done tt
        end ;;
  record_numbers <~~ try_a
                       (l <-- Promise_map_a (download_table env base_id) tables ;;
                        done (Next l))
                       (fun err =>
                          _ <-- lift (push_unscanned base_id) ;;
                          done (Exit None)) ;;
  num_records <-- lift (reduce_sum record_numbers) ;;
  _ <-- try_a
          (lift (request <- issue (RemoveCollaborator base_id)
                                  (delete_collaborator env base_id) ;;
                 requestWithRetry request base_id None))
          (fun err =>
             match response_of_raised err with
             | None => raise (Thrown TypeError)
             | Some resp =>
                 if (status resp =? 403)%nat then done tt else raise err
             end) ;;
  done None.

(** [run(bases)] of the attachments script. *)
Definition attachments_run (env : attachments_remote)
    (bases : list listed_base) : MA unit :=
  _ <-- Promise_map_a (download_base env) bases ;; done tt.

(** A table has a field of attachments. *)
Definition has_attachment_field (t : atable) : bool :=
  match findAttachmentField t with [] => false | _ :: _ => true end.

(** The remote calls of a trace other than the removal of the admin. *)
Definition is_removal (c : remote_call) : bool :=
  match c with RemoveCollaborator _ => true | _ => false end.

(** ** Sample data of the attachments script *)

Definition photo : attachment :=
  mkattachment "att1" "photo.png?authuser=0" "https://dl/1".

Definition scan : attachment :=
  mkattachment "att2" "scan.pdf" "https://dl/2".

Definition sample_records : list arecord :=
  [mkarecord [("Files", [photo]); ("Notes", [])];
   mkarecord [("Files", [scan])];
   mkarecord []].

Definition files_table : atable :=
  mkatable "tblFiles" "Documents"
           [mkfield "Name" "singleLineText";
            mkfield "Files" "multipleAttachments"].

Definition plain_table : atable :=
  mkatable "tblPlain" "People" [mkfield "Name" "singleLineText"].

(** Every download is answered; the disk refuses the file of [scan]. *)
Definition sample_network : network :=
  mknetwork (fun _ => Fulfilled tt)
            (fun _ name => String.eqb name "att2_scan.pdf").

(** An account whose base appA has a table without attachment fields, and
    where the directory of appD cannot be made. *)
Definition sample_attachments_remote : attachments_remote :=
  mkattachments_remote
    (fun _ => Fulfilled tt)
    (fun base_id =>
       if String.eqb base_id "appA" then Fulfilled [files_table; plain_table]
       else Fulfilled [files_table])
    (fun _ _ => Fulfilled 2)
    (fun _ => Fulfilled tt)
    (fun base_id =>
       if String.eqb base_id "appD"
       then Some (mkerr (Some "ENOENT") None)
       else None).

Definition empty_world : world :=
  mkworld (mkdb false 999 [] []) [] [].

(** A store whose rows all carry the scan identifier "S". *)
Definition current_world : world :=
  mkworld (mkdb false 999 (firstn 1 sample_bases) (firstn 1 sample_data)) [] [].

(** * Properties *)

(** ** The retry wrapper *)

Lemma concat_repeat_comm {A} (b : list A) (k : nat) :
  concat (repeat b k) ++ b = b ++ concat (repeat b k).
Proof.
  induction k as [|k IH]; simpl.
  - now rewrite app_nil_r.
  - now rewrite <- app_assoc, IH.
Qed.

Lemma requestWithRetry_rec_fulfilled {A} (r : A) bound id rc w :
  requestWithRetry_rec bound (Fulfilled r) id rc w
  = (Return r, log [Await id] w).
Proof. destruct bound; reflexivity. Qed.

(** One unfolding of the recursion, after the await was recorded. *)
Lemma requestWithRetry_rec_rejected {A} (err : error) bound id rc w :
  requestWithRetry_rec (A := A) bound (Rejected err) id rc w
  = if is_ETIMEDOUT err && (rc <? 5)%nat
    then match bound with
         | S bound' =>
             requestWithRetry_rec bound' (Rejected err) id (rc + 1)
               (log (timed_out_attempt id) w)
         | O => (Throw (Err err), log [WarnTimeout id; Await id] w)
         end
    else (Throw (Err err),
          log (if (5 <=? rc)%nat then [WarnTooManyRetries id; Await id]
               else [Await id]) w).
Proof.
  destruct bound; cbn [requestWithRetry_rec]; unfold bind, emit, throw, ret;
    cbn [fst snd db UNSCANNED_BASES trace];
    destruct (is_ETIMEDOUT err && (rc <? 5)%nat);
    try destruct (5 <=? rc)%nat; reflexivity.
Qed.

Lemma requestWithRetry_rec_other {A} (err : error) bound id rc w :
  is_ETIMEDOUT err = false ->
  (rc < 5)%nat ->
  requestWithRetry_rec (A := A) bound (Rejected err) id rc w
  = (Throw (Err err), log [Await id] w).
Proof.
  intros Hc Hrc. rewrite requestWithRetry_rec_rejected, Hc.
  cbn [andb].
  assert (Hle : (5 <=? rc)%nat = false) by (apply Nat.leb_gt; lia).
  now rewrite Hle.
Qed.

Lemma requestWithRetry_rec_timeout {A} (err : error) id :
  is_ETIMEDOUT err = true ->
  forall bound rc w,
    bound = 5 - rc ->
    requestWithRetry_rec (A := A) bound (Rejected err) id rc w
    = (Throw (Err err),
       log (WarnTooManyRetries id :: Await id
              :: concat (repeat (timed_out_attempt id) bound)) w).
Proof.
  intros Hc.
  induction bound as [|bound IH]; intros rc w Hb;
    rewrite requestWithRetry_rec_rejected, Hc; cbn [andb].
  - assert (Hlt : (rc <? 5)%nat = false) by (apply Nat.ltb_ge; lia).
    assert (Hle : (5 <=? rc)%nat = true) by (apply Nat.leb_le; lia).
    now rewrite Hlt, Hle.
  - assert (Hlt : (rc <? 5)%nat = true) by (apply Nat.ltb_lt; lia).
    rewrite Hlt, IH by lia.
    unfold log; cbn [db UNSCANNED_BASES trace].
    do 2 f_equal.
    change (concat (repeat (timed_out_attempt id) (S bound)))
      with (timed_out_attempt id ++ concat (repeat (timed_out_attempt id) bound)).
    rewrite <- (concat_repeat_comm (timed_out_attempt id) bound).
    cbn [app]. rewrite <- !app_assoc. reflexivity.
Qed.

(** A call of [requestWithRetry] completes as the promise settled, and
    records the events of its attempts. *)
Lemma requestWithRetry_eq {A} (request : settlement A) id w :
  requestWithRetry request id None w
  = (settled request, log (retry_events request id) w).
Proof.
  unfold requestWithRetry, retry_events. destruct request as [r|err]; cbn [settled].
  - apply requestWithRetry_rec_fulfilled.
  - destruct (is_ETIMEDOUT err) eqn:Hc.
    + now apply requestWithRetry_rec_timeout.
    + apply requestWithRetry_rec_other; [assumption | lia].
Qed.

Lemma retry_events_cases {A} (request : settlement A) id :
  retry_events request id = [Await id]
  \/ retry_events request id
     = WarnTooManyRetries id :: Await id
         :: concat (repeat (timed_out_attempt id) 5).
Proof.
  unfold retry_events. destruct request as [r|err]; [now left|].
  destruct (is_ETIMEDOUT err); [now right | now left].
Qed.

Lemma calls_app l1 l2 : calls (l1 ++ l2) = calls l2 ++ calls l1.
Proof. unfold calls. now rewrite rev_app_distr, flat_map_app. Qed.

Lemma statements_app l1 l2 :
  statements (l1 ++ l2) = statements l2 ++ statements l1.
Proof. unfold statements. now rewrite rev_app_distr, flat_map_app. Qed.

Lemma calls_retry_events {A} (request : settlement A) id :
  calls (retry_events request id) = [].
Proof. destruct (retry_events_cases request id) as [-> | ->]; reflexivity. Qed.

Lemma statements_retry_events {A} (request : settlement A) id :
  statements (retry_events request id) = [].
Proof. destruct (retry_events_cases request id) as [-> | ->]; reflexivity. Qed.

Lemma statements_remote c : statements [Remote c] = [].
Proof. reflexivity. Qed.

Lemma statements_one s : statements [Sql s] = [s].
Proof. reflexivity. Qed.

Lemma calls_remote c : calls [Remote c] = [c].
Proof. reflexivity. Qed.

Lemma calls_one s : calls [Sql s] = [].
Proof. reflexivity. Qed.

Lemma statements_nil : statements [] = [].
Proof. reflexivity. Qed.

Lemma calls_nil : calls [] = [].
Proof. reflexivity. Qed.

Ltac read_trace :=
  rewrite ?statements_app, ?calls_app;
  rewrite ?statements_retry_events, ?calls_retry_events,
    ?statements_remote, ?calls_remote, ?statements_one, ?calls_one,
    ?statements_nil, ?calls_nil;
  cbn [app]; rewrite ?app_nil_r.

(** ** Relational reasoning on the monad *)

Section Preservation.
Variable R : world -> world -> Prop.
Hypothesis R_refl : forall w, R w w.
Hypothesis R_trans : forall w1 w2 w3, R w1 w2 -> R w2 w3 -> R w1 w3.

Lemma preserves_ret {A} (a : A) : preserves R (ret a).
Proof. intros w c w' H. inversion H. apply R_refl. Qed.

Lemma preserves_throw {A} (t : thrown) : preserves R (throw (A := A) t).
Proof. intros w c w' H. inversion H. apply R_refl. Qed.

Lemma preserves_bind {A B} (m : M A) (k : A -> M B) :
  preserves R m -> (forall a, preserves R (k a)) -> preserves R (bind m k).
Proof.
  intros Hm Hk w c w' H. unfold bind in H.
  destruct (m w) as [[a|t] w1] eqn:E.
  - eapply R_trans; [eapply Hm; eassumption | eapply Hk; eassumption].
  - inversion H; subst. eapply Hm; eassumption.
Qed.

Lemma preserves_try_catch {A} (m : M A) (h : thrown -> M A) :
  preserves R m -> (forall t, preserves R (h t)) ->
  preserves R (try_catch m h).
Proof.
  intros Hm Hh w c w' H. unfold try_catch in H.
  destruct (m w) as [[a|t] w1] eqn:E.
  - inversion H; subst. eapply Hm; eassumption.
  - eapply R_trans; [eapply Hm; eassumption | eapply Hh; eassumption].
Qed.

Lemma preserves_Promise_map {A B} (f : A -> M B) (l : list A) :
  (forall a, In a l -> preserves R (f a)) -> preserves R (Promise_map f l).
Proof.
  induction l as [|a l IH]; intros Hf; cbn [Promise_map].
  - apply preserves_ret.
  - apply preserves_bind; [apply Hf; now left|].
    intros b. apply preserves_bind; [apply IH; intros; apply Hf; now right|].
    intros bs. apply preserves_ret.
Qed.
End Preservation.

Arguments requestWithRetry : simpl never.
Arguments scan_table : simpl never.

(** ** The scanning step relation *)

Lemma Forall2_same {A} (Q : A -> A -> Prop) (l : list A) :
  (forall a, Q a a) -> Forall2 Q l l.
Proof. intros HQ. induction l; constructor; auto. Qed.

Lemma Forall2_compose {A} (Q : A -> A -> Prop) :
  (forall a b c, Q a b -> Q b c -> Q a c) ->
  forall l1 l2 l3, Forall2 Q l1 l2 -> Forall2 Q l2 l3 -> Forall2 Q l1 l3.
Proof.
  intros HQ l1 l2 l3 H12. revert l3.
  induction H12; intros l3 H23; inversion H23; subst; constructor; eauto.
Qed.

Lemma base_kept_trans scan_id P b1 b2 b3 :
  base_kept scan_id P b1 b2 -> base_kept scan_id P b2 b3 ->
  base_kept scan_id P b1 b3.
Proof.
  intros [->|[HP [t ->]]] H; [exact H|].
  destruct H as [->|[_ [t' ->]]]; right; (split; [assumption|]).
  - now exists t.
  - now exists t'.
Qed.

Lemma scan_step_refl scan_id P w : scan_step scan_id P w w.
Proof.
  constructor.
  - reflexivity.
  - apply Forall2_same. now left.
  - now left.
  - exists []. now split.
  - exists []. split; [now rewrite app_nil_r | constructor].
Qed.

Lemma scan_step_trans scan_id P w1 w2 w3 :
  scan_step scan_id P w1 w2 -> scan_step scan_id P w2 w3 ->
  scan_step scan_id P w1 w3.
Proof.
  intros [F1 B1 D1 [e1 [T1 E1]] [l1 [U1 L1]]]
         [F2 B2 D2 [e2 [T2 E2]] [l2 [U2 L2]]].
  constructor.
  - congruence.
  - eapply Forall2_compose; eauto using base_kept_trans.
  - intros r Hr. destruct (D1 r Hr) as [Hr'|[r' [Hr' [Hid Htag]]]].
    + auto.
    + right. destruct (D2 r' Hr') as [Hr''|[r'' [Hr'' [Hid' Htag']]]].
      * eauto.
      * exists r''. repeat split; congruence.
  - exists (e2 ++ e1). split.
    + now rewrite T2, T1, app_assoc.
    + apply Forall_app. now split.
  - exists (l1 ++ l2). split.
    + now rewrite U2, U1, app_assoc.
    + apply Forall_app. now split.
Qed.

Lemma scan_step_log scan_id P evs w :
  Forall (scan_event scan_id P) evs -> scan_step scan_id P w (log evs w).
Proof.
  intros H. constructor; cbn.
  - reflexivity.
  - apply Forall2_same. now left.
  - now left.
  - now exists evs.
  - exists []. split; [now rewrite app_nil_r | constructor].
Qed.

Section ScanStep.
Variable scan_id : string.
Variable P : string -> Prop.

Lemma step_ret {A} (a : A) : preserves (scan_step scan_id P) (ret a).
Proof. apply preserves_ret, scan_step_refl. Qed.

Lemma step_throw {A} t : preserves (scan_step scan_id P) (throw (A := A) t).
Proof. apply preserves_throw, scan_step_refl. Qed.

Lemma step_bind {A B} (m : M A) (k : A -> M B) :
  preserves (scan_step scan_id P) m ->
  (forall a, preserves (scan_step scan_id P) (k a)) ->
  preserves (scan_step scan_id P) (bind m k).
Proof. apply preserves_bind, scan_step_trans. Qed.

Lemma step_try_catch {A} (m : M A) (h : thrown -> M A) :
  preserves (scan_step scan_id P) m ->
  (forall t, preserves (scan_step scan_id P) (h t)) ->
  preserves (scan_step scan_id P) (try_catch m h).
Proof. apply preserves_try_catch, scan_step_trans. Qed.

Lemma step_Promise_map {A B} (f : A -> M B) (l : list A) :
  (forall a, In a l -> preserves (scan_step scan_id P) (f a)) ->
  preserves (scan_step scan_id P) (Promise_map f l).
Proof.
  apply preserves_Promise_map; [apply scan_step_refl | apply scan_step_trans].
Qed.
End ScanStep.

Lemma preserves_emit scan_id P e :
  scan_event scan_id P e -> preserves (scan_step scan_id P) (emit e).
Proof.
  intros He w c w' H. inversion H; subst.
  apply (scan_step_log scan_id P [e] w). now constructor.
Qed.

Lemma preserves_issue {A} scan_id P c (p : settlement A) :
  scan_event scan_id P (Remote c) ->
  preserves (scan_step scan_id P) (issue c p).
Proof.
  intros He. unfold issue. apply step_bind.
  - now apply preserves_emit.
  - intros _. apply step_ret.
Qed.

Lemma preserves_push_unscanned scan_id (P : string -> Prop) i :
  P i -> preserves (scan_step scan_id P) (push_unscanned i).
Proof.
  intros HP w c w' H. inversion H; subst. constructor; cbn.
  - reflexivity.
  - apply Forall2_same. now left.
  - now left.
  - exists []. now split.
  - exists [i]. split; [reflexivity | now constructor].
Qed.

Lemma preserves_requestWithRetry {A} scan_id P (request : settlement A) id :
  preserves (scan_step scan_id P) (requestWithRetry request id None).
Proof.
  intros w c w' H. rewrite requestWithRetry_eq in H.
  inversion H; subst. apply scan_step_log.
  destruct (retry_events_cases request id) as [-> | ->];
    now repeat constructor.
Qed.

Lemma preserves_insert scan_id (P : string -> Prop) r :
  P (Data.base_id r) -> Data.scan_id r = Some scan_id ->
  preserves (scan_step scan_id P)
            (asyncOp (InsertData r) (insert_or_replace_data r)).
Proof.
  intros HP Htag w c w' H. inversion H; subst. constructor; cbn.
  - reflexivity.
  - apply Forall2_same. now left.
  - intros r0 Hr0.
    destruct (String.eqb (Data.record_id r0) (Data.record_id r)) eqn:E.
    + right. exists r. split; [apply in_or_app; right; now left|].
      apply String.eqb_eq in E. now split.
    + left. apply in_or_app. left. apply filter_In. now rewrite E.
  - exists [Sql (InsertData r)]. split; [reflexivity|].
    constructor; [now split | constructor].
  - exists []. split; [now rewrite app_nil_r | constructor].
Qed.

Lemma preserves_update scan_id (P : string -> Prop) t i :
  P i ->
  preserves (scan_step scan_id P)
            (asyncOp (UpdateBase t scan_id i) (update_base_scan t scan_id i)).
Proof.
  intros HP w c w' H. inversion H; subst. constructor; cbn.
  - reflexivity.
  - induction (bases (db w)) as [|b l IH]; cbn; constructor; auto.
    destruct (String.eqb (Bases.id b) i) eqn:E; [|now left].
    right. apply String.eqb_eq in E. subst i. split; [assumption|].
    now exists t.
  - now left.
  - exists [Sql (UpdateBase t scan_id i)]. split; [reflexivity|].
    constructor; [now split | constructor].
  - exists []. split; [now rewrite app_nil_r | constructor].
Qed.

Lemma preserves_scan_table env scan_id (P : string -> Prop) base_id t :
  P base_id ->
  preserves (scan_step scan_id P) (scan_table env scan_id base_id t).
Proof.
  intros HP. unfold scan_table.
  apply step_bind; [now apply preserves_issue | intros request].
  apply step_bind; [apply preserves_requestWithRetry | intros records].
  apply step_bind; [|intros results; apply step_ret].
  apply step_Promise_map. intros rec _. now apply preserves_insert.
Qed.

Lemma preserves_scan_base env scan_id (P : string -> Prop) b :
  P (Bases.id b) ->
  preserves (scan_step scan_id P) (scan_base env scan_id b).
Proof.
  intros HP. unfold scan_base.
  repeat first
    [ apply step_ret
    | apply step_throw
    | apply preserves_requestWithRetry
    | apply preserves_issue; exact HP
    | apply preserves_push_unscanned; exact HP
    | apply preserves_update; exact HP
    | apply preserves_scan_table; exact HP
    | apply step_Promise_map; intros ? _
    | apply step_try_catch; [| intros ?]
    | apply step_bind; [| intros ?]
    | match goal with
      | |- preserves _ (match ?x with _ => _ end) => destruct x
      | |- preserves _ (if ?x then _ else _) => destruct x
      | |- preserves _ (reduce_sum ?l) => destruct l; cbn [reduce_sum]
      end ].
Qed.

(** ** Claims about the retry wrapper *)

(** C4.  [requestWithRetry] is handed the promise of a request that is
    already issued, and issues none itself: each of its attempts awaits
    that same promise again.  A request that rejects with a timeout is
    therefore met rejected at every attempt: the wrapper sleeps a fixed 10
    seconds and awaits again 5 times, 6 attempts in all, and then throws
    the rejection unchanged; the remote operation is never executed a
    second time.  A rejection that is not a timeout is thrown at once, a
    fulfilled request is returned at once.  The store and the skip list
    are not touched. *)
Theorem requestWithRetry_five_retries :
  forall (A : Type) (request : settlement A) (request_id : string) (w : world),
  exists evs,
    requestWithRetry request request_id None w
    = (match request with
       | Fulfilled r => Return r
       | Rejected err => Throw (Err err)
       end, log evs w)
    /\ calls evs = []
    /\ attempts evs = S (sleeps evs)
    /\ (forall ms, In (Sleep ms) evs -> ms = 10000%N)
    /\ sleeps evs = match request with
                    | Fulfilled _ => 0
                    | Rejected err => if is_ETIMEDOUT err then 5 else 0
                    end.
Proof.
  intros A request id w. rewrite requestWithRetry_eq.
  exists (retry_events request id).
  split; [now destruct request|].
  split; [apply calls_retry_events|].
  unfold retry_events.
  destruct request as [r|err]; [|destruct (is_ETIMEDOUT err)]; cbn;
    (repeat split; try reflexivity);
    intros ms H; repeat (destruct H as [H|H]; [congruence|]); destruct H.
Qed.

(** C4 on a grant that times out: the POST is issued once, awaited 6
    times with 5 sleeps in between, and its timeout is thrown. *)
Lemma requestWithRetry_sixth_attempt :
  let request : settlement unit :=
    Rejected (mkerr (Some "ETIMEDOUT") None) in
  let w0 := mkworld (mkdb false 999 [] []) [] [] in
  let r := (request <- issue (AddCollaborator "appA") request ;;
            requestWithRetry request "appA" None) w0 in
  fst r = Throw (Err (mkerr (Some "ETIMEDOUT") None))
  /\ calls (trace (snd r)) = [AddCollaborator "appA"]
  /\ attempts (trace (snd r)) = 6 /\ sleeps (trace (snd r)) = 5.
Proof. repeat split; reflexivity. Qed.

(** ** Claims about the identity of rows *)

Lemma filter_filter_same {A} (f : A -> bool) (l : list A) :
  filter f (filter f l) = filter f l.
Proof.
  induction l as [|a l IH]; cbn; [reflexivity|].
  destruct (f a) eqn:E; cbn; [rewrite E|]; now rewrite IH.
Qed.

Lemma upsert_keeps_other_rows r d :
  In r (data (insert_or_replace_data r d))
  /\ (forall x, Data.record_id x <> Data.record_id r ->
                In x (data d) -> In x (data (insert_or_replace_data r d))).
Proof.
  unfold insert_or_replace_data, set_data. cbn. split.
  - apply in_or_app. right. now left.
  - intros x Hx Hin. apply in_or_app. left. apply filter_In.
    split; [assumption|]. now apply negb_true_iff, String.eqb_neq.
Qed.

(** C9, as amended.  A [data] row is identified by its record identifier
    alone, the primary key of the table: an upsert replaces the prior row
    with the same record identifier whatever its base and table
    identifiers, leaves every row with another record identifier in
    place, and is idempotent. *)
Theorem insert_or_replace_data_by_record_id :
  forall (r : Data.row) (d : database),
    let d' := insert_or_replace_data r d in
    In r (data d')
    /\ (forall x, In x (data d') ->
                  Data.record_id x = Data.record_id r -> x = r)
    /\ (forall x, Data.record_id x <> Data.record_id r ->
                  (In x (data d') <-> In x (data d)))
    /\ insert_or_replace_data r d' = d'
    /\ bases d' = bases d.
Proof.
  intros r d d'. subst d'. unfold insert_or_replace_data, set_data. cbn.
  repeat split.
  - apply in_or_app. right. now left.
  - intros x Hx Hid. apply in_app_or in Hx. destruct Hx as [Hx|[Hx|[]]].
    + apply filter_In in Hx. destruct Hx as [_ Hx].
      apply negb_true_iff, String.eqb_neq in Hx. contradiction.
    + now symmetry.
  - intros Hx. apply in_app_or in Hx. destruct Hx as [Hx|[Hx|[]]].
    + now apply filter_In in Hx.
    + subst x. contradiction.
  - intros Hx. apply in_or_app. left. apply filter_In. split; [assumption|].
    now apply negb_true_iff, String.eqb_neq.
  - f_equal. rewrite filter_app, filter_filter_same. cbn.
    rewrite String.eqb_refl. cbn. now rewrite app_nil_r.
Qed.

(** C9, the claim as stated fails: two records with the same record
    identifier in different bases and tables end up as one row. *)
Lemma same_record_id_one_row :
  let r1 := Data.mk "appA" "tblA" "rec1" None None (Some "S") in
  let r2 := Data.mk "appB" "tblB" "rec1" None None (Some "S") in
  data (insert_or_replace_data r2
          (insert_or_replace_data r1 (mkdb false 999 [] []))) = [r2].
Proof. reflexivity. Qed.

(** C10.  Writing a base again in the metadata crawl replaces its row:
    whatever scan identifier and scan time the row held, the row of that
    base now holds NULL in both, and a run under any scan identifier
    selects the base again. *)
Theorem write_base_resets_scan :
  forall (env : remote) (workspace_id base_id : string) (w : world)
         (b0 : Bases.row) (name created_time : option string),
    In b0 (bases (db w)) ->
    Bases.id b0 = base_id ->
    Bases.scan_id b0 <> None \/ Bases.scan_time b0 <> None ->
    get_base env base_id = Fulfilled (name, created_time) ->
    let b1 := Bases.mk base_id (Some workspace_id) name created_time
                       None None in
    exists w',
      write_base env (workspace_id, base_id) w = (Return tt, w')
      /\ ~ In b0 (bases (db w'))
      /\ In b1 (bases (db w'))
      /\ (forall b, In b (bases (db w')) -> Bases.id b = base_id -> b = b1)
      /\ (forall scan_id, In b1 (select_bases scan_id (db w'))).
Proof.
  intros env ws i w b0 nm ct Hin Hid Htag Hget b1.
  unfold write_base, bind, issue, emit, ret, db_run. cbn. rewrite Hget. cbn.
  eexists; split; [reflexivity|]. cbn.
  assert (Hb : bases (insert_or_replace_base i (Some ws) ct nm (db w))
               = filter (fun b => negb (String.eqb (Bases.id b) i)) (bases (db w))
                 ++ [b1]).
  { unfold insert_or_replace_base.
    destruct (foreign_keys (db w) && _); reflexivity. }
  assert (H1 : In b1 (bases (insert_or_replace_base i (Some ws) ct nm (db w))))
    by (rewrite Hb; apply in_or_app; right; now left).
  split; [|split; [exact H1|split]].
  - rewrite Hb. intros H. apply in_app_or in H. destruct H as [H|[H|[]]].
    + apply filter_In in H. destruct H as [_ H].
      rewrite Hid, String.eqb_refl in H. discriminate.
    + subst b0. cbn in Htag. destruct Htag; congruence.
  - rewrite Hb. intros b H E. apply in_app_or in H. destruct H as [H|[H|[]]].
    + apply filter_In in H. destruct H as [_ H].
      rewrite E, String.eqb_refl in H. discriminate.
    + now symmetry.
  - intros S. apply filter_In. split; [exact H1 | reflexivity].
Qed.

Lemma write_base_resets_scan_witness :
  let env := mkremote (fun _ => Fulfilled tt) (fun _ => Fulfilled [])
                      (fun _ _ => Fulfilled []) (fun _ => Fulfilled tt)
                      (fun _ => Fulfilled (Some "Sales", None))
                      (fun _ => "2021-01-01T00:00:00.000Z") in
  let b0 := Bases.mk "appA" (Some "wsp1") (Some "Sales") None
                     (Some "2020-12-31T00:00:00.000Z") (Some "S") in
  let w := mkworld (mkdb false 999 [b0] []) [] [] in
  let b1 := Bases.mk "appA" (Some "wsp1") (Some "Sales") None None None in
  In b0 (bases (db w))
  /\ Bases.scan_id b0 <> None
  /\ get_base env "appA" = Fulfilled (Some "Sales", None)
  /\ exists w',
      write_base env ("wsp1", "appA") w = (Return tt, w')
      /\ ~ In b0 (bases (db w'))
      /\ In b1 (bases (db w'))
      /\ (forall b, In b (bases (db w')) -> Bases.id b = "appA" -> b = b1)
      /\ (forall scan_id, In b1 (select_bases scan_id (db w'))).
Proof.
  intros env b0 w b1.
  assert (H1 : In b0 (bases (db w))) by now left.
  assert (H2 : Bases.scan_id b0 <> None) by discriminate.
  assert (H3 : get_base env "appA" = Fulfilled (Some "Sales", None))
    by reflexivity.
  repeat (split; [assumption|]).
  exact (write_base_resets_scan env "wsp1" "appA" w b0 (Some "Sales") None
           H1 eq_refl (or_introl H2) H3).
Defined.

(** The same over a whole crawl: when the crawl of the queued bases
    returns, each of them holds NULL as scan identifier and scan time. *)
Lemma bases_insert_or_replace_base i ws ct nm d :
  bases (insert_or_replace_base i ws ct nm d)
  = filter (fun b => negb (String.eqb (Bases.id b) i)) (bases d)
    ++ [Bases.mk i ws nm ct None None].
Proof.
  unfold insert_or_replace_base.
  destruct (foreign_keys d && _); reflexivity.
Qed.

Lemma write_base_unscanned env q i w w' :
  write_base env q w = (Return tt, w') ->
  snd q = i \/
  (forall b, In b (bases (db w)) -> Bases.id b = i ->
             Bases.scan_id b = None /\ Bases.scan_time b = None) ->
  forall b, In b (bases (db w')) -> Bases.id b = i ->
            Bases.scan_id b = None /\ Bases.scan_time b = None.
Proof.
  destruct q as [ws j]. unfold write_base, bind, issue, emit, ret, db_run, throw.
  cbn. destruct (get_base env j) as [[nm ct]|err]; [|discriminate].
  intros H Hq b Hb Hid. inversion H; subst; clear H. cbn in Hb.
  rewrite bases_insert_or_replace_base in Hb.
  apply in_app_or in Hb. destruct Hb as [Hb|[<-|[]]]; [|now split].
  apply filter_In in Hb. destruct Hb as [Hb Hne].
  destruct Hq as [Hq|Hq]; [|now apply Hq].
  cbn in Hq. subst j. rewrite String.eqb_refl in Hne. discriminate.
Qed.

Lemma write_bases_reset_scans env queue : forall w w',
  write_bases env queue w = (Return tt, w') ->
  forall q, In q queue ->
  forall b, In b (bases (db w')) -> Bases.id b = snd q ->
            Bases.scan_id b = None /\ Bases.scan_time b = None.
Proof.
  unfold write_bases.
  assert (G : forall l w w' i,
             (exists us, Promise_map (write_base env) l w = (Return us, w')) ->
             (exists q, In q l /\ snd q = i) \/
             (forall b, In b (bases (db w)) -> Bases.id b = i ->
                        Bases.scan_id b = None /\ Bases.scan_time b = None) ->
             forall b, In b (bases (db w')) -> Bases.id b = i ->
                       Bases.scan_id b = None /\ Bases.scan_time b = None).
  { induction l as [|q l IH]; intros w w' i [us H] Hq.
    - inversion H; subst. destruct Hq as [[q [[] _]]|Hq]. exact Hq.
    - cbn [Promise_map] in H. unfold bind at 1 in H.
      destruct (write_base env q w) as [[[]|t] w1] eqn:E1; [|discriminate].
      unfold bind in H.
      destruct (Promise_map (write_base env) l w1) as [[us'|t] w2] eqn:E2;
        [|discriminate].
      inversion H; subst; clear H.
      apply (IH w1 w' i); [now exists us'|].
      destruct Hq as [[q' [[<-|Hin] Hi]]|Hq].
      + right. apply (write_base_unscanned env q i w w1 E1). now left.
      + left. now exists q'.
      + right. apply (write_base_unscanned env q i w w1 E1). now right. }
  intros w w' H q Hq. unfold bind in H.
  destruct (Promise_map (write_base env) queue w) as [[us|t] w1] eqn:E;
    [|discriminate].
  inversion H; subst; clear H.
  apply (G queue w w' (snd q)); [now exists us|].
  left. now exists q.
Qed.

(** ** Claims about one base *)

(** C6.  When the collaborator grant of a base fails with a response:
    if it is not-found (status 404, or the body says NOT_FOUND) the scan
    of the base returns 0 and leaves the store and the skip list as they
    were; if it is forbidden (status 403, not not-found) the scan returns
    0, the base identifier is appended to the skip list and the store is
    as it was.  In both cases no other remote call and no SQL statement is
    issued, so the scan identifier of the base is not updated. *)
Theorem grant_failure_skips_base :
  forall (env : remote) (scan_id : string) (b : Bases.row) (w : world)
         (err : error) (resp : http_response),
    add_collaborator env (Bases.id b) = Rejected err ->
    response err = Some resp ->
    (is_not_found resp = true ->
     exists evs,
       scan_base env scan_id b w = (Return (Some 0), log evs w)
       /\ calls evs = [AddCollaborator (Bases.id b)]
       /\ statements evs = [])
    /\
    (is_not_found resp = false -> status resp = 403 ->
     exists evs,
       scan_base env scan_id b w
       = (Return (Some 0),
          mkworld (db w) (UNSCANNED_BASES w ++ [Bases.id b]) (evs ++ trace w))
       /\ calls evs = [AddCollaborator (Bases.id b)]
       /\ statements evs = []).
Proof.
  intros env S b w err resp Hadd Hresp.
  split; [intros Hnf | intros Hnf H403];
    exists (retry_events (Rejected (A := unit) err) (Bases.id b)
            ++ [Remote (AddCollaborator (Bases.id b))]);
    (split; [|split; now read_trace]);
    unfold scan_base, bind, try_catch, issue, emit, ret; cbn;
    rewrite requestWithRetry_eq, Hadd; cbn; rewrite Hresp, Hnf;
    [|rewrite H403; cbn]; unfold log; cbn; now rewrite <- app_assoc.
Qed.

Lemma grant_failure_skips_base_witness :
  let env := mkremote
               (fun i => if String.eqb i "appA"
                         then Rejected (mkerr None (Some (mkresp 404 None)))
                         else Rejected (mkerr None (Some (mkresp 403 None))))
               (fun _ => Fulfilled []) (fun _ _ => Fulfilled [])
               (fun _ => Fulfilled tt) (fun _ => Fulfilled (None, None))
               (fun _ => "2021-01-01T00:00:00.000Z") in
  let bA := Bases.mk "appA" None None None None None in
  let bB := Bases.mk "appB" None None None None None in
  let w := mkworld (mkdb false 999 [bA; bB] []) [] [] in
  (exists evs,
     scan_base env "S" bA w = (Return (Some 0), log evs w)
     /\ calls evs = [AddCollaborator "appA"]
     /\ statements evs = [])
  /\
  (exists evs,
     scan_base env "S" bB w
     = (Return (Some 0),
        mkworld (db w) (UNSCANNED_BASES w ++ ["appB"]) (evs ++ trace w))
     /\ calls evs = [AddCollaborator "appB"]
     /\ statements evs = []).
Proof.
  intros env bA bB w. split.
  - apply (grant_failure_skips_base env "S" bA w
             (mkerr None (Some (mkresp 404 None))) (mkresp 404 None));
      reflexivity.
  - apply (grant_failure_skips_base env "S" bB w
             (mkerr None (Some (mkresp 403 None))) (mkresp 403 None));
      reflexivity.
Defined.

(** ** The table scans of one base in closed form *)

Lemma write_records_eq base_id t scan_id records w :
  Promise_map
    (fun rec =>
       let r := data_row base_id t scan_id rec in
       asyncOp (InsertData r) (insert_or_replace_data r))
    records w
  = (Return (map (fun _ => tt) records),
     mkworld (write_records base_id t scan_id records (db w))
             (UNSCANNED_BASES w)
             (write_events base_id t scan_id records ++ trace w)).
Proof.
  revert w. induction records as [|rec records IH]; intros w.
  - now destruct w.
  - cbn [Promise_map]. unfold bind at 1. unfold asyncOp at 1. unfold db_run at 1.
    unfold bind at 1. rewrite IH. cbn.
    unfold write_events, ret. cbn. now rewrite <- app_assoc.
Qed.

Lemma scan_table_eq env scan_id base_id t w :
  scan_table env scan_id base_id t w
  = (match select_all env base_id (t_name t) with
     | Fulfilled records => Return (length records)
     | Rejected err => Throw (Err err)
     end,
     mkworld (match select_all env base_id (t_name t) with
              | Fulfilled records =>
                  write_records base_id t scan_id records (db w)
              | Rejected _ => db w
              end)
             (UNSCANNED_BASES w)
             (table_events env scan_id base_id t ++ trace w)).
Proof.
  unfold scan_table, table_events, bind, issue, emit, ret. cbn.
  rewrite requestWithRetry_eq.
  destruct (select_all env base_id (t_name t)) as [records|err]; cbn.
  - rewrite write_records_eq. cbn.
    now rewrite length_map, <- !app_assoc.
  - unfold log. cbn. now rewrite <- !app_assoc.
Qed.

Lemma scan_tables_eq env scan_id base_id tables w :
  Promise_map (scan_table env scan_id base_id) tables w
  = (tables_result env base_id tables,
     mkworld (tables_db env scan_id base_id tables (db w))
             (UNSCANNED_BASES w)
             (tables_events env scan_id base_id tables ++ trace w)).
Proof.
  revert w. induction tables as [|t ts IH]; intros w.
  - now destruct w.
  - cbn [Promise_map]. unfold bind at 1. rewrite scan_table_eq.
    unfold tables_events. cbn [attempted tables_result tables_db map rev].
    destruct (select_all env base_id (t_name t)) as [records|err].
    + unfold bind. rewrite IH. cbn [db UNSCANNED_BASES trace].
      unfold tables_events.
      rewrite concat_app. cbn [concat]. rewrite app_nil_r, <- app_assoc.
      destruct (tables_result env base_id ts); reflexivity.
    + cbn. now rewrite app_nil_r.
Qed.

(** ** The scan of one base in closed form *)

Ltac same_world :=
  unfold log; cbn [db UNSCANNED_BASES trace];
  repeat (rewrite ?app_nil_r, <- ?app_assoc; cbn [app]);
  reflexivity.

Lemma scan_base_eq env scan_id b w :
  scan_base env scan_id b w
  = (result_of (outcome_of env (Bases.id b)),
     mkworld (db_of env scan_id (Bases.id b) (db w))
             (UNSCANNED_BASES w ++ skips_of (Bases.id b) (outcome_of env (Bases.id b)))
             (events_of env scan_id (Bases.id b) ++ trace w)).
Proof.
  unfold scan_base, outcome_of, db_of, events_of.
  set (id := Bases.id b).
  unfold bind, try_catch, issue, emit, ret, throw, push_unscanned, asyncOp,
    db_run.
  cbn. rewrite requestWithRetry_eq.
  unfold grant_events, listing_events, revoke_events.
  destruct (add_collaborator env id) as [u|err]; cbn.
  - rewrite requestWithRetry_eq.
    destruct (get_tables env id) as [tables|err]; cbn.
    + rewrite scan_tables_eq. unfold on_tables.
      destruct (tables_result env id tables) as [[|n l]|t]; cbn.
      * same_world.
      * rewrite requestWithRetry_eq.
        destruct (remove_collaborator env id) as [u'|err]; cbn.
        { same_world. }
        unfold on_revoke_error.
        destruct (response err) as [resp|]; cbn; [|same_world].
        destruct (status resp =? 403)%nat; cbn; same_world.
      * same_world.
    + unfold on_listing_error.
      destruct (response err) as [resp|]; cbn; [|same_world].
      destruct (status resp =? 403)%nat; cbn; same_world.
  - unfold on_grant_error.
    destruct (response err) as [resp|]; cbn; [|same_world].
    destruct (is_not_found resp); cbn; [same_world|].
    destruct (status resp =? 403)%nat; cbn; same_world.
Qed.

(** ** Facts on the closed forms *)

Lemma statements_sql (g : record -> statement) l :
  statements (rev (map (fun x => Sql (g x)) l)) = map g l.
Proof.
  unfold statements. rewrite rev_involutive.
  induction l as [|a l IH]; cbn; [reflexivity | now rewrite IH].
Qed.

Lemma statements_concat {X} (f : X -> list event) l :
  statements (concat (rev (map f l))) = flat_map (fun x => statements (f x)) l.
Proof.
  induction l as [|a l IH]; [reflexivity|]. cbn [map rev].
  rewrite concat_app, statements_app, IH. cbn [concat].
  now rewrite app_nil_r.
Qed.

Lemma calls_concat {X} (f : X -> list event) l :
  calls (concat (rev (map f l))) = flat_map (fun x => calls (f x)) l.
Proof.
  induction l as [|a l IH]; [reflexivity|]. cbn [map rev].
  rewrite concat_app, calls_app, IH. cbn [concat].
  now rewrite app_nil_r.
Qed.

Lemma calls_sql (g : record -> statement) l :
  calls (rev (map (fun x => Sql (g x)) l)) = [].
Proof.
  unfold calls. rewrite rev_involutive.
  induction l as [|a l IH]; cbn; [reflexivity | exact IH].
Qed.

Lemma statements_table_events env scan_id base_id t :
  statements (table_events env scan_id base_id t)
  = map InsertData (table_rows env scan_id base_id t).
Proof.
  unfold table_events, table_rows.
  rewrite !statements_app, statements_retry_events. cbn.
  destruct (select_all env base_id (t_name t)) as [records|err];
    [|reflexivity].
  unfold write_events.
  rewrite (statements_sql (fun rec => InsertData (data_row base_id t scan_id rec))).
  now rewrite map_map.
Qed.

Lemma calls_table_events env scan_id base_id t :
  calls (table_events env scan_id base_id t) = [SelectAll base_id (t_name t)].
Proof.
  unfold table_events.
  rewrite !calls_app, calls_retry_events. cbn.
  destruct (select_all env base_id (t_name t)) as [records|err];
    [|reflexivity].
  unfold write_events.
  now rewrite (calls_sql (fun rec => InsertData (data_row base_id t scan_id rec))).
Qed.

Lemma statements_tables_events env scan_id base_id tables :
  statements (tables_events env scan_id base_id tables)
  = map InsertData (scan_rows env scan_id base_id tables).
Proof.
  unfold tables_events, scan_rows. rewrite statements_concat.
  induction (attempted env base_id tables) as [|t ts IH]; cbn; [reflexivity|].
  now rewrite map_app, IH, statements_table_events.
Qed.

Lemma calls_tables_events env scan_id base_id tables :
  calls (tables_events env scan_id base_id tables)
  = map (fun t => SelectAll base_id (t_name t)) (attempted env base_id tables).
Proof.
  unfold tables_events. rewrite calls_concat.
  induction (attempted env base_id tables) as [|t ts IH]; cbn; [reflexivity|].
  now rewrite IH, calls_table_events.
Qed.

Lemma write_records_insert_all base_id t scan_id records d :
  write_records base_id t scan_id records d
  = insert_all (map (data_row base_id t scan_id) records) d.
Proof.
  unfold write_records, insert_all. revert d.
  induction records as [|rec records IH]; intros d; cbn; [reflexivity|].
  apply IH.
Qed.

Lemma insert_all_app l1 l2 d :
  insert_all (l1 ++ l2) d = insert_all l2 (insert_all l1 d).
Proof. unfold insert_all. apply fold_left_app. Qed.

Lemma tables_db_insert_all env scan_id base_id tables d :
  tables_db env scan_id base_id tables d
  = insert_all (scan_rows env scan_id base_id tables) d.
Proof.
  unfold scan_rows. revert d.
  induction tables as [|t ts IH]; intros d; cbn [tables_db attempted flat_map];
    [reflexivity|].
  rewrite insert_all_app.
  assert (E : table_rows env scan_id base_id t
              = match select_all env base_id (t_name t) with
                | Fulfilled records => map (data_row base_id t scan_id) records
                | Rejected _ => []
                end) by reflexivity.
  rewrite E. clear E.
  destruct (select_all env base_id (t_name t)) as [records|err].
  - now rewrite IH, write_records_insert_all.
  - reflexivity.
Qed.

Lemma tables_result_return env base_id tables l :
  tables_result env base_id tables = Return l ->
  Forall (readable env base_id) tables
  /\ attempted env base_id tables = tables
  /\ length l = length tables.
Proof.
  revert l. induction tables as [|t ts IH]; intros l H; cbn in *.
  - inversion H. repeat split; constructor.
  - destruct (select_all env base_id (t_name t)) as [records|err] eqn:E;
      [|discriminate].
    destruct (tables_result env base_id ts) as [l'|]; [|discriminate].
    inversion H; subst. destruct (IH l' eq_refl) as [H1 [H2 H3]].
    repeat split.
    + constructor; [now exists records | assumption].
    + now rewrite H2.
    + cbn. now rewrite H3.
Qed.

Lemma tables_result_throw env base_id tables :
  Exists (unreadable env base_id) tables ->
  exists err, tables_result env base_id tables = Throw (Err err).
Proof.
  induction 1 as [t ts [err H]|t ts H IH]; cbn.
  - rewrite H. now exists err.
  - destruct (select_all env base_id (t_name t)) as [records|err].
    + destruct IH as [err ->]. now exists err.
    + now exists err.
Qed.

Lemma insert_all_bases l d : bases (insert_all l d) = bases d.
Proof.
  unfold insert_all. revert d.
  induction l as [|r l IH]; intros d; cbn; [reflexivity | now rewrite IH].
Qed.

(** A row of the store is, after more upserts, still there or replaced by
    one of the upserted rows with its record identifier. *)
Lemma insert_all_keeps l : forall d x,
  In x (data d) ->
  exists x', In x' (data (insert_all l d))
             /\ Data.record_id x' = Data.record_id x
             /\ (x' = x \/ In x' l).
Proof.
  induction l as [|r l IH]; intros d x Hx.
  - exists x. auto.
  - change (insert_all (r :: l) d) with (insert_all l (insert_or_replace_data r d)).
    destruct (upsert_keeps_other_rows r d) as [Hr Hkeep].
    destruct (String.eqb (Data.record_id x) (Data.record_id r)) eqn:E.
    + apply String.eqb_eq in E.
      destruct (IH _ r Hr) as [x' [H1 [H2 H3]]].
      exists x'. repeat split; [assumption | congruence |].
      right. destruct H3 as [->|H3]; [now left | now right].
    + apply String.eqb_neq in E.
      destruct (IH _ x (Hkeep x E Hx)) as [x' [H1 [H2 H3]]].
      exists x'. repeat split; [assumption | assumption |].
      destruct H3 as [->|H3]; [now left | right; now right].
Qed.

Lemma outcome_of_scanned env base_id :
  is_scanned (outcome_of env base_id) = true ->
  exists u tables n l,
    add_collaborator env base_id = Fulfilled u
    /\ get_tables env base_id = Fulfilled tables
    /\ tables_result env base_id tables = Return (n :: l)
    /\ on_tables env base_id tables = Scanned.
Proof.
  unfold outcome_of, on_grant_error, on_listing_error.
  destruct (add_collaborator env base_id) as [u|err].
  - destruct (get_tables env base_id) as [tables|err'].
    + intros H. exists u, tables.
      assert (Ho : on_tables env base_id tables = Scanned)
        by (destruct (on_tables env base_id tables); now try discriminate).
      unfold on_tables in Ho.
      destruct (tables_result env base_id tables) as [[|n l]|t] eqn:E;
        try discriminate.
      exists n, l. repeat split. unfold on_tables. now rewrite E.
    + destruct (response err') as [resp|]; [|discriminate].
      destruct (status resp =? 403)%nat; discriminate.
  - destruct (response err) as [resp|]; [|discriminate].
    destruct (is_not_found resp); [discriminate|].
    destruct (status resp =? 403)%nat; discriminate.
Qed.

Lemma statements_events_of env scan_id base_id :
  statements (events_of env scan_id base_id)
  = map InsertData (rows_of env scan_id base_id)
    ++ (if is_scanned (outcome_of env base_id)
        then [UpdateBase (now env base_id) scan_id base_id] else []).
Proof.
  unfold events_of, rows_of, outcome_of, grant_events, listing_events,
    revoke_events.
  destruct (add_collaborator env base_id) as [u|err].
  - destruct (get_tables env base_id) as [tables|err'].
    + read_trace. rewrite statements_tables_events.
      f_equal. unfold on_tables.
      destruct (tables_result env base_id tables) as [[|n l]|t];
        try reflexivity.
      destruct (remove_collaborator env base_id) as [u'|err'];
        [now read_trace|].
      unfold on_revoke_error. destruct (response err') as [resp|];
        [|now read_trace].
      destruct (status resp =? 403)%nat; now read_trace.
    + read_trace.
      unfold on_listing_error. destruct (response err') as [resp|];
        [|reflexivity].
      destruct (status resp =? 403)%nat; reflexivity.
  - read_trace.
    unfold on_grant_error. destruct (response err) as [resp|];
      [|reflexivity].
    destruct (is_not_found resp); [reflexivity|].
    destruct (status resp =? 403)%nat; reflexivity.
Qed.

Lemma calls_events_of env scan_id base_id :
  calls (events_of env scan_id base_id) = calls_of env base_id.
Proof.
  unfold events_of, calls_of, grant_events, listing_events, revoke_events.
  destruct (add_collaborator env base_id) as [u|err].
  - destruct (get_tables env base_id) as [tables|err'].
    + read_trace. rewrite calls_tables_events.
      do 3 f_equal.
      destruct (tables_result env base_id tables) as [[|n l]|t];
        try reflexivity.
      destruct (on_tables env base_id tables); now read_trace.
    + now read_trace.
  - now read_trace.
Qed.

Lemma db_of_eq env scan_id base_id d :
  db_of env scan_id base_id d
  = let d' := insert_all (rows_of env scan_id base_id) d in
    if is_scanned (outcome_of env base_id)
    then update_base_scan (now env base_id) scan_id base_id d'
    else d'.
Proof.
  unfold db_of, rows_of, outcome_of.
  destruct (add_collaborator env base_id) as [u|err].
  - destruct (get_tables env base_id) as [tables|err'].
    + rewrite tables_db_insert_all. cbn zeta.
      destruct (on_tables env base_id tables); reflexivity.
    + unfold on_listing_error. destruct (response err') as [resp|];
        [|reflexivity].
      destruct (status resp =? 403)%nat; reflexivity.
  - unfold on_grant_error. destruct (response err) as [resp|];
      [|reflexivity].
    destruct (is_not_found resp); [reflexivity|].
    destruct (status resp =? 403)%nat; reflexivity.
Qed.

(** Every row the scan of a base writes belongs to the base and carries
    the scan identifier. *)
Lemma rows_of_tagged env scan_id base_id r :
  In r (rows_of env scan_id base_id) ->
  Data.base_id r = base_id /\ Data.scan_id r = Some scan_id.
Proof.
  unfold rows_of, scan_rows.
  destruct (add_collaborator env base_id); [|intros []].
  destruct (get_tables env base_id) as [tables|]; [|intros []].
  intros H. apply in_flat_map in H. destruct H as [t [_ H]].
  unfold table_rows in H.
  destruct (select_all env base_id (t_name t)); [|destruct H].
  apply in_map_iff in H. destruct H as [rec [<- _]]. now split.
Qed.

(** Every row the scan of a base writes is persisted when the scan ends. *)
Lemma rows_of_persisted env scan_id base_id d r :
  In r (rows_of env scan_id base_id) ->
  persisted scan_id base_id (Data.record_id r) (db_of env scan_id base_id d).
Proof.
  intros Hr.
  assert (Hp : persisted scan_id base_id (Data.record_id r)
                         (insert_all (rows_of env scan_id base_id) d)).
  { apply in_split in Hr. destruct Hr as [l1 [l2 E]]. rewrite E.
    change (l1 ++ r :: l2) with (l1 ++ [r] ++ l2).
    rewrite !insert_all_app.
    destruct (upsert_keeps_other_rows r (insert_all l1 d))
      as [Hin _].
    destruct (insert_all_keeps l2 _ r Hin) as [x' [H1 [H2 H3]]].
    exists x'. split; [exact H1|]. split; [exact H2|].
    assert (Hx : In x' (rows_of env scan_id base_id)).
    { rewrite E. apply in_or_app. right.
      destruct H3 as [->|H3]; [now left | now right]. }
    now apply rows_of_tagged in Hx. }
  rewrite db_of_eq. cbn zeta.
  destruct (is_scanned (outcome_of env base_id)); exact Hp.
Qed.

Lemma insert_all_keeps_distinct l : forall d x,
  In x (data d) ->
  ~ In (Data.record_id x) (map Data.record_id l) ->
  In x (data (insert_all l d)).
Proof.
  induction l as [|r l IH]; intros d x Hx Hn; [exact Hx|].
  change (insert_all (r :: l) d) with (insert_all l (insert_or_replace_data r d)).
  apply IH.
  - apply (proj2 (upsert_keeps_other_rows r d)); [|exact Hx].
    intros E. apply Hn. left. now symmetry.
  - intros H. apply Hn. now right.
Qed.

(** When the records the scan of a base writes have distinct identifiers,
    each row written is in the store when the scan ends. *)
Lemma rows_of_kept env scan_id base_id d r :
  NoDup (map Data.record_id (rows_of env scan_id base_id)) ->
  In r (rows_of env scan_id base_id) ->
  In r (data (db_of env scan_id base_id d)).
Proof.
  intros Hnd Hr.
  assert (Hp : In r (data (insert_all (rows_of env scan_id base_id) d))).
  { apply in_split in Hr. destruct Hr as [l1 [l2 E]]. rewrite E in *.
    change (l1 ++ r :: l2) with (l1 ++ [r] ++ l2).
    rewrite !insert_all_app. apply insert_all_keeps_distinct.
    - apply (proj1 (upsert_keeps_other_rows r (insert_all l1 d))).
    - rewrite map_app in Hnd. cbn [map] in Hnd.
      apply NoDup_remove_2 in Hnd. intros H. apply Hnd.
      apply in_or_app. now right. }
  rewrite db_of_eq. cbn zeta.
  destruct (is_scanned (outcome_of env base_id)); exact Hp.
Qed.

(** A row of the store stays through upserts whose rows with its record
    identifier are that very row. *)
Lemma insert_all_keeps_same l : forall d x,
  In x (data d) ->
  (forall r, In r l -> Data.record_id r = Data.record_id x -> r = x) ->
  In x (data (insert_all l d)).
Proof.
  induction l as [|r l IH]; intros d x Hx Hsame; [exact Hx|].
  change (insert_all (r :: l) d) with (insert_all l (insert_or_replace_data r d)).
  apply IH; [|intros r' Hr'; apply Hsame; now right].
  destruct (upsert_keeps_other_rows r d) as [Hr Hkeep].
  destruct (String.eqb (Data.record_id x) (Data.record_id r)) eqn:E.
  - apply String.eqb_eq in E.
    assert (r = x) by (apply Hsame; [now left | now symmetry]).
    now subst r.
  - apply String.eqb_neq in E. now apply Hkeep.
Qed.

(** A row the scan of a base writes is in the store when the scan ends,
    when the scan writes no other row under its record identifier. *)
Lemma rows_of_kept_same env scan_id base_id d r :
  In r (rows_of env scan_id base_id) ->
  (forall r', In r' (rows_of env scan_id base_id) ->
              Data.record_id r' = Data.record_id r -> r' = r) ->
  In r (data (db_of env scan_id base_id d)).
Proof.
  intros Hr Hsame.
  assert (Hp : In r (data (insert_all (rows_of env scan_id base_id) d))).
  { apply in_split in Hr. destruct Hr as [l1 [l2 E]]. rewrite E in *.
    change (l1 ++ r :: l2) with (l1 ++ [r] ++ l2).
    rewrite !insert_all_app. apply insert_all_keeps_same.
    - apply (proj1 (upsert_keeps_other_rows r (insert_all l1 d))).
    - intros r' Hr'. apply Hsame. apply in_or_app. right. now right. }
  rewrite db_of_eq. cbn zeta.
  destruct (is_scanned (outcome_of env base_id)); exact Hp.
Qed.

Lemma outcome_of_table_failed env base_id u tables :
  add_collaborator env base_id = Fulfilled u ->
  get_tables env base_id = Fulfilled tables ->
  Exists (unreadable env base_id) tables ->
  outcome_of env base_id = TableFailed
  /\ calls_of env base_id
     = AddCollaborator base_id :: GetTables base_id
         :: map (fun t => SelectAll base_id (t_name t))
                (attempted env base_id tables).
Proof.
  intros Hadd Hget Hex.
  destruct (tables_result_throw env base_id tables Hex) as [err Hres].
  unfold outcome_of, calls_of, on_tables. rewrite Hadd, Hget, Hres.
  now rewrite app_nil_r.
Qed.

Lemma no_update_among_inserts l t s i :
  ~ In (UpdateBase t s i) (map InsertData l).
Proof. intros H. apply in_map_iff in H. now destruct H as [r [H _]]. Qed.

Lemma bases_db_of env scan_id base_id d :
  bases (db_of env scan_id base_id d)
  = if is_scanned (outcome_of env base_id)
    then bases (update_base_scan (now env base_id) scan_id base_id d)
    else bases d.
Proof.
  rewrite db_of_eq. cbn zeta.
  destruct (is_scanned (outcome_of env base_id)); cbn;
    now rewrite insert_all_bases.
Qed.

Lemma table_written env scan_id base_id d tables t :
  (exists u, add_collaborator env base_id = Fulfilled u) ->
  get_tables env base_id = Fulfilled tables ->
  In t (attempted env base_id tables) ->
  readable env base_id t ->
  written env scan_id base_id (db_of env scan_id base_id d) t.
Proof.
  intros [u Hadd] Hget Ht [records Hrec]. exists records. split; [exact Hrec|].
  apply Forall_forall. intros rec Hin.
  apply (rows_of_persisted env scan_id base_id d
           (data_row base_id t scan_id rec)).
  unfold rows_of, scan_rows. rewrite Hadd, Hget.
  apply in_flat_map. exists t. split; [exact Ht|].
  unfold table_rows. rewrite Hrec. now apply in_map.
Qed.

(** C1.  The scan of a base either marks the base or leaves the [bases]
    table as it was.  It marks the base only after every table of the
    base was read and every record of every table written: the update
    that sets the scan identifier is then the last statement of the scan,
    the statements before it are writes of records and the write of each
    record of each table is among them, whatever the order in which the
    tables were read.  When a table of the base cannot be read, the scan
    returns without error, the collaborator is not removed, the base is
    appended to the skip list and no update is issued. *)
Theorem scan_id_set_only_after_all_tables :
  forall (env : remote) (scan_id : string) (b : Bases.row) (w : world)
         (c : completion (option nat)) (w' : world),
    scan_base env scan_id b w = (c, w') ->
    exists evs,
      trace w' = evs ++ trace w
      /\ ((exists tables before,
             get_tables env (Bases.id b) = Fulfilled tables
             /\ Forall (readable env (Bases.id b)) tables
             /\ Forall (written env scan_id (Bases.id b) (db w')) tables
             /\ statements evs
                = before
                  ++ [UpdateBase (now env (Bases.id b)) scan_id (Bases.id b)]
             /\ (forall s, In s before -> exists r, s = InsertData r)
             /\ (forall t records rec,
                   In t tables ->
                   select_all env (Bases.id b) (t_name t) = Fulfilled records ->
                   In rec records ->
                   In (InsertData (data_row (Bases.id b) t scan_id rec))
                      before)
             /\ bases (db w')
                = bases (update_base_scan (now env (Bases.id b)) scan_id
                                          (Bases.id b) (db w))
             /\ c = Return None)
          \/ (bases (db w') = bases (db w)
              /\ forall t s i, ~ In (UpdateBase t s i) (statements evs)))
      /\ (forall u tables,
             add_collaborator env (Bases.id b) = Fulfilled u ->
             get_tables env (Bases.id b) = Fulfilled tables ->
             Exists (unreadable env (Bases.id b)) tables ->
             c = Return None
             /\ UNSCANNED_BASES w' = UNSCANNED_BASES w ++ [Bases.id b]
             /\ bases (db w') = bases (db w)
             /\ ~ In (RemoveCollaborator (Bases.id b)) (calls evs)
             /\ forall t s i, ~ In (UpdateBase t s i) (statements evs)).
Proof.
  intros env S b w c w' H. rewrite scan_base_eq in H.
  inversion H; subst; clear H. set (id := Bases.id b).
  exists (events_of env S id). cbn [trace db UNSCANNED_BASES].
  split; [reflexivity|]. split.
  - destruct (is_scanned (outcome_of env id)) eqn:Es.
    + left. destruct (outcome_of_scanned env id Es)
        as [u [tables [n [l [Hadd [Hget [Hres Hon]]]]]]].
      destruct (tables_result_return env id tables _ Hres) as [Hall [Hatt _]].
      exists tables, (map InsertData (rows_of env S id)).
      split; [exact Hget|]. split; [exact Hall|]. split; [|split; [|split]].
      * apply Forall_forall. intros t Ht.
        apply (table_written env S id (db w) tables t); eauto.
        -- now rewrite Hatt.
        -- rewrite Forall_forall in Hall. now apply Hall.
      * now rewrite statements_events_of, Es.
      * intros s Hs. apply in_map_iff in Hs.
        destruct Hs as [r [<- _]]. now exists r.
      * split; [|split].
        -- intros t records rec Ht Hrec Hin. apply in_map.
           unfold rows_of, scan_rows. rewrite Hadd, Hget, Hatt.
           apply in_flat_map. exists t. split; [exact Ht|].
           unfold table_rows. fold id. rewrite Hrec. now apply in_map.
        -- now rewrite bases_db_of, Es.
        -- destruct (outcome_of env id); now try discriminate.
    + right. split.
      * now rewrite bases_db_of, Es.
      * intros t s i. rewrite statements_events_of, Es, app_nil_r.
        apply no_update_among_inserts.
  - intros u tables Hadd Hget Hex.
    destruct (outcome_of_table_failed env id u tables Hadd Hget Hex)
      as [Ho Hc].
    rewrite Ho. cbn [result_of skips_of]. repeat split.
    + now rewrite bases_db_of, Ho.
    + rewrite calls_events_of, Hc. intros [E|[E|Hin]]; try discriminate.
      apply in_map_iff in Hin. now destruct Hin as [t [E _]].
    + intros t s i. rewrite statements_events_of, Ho. cbn [is_scanned].
      rewrite app_nil_r. apply no_update_among_inserts.
Qed.

(** C7.  When a table of a base cannot be read, the scan of the base
    returns without error and every record row it has written is
    persisted in [data] under the base, tagged with the scan identifier of
    the run, whichever tables were read before the failure was met: each
    row written belongs to the base and carries the scan identifier, the
    store holds a row of the base with its record identifier and the scan
    identifier, and holds the very row when the scan has written no other
    row under that record identifier.  The rows the store held before are
    still there, or were rewritten by this scan.  The [bases] table is
    unchanged and the base is on the skip list. *)
Theorem written_records_survive_table_failure :
  forall (env : remote) (scan_id : string) (b : Bases.row) (w : world)
         (u : unit) (tables : list table),
    add_collaborator env (Bases.id b) = Fulfilled u ->
    get_tables env (Bases.id b) = Fulfilled tables ->
    Exists (unreadable env (Bases.id b)) tables ->
    exists w' evs,
      scan_base env scan_id b w = (Return None, w')
      /\ trace w' = evs ++ trace w
      /\ (forall r, In (InsertData r) (statements evs) ->
            Data.base_id r = Bases.id b
            /\ Data.scan_id r = Some scan_id
            /\ persisted scan_id (Bases.id b) (Data.record_id r) (db w'))
      /\ (forall r, In (InsertData r) (statements evs) ->
            (forall r', In (InsertData r') (statements evs) ->
                        Data.record_id r' = Data.record_id r -> r' = r) ->
            In r (data (db w')))
      /\ (forall r, In r (data (db w)) ->
            In r (data (db w')) \/
            exists r', In r' (data (db w'))
                       /\ Data.record_id r' = Data.record_id r
                       /\ Data.scan_id r' = Some scan_id)
      /\ bases (db w') = bases (db w)
      /\ UNSCANNED_BASES w' = UNSCANNED_BASES w ++ [Bases.id b].
Proof.
  intros env S b w u tables Hadd Hget Hex. set (id := Bases.id b) in *.
  destruct (outcome_of_table_failed env id u tables Hadd Hget Hex)
    as [Ho _].
  exists (mkworld (db_of env S id (db w)) (UNSCANNED_BASES w ++ [id])
                  (events_of env S id ++ trace w)).
  exists (events_of env S id).
  assert (Hrun : scan_base env S b w
                 = (Return None,
                    mkworld (db_of env S id (db w)) (UNSCANNED_BASES w ++ [id])
                            (events_of env S id ++ trace w))).
  { rewrite scan_base_eq. fold id. now rewrite Ho. }
  cbn [trace db UNSCANNED_BASES].
  assert (Hw : forall r, In (InsertData r) (statements (events_of env S id)) <->
                         In r (rows_of env S id)).
  { intros r. rewrite statements_events_of, Ho.
    cbn [is_scanned]. rewrite app_nil_r. split.
    - intros Hr. apply in_map_iff in Hr. destruct Hr as [r' [E Hr']].
      now inversion E; subst.
    - apply in_map. }
  split; [exact Hrun|]. split; [reflexivity|].
  split; [|split; [|split; [|split]]].
  - intros r Hr. apply Hw in Hr.
    destruct (rows_of_tagged env S id r Hr) as [H1 H2].
    split; [exact H1|]. split; [exact H2|].
    now apply rows_of_persisted.
  - intros r Hr Hsame. apply rows_of_kept_same; [now apply Hw|].
    intros r' Hr'. apply Hsame. now apply Hw.
  - assert (Hp : preserves (scan_step S (fun i => i = id))
                           (scan_base env S b))
      by (apply preserves_scan_base; reflexivity).
    destruct (Hp _ _ _ Hrun) as [_ _ HD _ _]. exact HD.
  - now rewrite bases_db_of, Ho.
  - reflexivity.
Qed.

(** ** The scan of the selected bases in closed form *)

Lemma Promise_map_scan_base_eq env scan_id l w :
  Promise_map (scan_base env scan_id) l w
  = (bases_result env l,
     mkworld (bases_db env scan_id l (db w))
             (UNSCANNED_BASES w ++ bases_skips env l)
             (bases_events env scan_id l ++ trace w)).
Proof.
  revert w. induction l as [|b l IH]; intros w.
  - cbn. unfold ret. destruct w. cbn. now rewrite app_nil_r.
  - cbn [Promise_map]. unfold bind at 1. rewrite scan_base_eq.
    unfold bases_db, bases_events, bases_skips.
    cbn [processed bases_result map rev flat_map fold_left].
    destruct (outcome_of env (Bases.id b)) eqn:Eo;
      cbn [result_of is_failed skips_of];
      try (unfold bind; rewrite IH; cbn [db UNSCANNED_BASES trace];
           unfold bases_db, bases_events, bases_skips;
           cbn [map rev flat_map fold_left];
           rewrite concat_app; cbn [concat];
           rewrite ?app_nil_r, <- ?app_assoc; cbn [app];
           destruct (bases_result env l); reflexivity).
    cbn. now rewrite !app_nil_r.
Qed.

Lemma scan_bases_eq env scan_id w :
  scan_bases env scan_id w
  = (bases_result env (select_bases scan_id (db w)),
     scanned_world env scan_id w).
Proof.
  unfold scan_bases, bind, db_all. rewrite Promise_map_scan_base_eq.
  reflexivity.
Qed.

Lemma deleteData_eq scan_id t f w :
  deleteData scan_id t f w
  = if fits scan_id t f (db w)
    then (Return tt,
          mkworld (delete_in t f (select_stale t f scan_id (db w)) (db w))
                  (UNSCANNED_BASES w)
                  (Sql (DeleteIn t (select_stale t f scan_id (db w)))
                     :: Sql (SelectStale t scan_id) :: trace w))
    else (Throw (Err too_many_variables),
          mkworld (db w) (UNSCANNED_BASES w)
                  (Sql (SelectStale t scan_id) :: trace w)).
Proof.
  unfold deleteData, fits, bind, db_all, bind_parameters. cbn [db].
  destruct (length (select_stale t f scan_id (db w)) <=? variable_limit (db w))%nat;
    reflexivity.
Qed.

(** The store after [deleteData], whether the DELETE was run or refused. *)
Lemma deleteData_db scan_id t f w :
  db (snd (deleteData scan_id t f w))
  = if fits scan_id t f (db w)
    then delete_in t f (select_stale t f scan_id (db w)) (db w)
    else db w.
Proof. rewrite deleteData_eq. now destruct (fits scan_id t f (db w)). Qed.

Lemma deleteData_returns scan_id t f w w' :
  deleteData scan_id t f w = (Return tt, w') ->
  fits scan_id t f (db w) = true
  /\ w' = mkworld (delete_in t f (select_stale t f scan_id (db w)) (db w))
                  (UNSCANNED_BASES w)
                  (Sql (DeleteIn t (select_stale t f scan_id (db w)))
                     :: Sql (SelectStale t scan_id) :: trace w).
Proof.
  rewrite deleteData_eq. destruct (fits scan_id t f (db w)); [|discriminate].
  intros H. now inversion H.
Qed.

Lemma deleteData_ends scan_id t f w c w' :
  deleteData scan_id t f w = (c, w') ->
  c = Return tt \/ c = Throw (Err too_many_variables).
Proof.
  rewrite deleteData_eq. destruct (fits scan_id t f (db w));
    intros H; inversion H; auto.
Qed.

(** [deleteData] makes no remote call and leaves the skip list alone. *)
Lemma deleteData_quiet scan_id t f w :
  exists evs,
    trace (snd (deleteData scan_id t f w)) = evs ++ trace w
    /\ calls evs = []
    /\ UNSCANNED_BASES (snd (deleteData scan_id t f w)) = UNSCANNED_BASES w.
Proof.
  rewrite deleteData_eq. destruct (fits scan_id t f (db w)); cbn [snd trace].
  - now exists [Sql (DeleteIn t (select_stale t f scan_id (db w)));
                Sql (SelectStale t scan_id)].
  - now exists [Sql (SelectStale t scan_id)].
Qed.

(** The same for the two deletes of [run]. *)
Lemma reconcile_quiet scan_id w c w' :
  (deleteData scan_id tbl_bases Bases.id ;;
   deleteData scan_id tbl_data Data.record_id) w = (c, w') ->
  exists evs,
    trace w' = evs ++ trace w
    /\ calls evs = []
    /\ UNSCANNED_BASES w' = UNSCANNED_BASES w.
Proof.
  unfold bind. intros H.
  destruct (deleteData_quiet scan_id tbl_bases Bases.id w)
    as [e1 [Ht1 [Hc1 Hu1]]].
  destruct (deleteData scan_id tbl_bases Bases.id w) as [[[]|t] w1];
    cbn [snd] in *.
  - destruct (deleteData_quiet scan_id tbl_data Data.record_id w1)
      as [e2 [Ht2 [Hc2 Hu2]]].
    rewrite H in Ht2, Hu2. cbn [snd] in *.
    exists (e2 ++ e1). split; [|split].
    + now rewrite Ht2, Ht1, app_assoc.
    + now rewrite calls_app, Hc1, Hc2.
    + now rewrite Hu2, Hu1.
  - inversion H; subst. now exists e1.
Qed.

(** The world after the two reconciliation deletes. *)
Lemma run_eq env scan_id delete_data w :
  run env scan_id delete_data w
  = match bases_result env (select_bases scan_id (db w)) with
    | Throw t => (Throw t, scanned_world env scan_id w)
    | Return _ =>
        if not_true delete_data
        then (Return tt, scanned_world env scan_id w)
        else (deleteData scan_id tbl_bases Bases.id ;;
              deleteData scan_id tbl_data Data.record_id)
               (scanned_world env scan_id w)
    end.
Proof.
  unfold run. unfold bind at 1. rewrite scan_bases_eq.
  destruct (bases_result env (select_bases scan_id (db w))); [|reflexivity].
  destruct (not_true delete_data); reflexivity.
Qed.

Lemma processed_incl env l b : In b (processed env l) -> In b l.
Proof.
  induction l as [|a l IH]; cbn; [auto|].
  intros [->|H]; [now left|].
  destruct (is_failed (outcome_of env (Bases.id a))); [destruct H|].
  right. now apply IH.
Qed.

Lemma bases_result_return env l xs :
  bases_result env l = Return xs ->
  processed env l = l
  /\ Forall (fun b => is_failed (outcome_of env (Bases.id b)) = false) l.
Proof.
  revert xs. induction l as [|b l IH]; intros xs H; cbn in *.
  - split; constructor.
  - destruct (outcome_of env (Bases.id b)) eqn:Eo; cbn in *;
      try discriminate;
      (destruct (bases_result env l) as [xs'|]; [|discriminate]);
      destruct (IH xs' eq_refl) as [H1 H2];
      (split; [now rewrite H1 | constructor; [now rewrite Eo | exact H2]]).
Qed.

Lemma bases_result_contained env l :
  Forall (fun b => is_failed (outcome_of env (Bases.id b)) = false) l ->
  exists xs, bases_result env l = Return xs.
Proof.
  induction 1 as [|b l Hb Hl [xs IH]]; cbn.
  - now exists [].
  - rewrite IH.
    destruct (outcome_of env (Bases.id b)); cbn in *;
      try discriminate; eauto.
Qed.

Lemma bases_result_failed env l :
  Exists (fun b => is_failed (outcome_of env (Bases.id b)) = true) l ->
  exists t, bases_result env l = Throw t.
Proof.
  induction 1 as [b l Hb|b l Hl [t IH]]; cbn.
  - destruct (outcome_of env (Bases.id b)); cbn in *; try discriminate.
    eauto.
  - rewrite IH. destruct (result_of (outcome_of env (Bases.id b))); eauto.
Qed.

Lemma calls_bases_events env scan_id l :
  calls (bases_events env scan_id l)
  = flat_map (fun b => calls_of env (Bases.id b)) (processed env l).
Proof.
  unfold bases_events. rewrite calls_concat.
  induction (processed env l) as [|b bs IH]; cbn; [reflexivity|].
  now rewrite IH, calls_events_of.
Qed.

Lemma calls_of_base env base_id c :
  In c (calls_of env base_id) -> call_base c = base_id.
Proof.
  unfold calls_of. intros [<-|H]; [reflexivity|].
  destruct (add_collaborator env base_id); [|destruct H].
  destruct H as [<-|H]; [reflexivity|].
  destruct (get_tables env base_id) as [tables|]; [|destruct H].
  apply in_app_or in H. destruct H as [H|H].
  - apply in_map_iff in H. now destruct H as [t [<- _]].
  - destruct (tables_result env base_id tables) as [[|n l]|]; cbn in H;
      try contradiction.
    now destruct H as [<-|[]].
Qed.

Lemma calls_of_grant env base_id :
  In (AddCollaborator base_id) (calls_of env base_id).
Proof. now left. Qed.

Lemma key_injective {A} (f : A -> string) (l : list A) a b :
  NoDup (map f l) -> In a l -> In b l -> f a = f b -> a = b.
Proof.
  induction l as [|x l IH]; cbn; intros Hnd Ha Hb E; [destruct Ha|].
  inversion Hnd as [|? ? Hx Hl]; subst.
  destruct Ha as [->|Ha], Hb as [->|Hb]; auto.
  - exfalso. apply Hx. rewrite E. now apply in_map.
  - exfalso. apply Hx. rewrite <- E. now apply in_map.
Qed.

(** ** Claims about the run *)

Lemma run_calls env scan_id delete_data w c w' :
  run env scan_id delete_data w = (c, w') ->
  exists evs,
    trace w' = evs ++ trace w
    /\ calls evs
       = flat_map (fun b => calls_of env (Bases.id b))
                  (processed env (select_bases scan_id (db w)))
    /\ (c = Return tt ->
        processed env (select_bases scan_id (db w))
        = select_bases scan_id (db w)).
Proof.
  intros H. rewrite run_eq in H.
  set (l := select_bases scan_id (db w)) in *.
  destruct (bases_result env l) as [xs|t] eqn:Er.
  - destruct (bases_result_return env l xs Er) as [Hp _].
    destruct (not_true delete_data).
    + inversion H; subst; clear H.
      exists (bases_events env scan_id l ++ [Sql (SelectBases scan_id)]).
      unfold scanned_world. cbn [trace]. fold l. split; [|split].
      * now rewrite <- app_assoc.
      * read_trace. apply calls_bases_events.
      * auto.
    + destruct (reconcile_quiet _ _ _ _ H) as [e [Ht [Hc _]]].
      exists (e ++ bases_events env scan_id l
                ++ [Sql (SelectBases scan_id)]).
      rewrite Ht. unfold scanned_world. cbn [trace]. fold l.
      split; [|split].
      * now rewrite <- !app_assoc.
      * rewrite calls_app, Hc, app_nil_r. read_trace.
        apply calls_bases_events.
      * auto.
  - inversion H; subst; clear H.
    exists (bases_events env scan_id l ++ [Sql (SelectBases scan_id)]).
    unfold scanned_world. cbn [trace]. fold l. split; [|split].
    + now rewrite <- app_assoc.
    + read_trace. apply calls_bases_events.
    + discriminate.
Qed.

(** C2, as amended.  A run with scan identifier S selects exactly the
    rows of [bases] whose scan identifier differs from S or is NULL, and
    its remote calls are all about bases it selected: no remote call is
    made for a base already tagged S.  When the run returns, every base it
    selected was processed: the grant of each was requested. *)
Theorem run_scans_selected_bases :
  forall (env : remote) (scan_id : string) (delete_data : js_value)
         (w : world) (c : completion unit) (w' : world),
    run env scan_id delete_data w = (c, w') ->
    NoDup (map Bases.id (bases (db w))) ->
    let selected :=
      filter (fun b => stale scan_id (Bases.scan_id b)) (bases (db w)) in
    exists evs,
      trace w' = evs ++ trace w
      /\ (forall call, In call (calls evs) ->
            exists b, In b selected /\ call_base call = Bases.id b)
      /\ (forall b, In b (bases (db w)) -> Bases.scan_id b = Some scan_id ->
            forall call, In call (calls evs) -> call_base call <> Bases.id b)
      /\ (c = Return tt ->
            forall b, In b selected ->
              In (AddCollaborator (Bases.id b)) (calls evs)).
Proof.
  intros env S dd w c w' H Hnd selected.
  destruct (run_calls env S dd w c w' H) as [evs [Ht [Hc Hall]]].
  change (select_bases S (db w)) with selected in Hc, Hall.
  assert (Honly : forall call, In call (calls evs) ->
            exists b, In b selected /\ call_base call = Bases.id b).
  { intros call Hin. rewrite Hc in Hin. apply in_flat_map in Hin.
    destruct Hin as [b [Hb Hin]]. exists b. split.
    - now apply processed_incl in Hb.
    - now apply calls_of_base in Hin. }
  exists evs. repeat split; auto.
  - intros b Hb Htag call Hin E.
    destruct (Honly call Hin) as [b' [Hb' E']].
    apply filter_In in Hb'. destruct Hb' as [Hb' Hs].
    assert (b' = b)
      by (apply (key_injective Bases.id (bases (db w))); congruence).
    subst b'. rewrite Htag in Hs. cbn in Hs.
    now rewrite String.eqb_refl in Hs.
  - intros Hr b Hb. rewrite Hc, (Hall Hr). apply in_flat_map.
    exists b. split; [exact Hb | apply calls_of_grant].
Qed.

(** C5, as amended.  A failure while scanning the tables of a base is
    contained to the base, which goes to the skip list; so are a
    not-found or forbidden failure of its grant and a forbidden failure of
    its table listing or of the removal of the collaborator.  When the
    scan of no selected base ends with an exception the scan of the bases
    completes, with the skip list extended by the bases skipped, in some
    order; the run then returns when deletion is not requested, and
    otherwise returns unless SQLite refuses a DELETE of the reconciliation
    for the number of its parameters.  An exception that leaves the scan
    of a base (any other failure of the grant, of the listing or of the
    removal) makes the run fail. *)
Theorem contained_failures_do_not_fail_run :
  forall (env : remote) (scan_id : string) (delete_data : js_value) (w : world),
    let selected := select_bases scan_id (db w) in
    (forall b u tables,
        add_collaborator env (Bases.id b) = Fulfilled u ->
        get_tables env (Bases.id b) = Fulfilled tables ->
        Exists (unreadable env (Bases.id b)) tables ->
        forall w0, exists w1,
          scan_base env scan_id b w0 = (Return None, w1)
          /\ UNSCANNED_BASES w1 = UNSCANNED_BASES w0 ++ [Bases.id b])
    /\ (Forall (fun b => is_failed (outcome_of env (Bases.id b)) = false)
               selected ->
        exists xs w1 skipped,
          scan_bases env scan_id w = (Return xs, w1)
          /\ UNSCANNED_BASES w1 = UNSCANNED_BASES w ++ skipped
          /\ Permutation skipped
               (flat_map (fun b => skips_of (Bases.id b)
                                            (outcome_of env (Bases.id b)))
                         selected)
          /\ (not_true delete_data = true ->
              run env scan_id delete_data w = (Return tt, w1))
          /\ (forall c w',
                run env scan_id delete_data w = (c, w') ->
                UNSCANNED_BASES w' = UNSCANNED_BASES w1
                /\ (c = Return tt
                    \/ (not_true delete_data = false
                        /\ c = Throw (Err too_many_variables)))))
    /\ (Exists (fun b => is_failed (outcome_of env (Bases.id b)) = true)
               selected ->
        exists t w', run env scan_id delete_data w = (Throw t, w')).
Proof.
  intros env S dd w selected. split; [|split].
  - intros b u tables Hadd Hget Hex w0.
    destruct (outcome_of_table_failed env _ u tables Hadd Hget Hex) as [Ho _].
    eexists. rewrite scan_base_eq, Ho. cbn [result_of skips_of].
    split; reflexivity.
  - intros Hok. destruct (bases_result_contained env selected Hok) as [xs Hr].
    destruct (bases_result_return env selected xs Hr) as [Hp _].
    exists xs, (scanned_world env S w), (bases_skips env selected).
    split; [|split; [|split; [|split]]].
    + rewrite scan_bases_eq. fold selected. now rewrite Hr.
    + reflexivity.
    + unfold bases_skips. now rewrite Hp.
    + intros Hflag. rewrite run_eq. fold selected. now rewrite Hr, Hflag.
    + intros c w' H. rewrite run_eq in H. fold selected in H.
      rewrite Hr in H. destruct (not_true dd) eqn:Hflag.
      * inversion H; subst. split; [reflexivity | now left].
      * destruct (reconcile_quiet _ _ _ _ H) as [e [_ [_ Hu]]].
        split; [exact Hu|].
        unfold bind in H.
        destruct (deleteData S tbl_bases Bases.id (scanned_world env S w))
          as [[[]|t] w1] eqn:E1.
        -- destruct (deleteData_ends _ _ _ _ _ _ H) as [->| ->];
             [now left | now right].
        -- destruct (deleteData_ends _ _ _ _ _ _ E1) as [E|E];
             [discriminate|].
           inversion H; subst. now right.
  - intros Hex. destruct (bases_result_failed env selected Hex) as [t Hr].
    rewrite run_eq. fold selected. rewrite Hr. eauto.
Qed.

Lemma in_statements s tr : In s (statements tr) <-> In (Sql s) tr.
Proof.
  unfold statements. rewrite in_flat_map. split.
  - intros [e [He Hs]]. apply in_rev in He.
    destruct e; cbn in Hs; try contradiction.
    destruct Hs as [->|[]]. exact He.
  - intros H. exists (Sql s). split; [now apply in_rev in H | now left].
Qed.

Lemma scanned_world_step env scan_id w :
  scan_step scan_id (fun _ => True)
            (mkworld (db w) (UNSCANNED_BASES w)
                     (Sql (SelectBases scan_id) :: trace w))
            (scanned_world env scan_id w).
Proof.
  assert (H : preserves (scan_step scan_id (fun _ => True))
                (Promise_map (scan_base env scan_id)
                             (select_bases scan_id (db w)))).
  { apply step_Promise_map. intros b _. now apply preserves_scan_base. }
  eapply H. rewrite Promise_map_scan_base_eq. reflexivity.
Qed.

(** C8.  When the deletion flag is anything but [true], the run ends as
    the scan ended: it issues no reconciliation statement, every row of
    [bases] is still there, as it was or marked by this run's scan, and
    every row of [data] is still there, as it was or rewritten by this
    run's scan under the same record identifier, whatever the scan
    identifiers the rows carry. *)
Theorem no_deletion_without_flag :
  forall (env : remote) (scan_id : string) (delete_data : js_value)
         (w : world) (c : completion unit) (w' : world),
    not_true delete_data = true ->
    run env scan_id delete_data w = (c, w') ->
    w' = snd (scan_bases env scan_id w)
    /\ exists evs,
         trace w' = evs ++ trace w
         /\ (forall t s, ~ In (SelectStale t s) (statements evs))
         /\ (forall t ids, ~ In (DeleteIn t ids) (statements evs))
         /\ Forall2 (fun b b' => b' = b \/ exists t, b' = marked t scan_id b)
                    (bases (db w)) (bases (db w'))
         /\ (forall r, In r (data (db w)) ->
               In r (data (db w')) \/
               exists r', In r' (data (db w'))
                          /\ Data.record_id r' = Data.record_id r
                          /\ Data.scan_id r' = Some scan_id).
Proof.
  intros env S dd w c w' Hflag H. rewrite run_eq, Hflag in H.
  assert (Hw : w' = scanned_world env S w)
    by (destruct (bases_result env (select_bases S (db w)));
        now inversion H).
  subst w'. clear H. split; [now rewrite scan_bases_eq|].
  destruct (scanned_world_step env S w) as [_ HB HD [evs [HT HE]] _].
  cbn [db trace] in *.
  assert (Hs : forall s, In s (statements (evs ++ [Sql (SelectBases S)])) ->
                 match s with
                 | SelectStale _ _ | DeleteIn _ _ => False
                 | _ => True
                 end).
  { intros s Hin. apply in_statements in Hin. apply in_app_or in Hin.
    destruct Hin as [Hin|[Hin|[]]].
    - rewrite Forall_forall in HE. specialize (HE _ Hin).
      destruct s; cbn in HE; tauto.
    - now inversion Hin. }
  exists (evs ++ [Sql (SelectBases S)]). repeat split.
  - now rewrite HT, <- app_assoc.
  - intros t s Hin. exact (Hs _ Hin).
  - intros t ids Hin. exact (Hs _ Hin).
  - eapply Forall2_impl; [|exact HB].
    intros a b [->|[_ Hm]]; [now left | now right].
  - exact HD.
Qed.

(** ** Reconciliation *)

Lemma sql_in_selected {A} (f : A -> string) (p : A -> bool) (l : list A) a :
  NoDup (map f l) -> In a l ->
  sql_in (f a) (map f (filter p l)) = p a.
Proof.
  intros Hnd Ha. unfold sql_in.
  destruct (p a) eqn:Ep.
  - apply existsb_exists. exists (f a). split; [|apply String.eqb_refl].
    apply in_map, filter_In. now split.
  - apply not_true_is_false. intros H. apply existsb_exists in H.
    destruct H as [x [Hx E]]. apply String.eqb_eq in E. subst x.
    apply in_map_iff in Hx. destruct Hx as [b [E Hb]].
    apply filter_In in Hb. destruct Hb as [Hb Hp].
    assert (b = a) by (apply (key_injective f l); auto).
    congruence.
Qed.

(** On a store whose keys are keys, [deleteData] removes from the table
    it is given exactly the rows whose scan identifier differs from the
    current one or is NULL, when its DELETE fits the limit of the
    connection. *)
Lemma bases_delete_in f ids d :
  bases (delete_in tbl_bases f ids d)
  = filter (fun r => negb (sql_in (f r) ids)) (bases d).
Proof. unfold delete_in. destruct (foreign_keys d); reflexivity. Qed.

Lemma deleteData_bases_exact scan_id w :
  fits scan_id tbl_bases Bases.id (db w) = true ->
  NoDup (map Bases.id (bases (db w))) ->
  bases (db (snd (deleteData scan_id tbl_bases Bases.id w)))
  = filter (fun b => negb (stale scan_id (Bases.scan_id b))) (bases (db w)).
Proof.
  intros Hfit Hnd. rewrite deleteData_db, Hfit.
  rewrite bases_delete_in. unfold select_stale. cbn [rows tag_of].
  apply filter_ext_in. intros b Hb.
  now rewrite (sql_in_selected Bases.id _ (bases (db w)) b Hnd Hb).
Qed.

Lemma deleteData_data_exact scan_id w :
  fits scan_id tbl_data Data.record_id (db w) = true ->
  NoDup (map Data.record_id (data (db w))) ->
  data (db (snd (deleteData scan_id tbl_data Data.record_id w)))
  = filter (fun r => negb (stale scan_id (Data.scan_id r))) (data (db w))
  /\ bases (db (snd (deleteData scan_id tbl_data Data.record_id w)))
     = bases (db w).
Proof.
  intros Hfit Hnd. rewrite deleteData_db, Hfit.
  unfold delete_in, select_stale. cbn [rows tag_of set_data data bases].
  split; [|reflexivity]. apply filter_ext_in. intros r Hr.
  now rewrite (sql_in_selected Data.record_id _ (data (db w)) r Hnd Hr).
Qed.

(** Where foreign keys are enforced, deleting the stale bases also
    removes every [data] row that references one of them. *)
Lemma deleteData_bases_cascade scan_id w r :
  fits scan_id tbl_bases Bases.id (db w) = true ->
  foreign_keys (db w) = true ->
  NoDup (map Bases.id (bases (db w))) ->
  In r (data (db (snd (deleteData scan_id tbl_bases Bases.id w)))) ->
  forall b, In b (bases (db w)) -> Bases.id b = Data.base_id r ->
            Bases.scan_id b = Some scan_id.
Proof.
  intros Hfit Hfk Hnd Hr b Hb Hid. rewrite deleteData_db, Hfit in Hr.
  unfold delete_in, select_stale in Hr.
  cbn [rows tag_of] in Hr. rewrite Hfk in Hr. cbn [set_data data] in Hr.
  apply filter_In in Hr. destruct Hr as [_ Hr].
  apply negb_true_iff in Hr.
  destruct (stale scan_id (Bases.scan_id b)) eqn:Es.
  - exfalso. apply not_true_iff_false in Hr. apply Hr.
    apply existsb_exists. exists (Bases.id b).
    split; [|rewrite Hid; apply String.eqb_refl].
    apply in_map, filter_In. split; [exact Hb|].
    now rewrite (sql_in_selected Bases.id _ (bases (db w)) b Hnd Hb).
  - unfold stale in Es. destruct (Bases.scan_id b) as [s|]; [|discriminate].
    apply negb_false_iff, String.eqb_eq in Es. now subst.
Qed.

(** ** The claims on the sample account *)

Ltac distinct_keys :=
  repeat (constructor;
          [cbn; intros H; repeat (destruct H as [H|H]; [discriminate|]);
           exact H|]);
  constructor.

Lemma scan_id_set_only_after_all_tables_witness :
  let env := sample_env in
  let scan_id := "S" in
  let b := sample_appC in
  let w := sample_world false in
  exists c w',
    scan_base env scan_id b w = (c, w')
    /\ exists evs,
      trace w' = evs ++ trace w
      /\ ((exists tables before,
             get_tables env (Bases.id b) = Fulfilled tables
             /\ Forall (readable env (Bases.id b)) tables
             /\ Forall (written env scan_id (Bases.id b) (db w')) tables
             /\ statements evs
                = before
                  ++ [UpdateBase (now env (Bases.id b)) scan_id (Bases.id b)]
             /\ (forall s, In s before -> exists r, s = InsertData r)
             /\ (forall t records rec,
                   In t tables ->
                   select_all env (Bases.id b) (t_name t) = Fulfilled records ->
                   In rec records ->
                   In (InsertData (data_row (Bases.id b) t scan_id rec))
                      before)
             /\ bases (db w')
                = bases (update_base_scan (now env (Bases.id b)) scan_id
                                          (Bases.id b) (db w))
             /\ c = Return None)
          \/ (bases (db w') = bases (db w)
              /\ forall t s i, ~ In (UpdateBase t s i) (statements evs)))
      /\ (forall u tables,
             add_collaborator env (Bases.id b) = Fulfilled u ->
             get_tables env (Bases.id b) = Fulfilled tables ->
             Exists (unreadable env (Bases.id b)) tables ->
             c = Return None
             /\ UNSCANNED_BASES w' = UNSCANNED_BASES w ++ [Bases.id b]
             /\ bases (db w') = bases (db w)
             /\ ~ In (RemoveCollaborator (Bases.id b)) (calls evs)
             /\ forall t s i, ~ In (UpdateBase t s i) (statements evs)).
Proof.
  intros env scan_id b w.
  exists (fst (scan_base env scan_id b w)), (snd (scan_base env scan_id b w)).
  split; [vm_compute; reflexivity|].
  exact (scan_id_set_only_after_all_tables env scan_id b w _ _
           (surjective_pairing _)).
Defined.

Lemma written_records_survive_table_failure_witness :
  let env := sample_env in
  let scan_id := "S" in
  let b := sample_appC in
  let w := sample_world false in
  let tables := [mktable "tbl3" "Orders"; mktable "tbl4" "Items"] in
  add_collaborator env (Bases.id b) = Fulfilled tt
  /\ get_tables env (Bases.id b) = Fulfilled tables
  /\ Exists (unreadable env (Bases.id b)) tables
  /\ exists w' evs,
      scan_base env scan_id b w = (Return None, w')
      /\ trace w' = evs ++ trace w
      /\ (forall r, In (InsertData r) (statements evs) ->
            Data.base_id r = Bases.id b
            /\ Data.scan_id r = Some scan_id
            /\ persisted scan_id (Bases.id b) (Data.record_id r) (db w'))
      /\ (forall r, In (InsertData r) (statements evs) ->
            (forall r', In (InsertData r') (statements evs) ->
                        Data.record_id r' = Data.record_id r -> r' = r) ->
            In r (data (db w')))
      /\ (forall r, In r (data (db w)) ->
            In r (data (db w')) \/
            exists r', In r' (data (db w'))
                       /\ Data.record_id r' = Data.record_id r
                       /\ Data.scan_id r' = Some scan_id)
      /\ bases (db w') = bases (db w)
      /\ UNSCANNED_BASES w' = UNSCANNED_BASES w ++ [Bases.id b].
Proof.
  intros env scan_id b w tables.
  assert (H1 : add_collaborator env (Bases.id b) = Fulfilled tt)
    by reflexivity.
  assert (H2 : get_tables env (Bases.id b) = Fulfilled tables)
    by reflexivity.
  assert (H3 : Exists (unreadable env (Bases.id b)) tables).
  { apply Exists_cons_tl, Exists_cons_hd. now exists timed_out. }
  repeat (split; [assumption|]).
  exact (written_records_survive_table_failure env scan_id b w tt tables
           H1 H2 H3).
Defined.

Lemma run_scans_selected_bases_witness :
  let env := sample_env in
  let scan_id := "S" in
  let delete_data := JsBool false in
  let w := sample_world false in
  let selected :=
    filter (fun b => stale scan_id (Bases.scan_id b)) (bases (db w)) in
  NoDup (map Bases.id (bases (db w)))
  /\ exists c w',
      run env scan_id delete_data w = (c, w')
      /\ exists evs,
        trace w' = evs ++ trace w
        /\ (forall call, In call (calls evs) ->
              exists b, In b selected /\ call_base call = Bases.id b)
        /\ (forall b, In b (bases (db w)) -> Bases.scan_id b = Some scan_id ->
              forall call, In call (calls evs) -> call_base call <> Bases.id b)
        /\ (c = Return tt ->
              forall b, In b selected ->
                In (AddCollaborator (Bases.id b)) (calls evs)).
Proof.
  intros env scan_id delete_data w selected.
  assert (Hnd : NoDup (map Bases.id (bases (db w)))) by distinct_keys.
  split; [exact Hnd|].
  exists (fst (run env scan_id delete_data w)),
         (snd (run env scan_id delete_data w)).
  split; [vm_compute; reflexivity|].
  exact (run_scans_selected_bases env scan_id delete_data w _ _
           (surjective_pairing _) Hnd).
Defined.

(** C2, the claim as stated fails: on an account where every grant is
    refused with status 500, three bases are selected and the run fails
    with the refusal; no call is ever made for the third base, which is
    not processed although it was selected. *)
Lemma run_stops_at_first_thrown_scan :
  let w := mkworld (mkdb false 999 unscanned_bases []) [] [] in
  let r := run refusing_env "S" JsUndefined w in
  select_bases "S" (db w) = unscanned_bases
  /\ fst r = Throw (Err (mkerr None (Some (mkresp 500 None))))
  /\ ~ In (AddCollaborator "appF") (calls (trace (snd r))).
Proof.
  cbv zeta. split; [vm_compute; reflexivity|].
  split; [vm_compute; reflexivity|].
  vm_compute. intros [H|[]]. discriminate.
Qed.

Lemma contained_failures_do_not_fail_run_witness :
  let env := sample_env in
  let scan_id := "S" in
  let w := sample_world false in
  let selected := select_bases scan_id (db w) in
  Forall (fun b => is_failed (outcome_of env (Bases.id b)) = false) selected
  /\ exists xs w1 skipped,
        scan_bases env scan_id w = (Return xs, w1)
        /\ UNSCANNED_BASES w1 = UNSCANNED_BASES w ++ skipped
        /\ Permutation skipped
             (flat_map (fun b => skips_of (Bases.id b)
                                          (outcome_of env (Bases.id b)))
                       selected)
        /\ (not_true (JsBool false) = true ->
            run env scan_id (JsBool false) w = (Return tt, w1))
        /\ (forall c w',
              run env scan_id (JsBool false) w = (c, w') ->
              UNSCANNED_BASES w' = UNSCANNED_BASES w1
              /\ (c = Return tt
                  \/ (not_true (JsBool false) = false
                      /\ c = Throw (Err too_many_variables)))).
Proof.
  intros env scan_id w selected.
  assert (H : Forall (fun b => is_failed (outcome_of env (Bases.id b)) = false)
                     selected)
    by (repeat constructor).
  split; [exact H|].
  exact (proj1 (proj2 (contained_failures_do_not_fail_run
                         env scan_id (JsBool false) w)) H).
Defined.

(** C5, the claim as stated fails: a grant refused with status 500 is
    rethrown by the scan of the base and the run fails with it. *)
Lemma grant_error_fails_run :
  let w := mkworld (mkdb false 999 [Bases.mk "appD" None None None None None] [])
                   [] [] in
  fst (run sample_env "S" (JsBool false) w)
  = Throw (Err (mkerr None (Some (mkresp 500 None)))).
Proof. vm_compute. reflexivity. Qed.

Lemma no_deletion_without_flag_witness :
  let env := sample_env in
  let scan_id := "S" in
  let delete_data := JsString "true" in
  let w := sample_world false in
  not_true delete_data = true
  /\ exists c w',
      run env scan_id delete_data w = (c, w')
      /\ w' = snd (scan_bases env scan_id w)
      /\ exists evs,
           trace w' = evs ++ trace w
           /\ (forall t s, ~ In (SelectStale t s) (statements evs))
           /\ (forall t ids, ~ In (DeleteIn t ids) (statements evs))
           /\ Forall2 (fun b b' => b' = b \/ exists t, b' = marked t scan_id b)
                      (bases (db w)) (bases (db w'))
           /\ (forall r, In r (data (db w)) ->
                 In r (data (db w')) \/
                 exists r', In r' (data (db w'))
                            /\ Data.record_id r' = Data.record_id r
                            /\ Data.scan_id r' = Some scan_id).
Proof.
  intros env scan_id delete_data w.
  split; [reflexivity|].
  exists (fst (run env scan_id delete_data w)),
         (snd (run env scan_id delete_data w)).
  split; [vm_compute; reflexivity|].
  exact (no_deletion_without_flag env scan_id delete_data w _ _
           eq_refl (surjective_pairing _)).
Defined.

(** C3, on the code.  Reconciliation removes appB and appC from [bases]
    and keeps appA.  The record rec3 of appC, written by this run before
    the table Items of appC failed, carries the current scan identifier:
    on a connection without foreign-key enforcement, which is what the
    scripts open, the row outlives its base; only where foreign keys are
    enforced does the delete of the base cascade to it. *)
Theorem reconciliation_leaves_rows_of_deleted_base :
  let rec3 := Data.mk "appC" "tbl3" "rec3" (Some "2021-03-02T08:00:00.000Z")
                      (Some "{}") (Some "S") in
  let after fk := db (snd (run sample_env "S" (JsBool true) (sample_world fk))) in
  map Bases.id (bases (after false)) = ["appA"]
  /\ In rec3 (data (after false))
  /\ map Bases.id (bases (after true)) = ["appA"]
  /\ ~ In rec3 (data (after true)).
Proof.
  cbv zeta. split; [vm_compute; reflexivity|].
  split; [vm_compute; right; now left|].
  split; [vm_compute; reflexivity|].
  vm_compute. intros [H|[]]. discriminate.
Qed.

(** * Further properties of the code *)

(** ** [requestWithRetry] from any retry count *)

Lemma sleeps_rounds id k :
  sleeps (concat (repeat (timed_out_attempt id) k)) = k.
Proof. induction k as [|k IH]; cbn; [reflexivity | now rewrite <- IH at 2]. Qed.

Lemma attempts_rounds id k :
  attempts (concat (repeat (timed_out_attempt id) k)) = k.
Proof. induction k as [|k IH]; cbn; [reflexivity | now rewrite <- IH at 2]. Qed.

(** X1.  Started with retry count [n], [requestWithRetry] completes as the
    promise settled; a timed-out request is slept on and awaited again
    [5 - n] times (not at all from [n >= 5]), any other request is awaited
    once; the too-many-retries warning is printed for a timeout in every
    case and for another failure from [n >= 5]. *)
Theorem requestWithRetry_from_count :
  forall (A : Type) (request : settlement A) (request_id : string)
         (n : nat) (w : world),
  exists evs,
    requestWithRetry request request_id (Some n) w
    = (settled request, log evs w)
    /\ sleeps evs = match request with
                    | Fulfilled _ => 0
                    | Rejected err => if is_ETIMEDOUT err then 5 - n else 0
                    end
    /\ attempts evs = S (sleeps evs)
    /\ (In (WarnTooManyRetries request_id) evs <->
        exists err, request = Rejected err
                    /\ (is_ETIMEDOUT err = true \/ 5 <= n)).
Proof.
  intros A request id n w. unfold requestWithRetry.
  destruct request as [r|err].
  - exists [Await id]. rewrite requestWithRetry_rec_fulfilled.
    repeat split; try reflexivity.
    + intros [H|[]]. discriminate.
    + intros [err [H _]]. discriminate.
  - destruct (is_ETIMEDOUT err) eqn:Hc.
    + eexists. rewrite (requestWithRetry_rec_timeout err id Hc _ n w eq_refl).
      split; [reflexivity|].
      set (l := concat (repeat (timed_out_attempt id) (5 - n))).
      assert (Hs : sleeps (WarnTooManyRetries id :: Await id :: l) = sleeps l)
        by reflexivity.
      assert (Ha : attempts (WarnTooManyRetries id :: Await id :: l)
                   = S (attempts l)) by reflexivity.
      rewrite Hs, Ha. unfold l. rewrite sleeps_rounds, attempts_rounds.
      split; [reflexivity|]. split; [reflexivity|].
      split; [intros _; exists err; auto | intros _; now left].
    + rewrite requestWithRetry_rec_rejected, Hc. cbn [andb].
      destruct (5 <=? n)%nat eqn:Hn.
      * eexists. split; [reflexivity|]. repeat split; try reflexivity.
        -- intros _. exists err. split; [reflexivity|]. right.
           now apply Nat.leb_le.
        -- intros _. now left.
      * eexists. split; [reflexivity|]. repeat split; try reflexivity.
        -- intros [H|[]]. discriminate.
        -- intros [err' [E [H|H]]]; inversion E; subst.
           ++ congruence.
           ++ apply Nat.leb_gt in Hn. lia.
Qed.

(** ** [deleteData] *)

Lemma rows_delete_in t f ids d :
  rows t (delete_in t f ids d)
  = filter (fun r => negb (sql_in (f r) ids)) (rows t d).
Proof. destruct t; [apply bases_delete_in | reflexivity]. Qed.

Lemma stale_false scan_id tag : stale scan_id tag = false -> tag = Some scan_id.
Proof.
  destruct tag as [s|]; cbn; [|discriminate].
  intros H. apply negb_false_iff, String.eqb_eq in H. now subst.
Qed.

Lemma filter_all {A} (p : A -> bool) (l : list A) :
  (forall a, In a l -> p a = true) -> filter p l = l.
Proof.
  induction l as [|a l IH]; intros H; cbn; [reflexivity|].
  rewrite (H a (or_introl eq_refl)), IH; [reflexivity|].
  intros b Hb. apply H. now right.
Qed.

Lemma filter_none {A} (p : A -> bool) (l : list A) :
  (forall a, In a l -> p a = false) -> filter p l = [].
Proof.
  induction l as [|a l IH]; intros H; cbn; [reflexivity|].
  rewrite (H a (or_introl eq_refl)). apply IH.
  intros b Hb. apply H. now right.
Qed.

Lemma delete_stale_tagged scan_id t f d :
  all_tagged scan_id t (delete_in t f (select_stale t f scan_id d) d).
Proof.
  intros r Hr. rewrite rows_delete_in in Hr.
  apply filter_In in Hr. destruct Hr as [Hr Hn].
  apply stale_false. destruct (stale scan_id (tag_of t r)) eqn:Es;
    [|reflexivity].
  apply negb_true_iff, not_true_iff_false in Hn. exfalso. apply Hn.
  apply existsb_exists. exists (f r). split; [|apply String.eqb_refl].
  unfold select_stale. apply in_map, filter_In. now split.
Qed.

Lemma select_stale_tagged scan_id t f d :
  all_tagged scan_id t d -> select_stale t f scan_id d = [].
Proof.
  intros H. unfold select_stale. rewrite filter_none; [reflexivity|].
  intros r Hr. rewrite (H r Hr). cbn. now rewrite String.eqb_refl.
Qed.

Lemma delete_in_nil t f d : delete_in t f [] d = d.
Proof.
  destruct d as [fk lim bs ds]. destruct t; cbn.
  - rewrite (filter_all (fun _ => true)) by reflexivity.
    rewrite (filter_none (fun _ => false)) by reflexivity.
    destruct fk; cbn; [|reflexivity].
    unfold set_data, set_bases. cbn.
    now rewrite (filter_all (fun _ => true)) by reflexivity.
  - unfold set_data. cbn.
    now rewrite (filter_all (fun _ => true)) by reflexivity.
Qed.

Lemma fits_le scan_id t f d :
  fits scan_id t f d = true
  <-> List.length (select_stale t f scan_id d) <= variable_limit d.
Proof. unfold fits. apply Nat.leb_le. Qed.

Lemma fits_gt scan_id t f d :
  fits scan_id t f d = false
  <-> variable_limit d < List.length (select_stale t f scan_id d).
Proof. unfold fits. apply Nat.leb_gt. Qed.

(** X2.  [deleteData] on a table, whatever the column it is given,
    returns when the rows it selects are no more than the host parameters
    the connection allows, and every row left in the table then carries
    the current scan identifier.  When they are more, SQLite refuses the
    DELETE: [deleteData] throws and the store is as it was, stale rows
    included. *)
Theorem deleteData_leaves_current_rows :
  forall (scan_id : string) (t : table_name) (f : row_of t -> string)
         (w : world),
    (List.length (select_stale t f scan_id (db w)) <= variable_limit (db w) ->
     fst (deleteData scan_id t f w) = Return tt
     /\ all_tagged scan_id t (db (snd (deleteData scan_id t f w))))
    /\ (variable_limit (db w) < List.length (select_stale t f scan_id (db w)) ->
        fst (deleteData scan_id t f w) = Throw (Err too_many_variables)
        /\ db (snd (deleteData scan_id t f w)) = db w).
Proof.
  intros S t f w. split; intros H.
  - apply fits_le in H. rewrite deleteData_eq, H. cbn [fst snd db].
    split; [reflexivity | apply delete_stale_tagged].
  - apply fits_gt in H. rewrite deleteData_eq, H. now split.
Qed.

Lemma deleteData_leaves_current_rows_witness :
  let w := sample_world false in
  fst (deleteData "S" tbl_bases Bases.id w) = Return tt
  /\ all_tagged "S" tbl_bases (db (snd (deleteData "S" tbl_bases Bases.id w))).
Proof.
  apply (proj1 (deleteData_leaves_current_rows "S" tbl_bases Bases.id
                  (sample_world false))).
  vm_compute. repeat constructor.
Defined.

(** X3.  When the column given to [deleteData] is a key of the table (no
    two rows share its value) and the rows it selects are no more than the
    host parameters the connection allows, the rows deleted are exactly
    those whose scan identifier differs from the current one or is NULL:
    the table keeps its other rows, in order. *)
Theorem deleteData_exact_on_key :
  forall (scan_id : string) (t : table_name) (f : row_of t -> string)
         (w : world),
    NoDup (map f (rows t (db w))) ->
    List.length (select_stale t f scan_id (db w)) <= variable_limit (db w) ->
    rows t (db (snd (deleteData scan_id t f w)))
    = filter (fun r => negb (stale scan_id (tag_of t r))) (rows t (db w)).
Proof.
  intros S t f w Hnd Hfit. apply fits_le in Hfit.
  rewrite deleteData_db, Hfit.
  rewrite rows_delete_in. unfold select_stale.
  apply filter_ext_in. intros r Hr.
  now rewrite (sql_in_selected f _ (rows t (db w)) r Hnd Hr).
Qed.

Lemma deleteData_exact_on_key_witness :
  let w := sample_world false in
  NoDup (map Data.record_id (rows tbl_data (db w)))
  /\ List.length (select_stale tbl_data Data.record_id "S" (db w))
     <= variable_limit (db w)
  /\ rows tbl_data (db (snd (deleteData "S" tbl_data Data.record_id w)))
     = filter (fun r => negb (stale "S" (tag_of tbl_data r)))
              (rows tbl_data (db w)).
Proof.
  intros w.
  assert (H : NoDup (map Data.record_id (rows tbl_data (db w))))
    by distinct_keys.
  assert (H' : List.length (select_stale tbl_data Data.record_id "S" (db w))
               <= variable_limit (db w))
    by (vm_compute; repeat constructor).
  split; [exact H|]. split; [exact H'|].
  exact (deleteData_exact_on_key "S" tbl_data Data.record_id w H H').
Defined.

(** X4.  When no row of the table is stale, [deleteData] issues its
    DELETE with an empty list and leaves the store as it is; so a second
    [deleteData] with the same arguments changes nothing. *)
Theorem deleteData_idempotent :
  forall (scan_id : string) (t : table_name) (f : row_of t -> string)
         (w : world),
    (all_tagged scan_id t (db w) ->
     deleteData scan_id t f w
     = (Return tt,
        mkworld (db w) (UNSCANNED_BASES w)
                (Sql (DeleteIn t []) :: Sql (SelectStale t scan_id) :: trace w)))
    /\ db (snd (deleteData scan_id t f (snd (deleteData scan_id t f w))))
       = db (snd (deleteData scan_id t f w)).
Proof.
  intros S t f w.
  assert (H : forall w0, all_tagged S t (db w0) ->
                deleteData S t f w0
                = (Return tt,
                   mkworld (db w0) (UNSCANNED_BASES w0)
                           (Sql (DeleteIn t []) :: Sql (SelectStale t S)
                              :: trace w0))).
  { intros w0 Hall. rewrite deleteData_eq. unfold fits.
    now rewrite (select_stale_tagged S t f (db w0) Hall), delete_in_nil. }
  split; [apply H|].
  rewrite (deleteData_db S t f w).
  destruct (fits S t f (db w)) eqn:Hfit.
  - rewrite (H (snd (deleteData S t f w))).
    + cbn [snd db]. now rewrite deleteData_db, Hfit.
    + rewrite deleteData_db, Hfit. apply delete_stale_tagged.
  - rewrite !deleteData_eq, Hfit. cbn [snd db]. now rewrite Hfit.
Qed.

Lemma deleteData_idempotent_witness :
  all_tagged "S" tbl_bases (db current_world)
  /\ deleteData "S" tbl_bases Bases.id current_world
     = (Return tt,
        mkworld (db current_world) []
                [Sql (DeleteIn tbl_bases []); Sql (SelectStale tbl_bases "S")]).
Proof.
  assert (H : all_tagged "S" tbl_bases (db current_world))
    by (intros r [<-|[]]; reflexivity).
  split; [exact H|].
  exact (proj1 (deleteData_idempotent "S" tbl_bases Bases.id current_world) H).
Defined.

(** X5.  Deleting the stale bases touches [data] only through the
    foreign key: without enforcement [data] is unchanged; with it, and
    with [id] a key of [bases], the rows of [data] left are rows that were
    there and none of them references a base that was deleted. *)
Theorem deleteData_bases_and_data :
  forall (scan_id : string) (w : world),
    let w' := snd (deleteData scan_id tbl_bases Bases.id w) in
    (foreign_keys (db w) = false -> data (db w') = data (db w))
    /\ (forall r, In r (data (db w')) -> In r (data (db w)))
    /\ (foreign_keys (db w) = true ->
        NoDup (map Bases.id (bases (db w))) ->
        forall r b, In r (data (db w')) -> In b (bases (db w)) ->
                    Bases.id b = Data.base_id r -> In b (bases (db w'))).
Proof.
  intros S w w'. subst w'. rewrite deleteData_db.
  destruct (fits S tbl_bases Bases.id (db w)) eqn:Hfit;
    [|now repeat split].
  split; [|split].
  - intros Hfk. unfold delete_in. now rewrite Hfk.
  - intros r Hr.
    unfold delete_in in Hr. destruct (foreign_keys (db w)); cbn in Hr.
    + now apply filter_In in Hr.
    + exact Hr.
  - intros Hfk Hnd r b Hr Hb Hid.
    assert (Hr' : In r (data (db (snd (deleteData S tbl_bases Bases.id w)))))
      by now rewrite deleteData_db, Hfit.
    pose proof (deleteData_bases_cascade S w r Hfit Hfk Hnd Hr' b Hb Hid)
      as Htag.
    pose proof (deleteData_bases_exact S w Hfit Hnd) as Hb'.
    rewrite deleteData_db, Hfit in Hb'. rewrite Hb'.
    apply filter_In. split; [exact Hb|]. rewrite Htag. cbn.
    now rewrite String.eqb_refl.
Qed.

Lemma deleteData_bases_and_data_witness :
  let w := sample_world true in
  let w' := snd (deleteData "S" tbl_bases Bases.id w) in
  foreign_keys (db w) = true
  /\ NoDup (map Bases.id (bases (db w)))
  /\ forall r b, In r (data (db w')) -> In b (bases (db w)) ->
                 Bases.id b = Data.base_id r -> In b (bases (db w')).
Proof.
  intros w w'.
  assert (H : NoDup (map Bases.id (bases (db w)))) by distinct_keys.
  split; [reflexivity|]. split; [exact H|].
  exact (proj2 (proj2 (deleteData_bases_and_data "S" w)) eq_refl H).
Defined.

(** ** The [bases] table through the scans *)

Lemma bases_db_of_map env scan_id b d :
  bases (db_of env scan_id (Bases.id b) d)
  = map (mark_step env scan_id b) (bases d).
Proof.
  rewrite bases_db_of. unfold mark_step.
  destruct (is_scanned (outcome_of env (Bases.id b))); cbn.
  - reflexivity.
  - now rewrite map_id.
Qed.

Lemma bases_scans env scan_id p : forall d,
  bases (fold_left (fun d b => db_of env scan_id (Bases.id b) d) p d)
  = map (mark_all env scan_id p) (bases d).
Proof.
  induction p as [|b p IH]; intros d; cbn [fold_left].
  - unfold mark_all. cbn. now rewrite map_id.
  - rewrite IH, bases_db_of_map, map_map. reflexivity.
Qed.

Lemma id_mark_step env scan_id b x :
  Bases.id (mark_step env scan_id b x) = Bases.id x.
Proof. unfold mark_step. now destruct (_ && _). Qed.

Lemma id_mark_all env scan_id p : forall x,
  Bases.id (mark_all env scan_id p x) = Bases.id x.
Proof.
  induction p as [|b p IH]; intros x; [reflexivity|].
  unfold mark_all in *. cbn [fold_left]. now rewrite IH, id_mark_step.
Qed.

Lemma mark_all_unmarked env scan_id p : forall x,
  marked_by env p x = false -> mark_all env scan_id p x = x.
Proof.
  induction p as [|b p IH]; intros x H; [reflexivity|].
  unfold marked_by in H. cbn [existsb] in H.
  apply orb_false_iff in H. destruct H as [H1 H2].
  unfold mark_all in *. cbn [fold_left]. unfold mark_step at 2.
  rewrite H1. now apply IH.
Qed.

Lemma mark_all_marked env scan_id p : forall x,
  marked_by env p x = true ->
  Bases.scan_id (mark_all env scan_id p x) = Some scan_id.
Proof.
  induction p as [|b p IH]; intros x H; [discriminate|].
  unfold marked_by in H. cbn [existsb] in H.
  unfold mark_all in *. cbn [fold_left].
  destruct (marked_by env p (mark_step env scan_id b x)) eqn:E.
  - now apply IH.
  - pose proof (mark_all_unmarked env scan_id p _ E) as Hfix.
    unfold mark_all in Hfix. rewrite Hfix.
    unfold marked_by in E. unfold mark_step in *.
    destruct (is_scanned (outcome_of env (Bases.id b))
              && String.eqb (Bases.id x) (Bases.id b)) eqn:Eb;
      [reflexivity|].
    cbn [orb] in H. congruence.
Qed.

Lemma stale_mark_all env scan_id p x :
  stale scan_id (Bases.scan_id (mark_all env scan_id p x))
  = stale scan_id (Bases.scan_id x) && negb (marked_by env p x).
Proof.
  destruct (marked_by env p x) eqn:E.
  - rewrite (mark_all_marked env scan_id p x E). cbn.
    now rewrite String.eqb_refl, andb_false_r.
  - rewrite (mark_all_unmarked env scan_id p x E). now rewrite andb_true_r.
Qed.

(** The stale rows after the scans are the stale rows that no scan
    marked, as they were. *)
Lemma stale_after_scans env scan_id p l :
  filter (fun x => stale scan_id (Bases.scan_id x))
         (map (mark_all env scan_id p) l)
  = filter (fun x => stale scan_id (Bases.scan_id x)
                     && negb (marked_by env p x)) l.
Proof.
  induction l as [|x l IH]; cbn [map filter]; [reflexivity|].
  rewrite stale_mark_all, IH.
  destruct (stale scan_id (Bases.scan_id x) && negb (marked_by env p x)) eqn:E;
    [|reflexivity].
  apply andb_true_iff in E. destruct E as [_ E].
  apply negb_true_iff in E. now rewrite (mark_all_unmarked env scan_id p x E).
Qed.

Lemma bases_scanned_world env scan_id w :
  bases (db (scanned_world env scan_id w))
  = map (mark_all env scan_id (processed env (select_bases scan_id (db w))))
        (bases (db w)).
Proof. unfold scanned_world, bases_db. cbn [db]. apply bases_scans. Qed.

(** A selected base is marked by the scans of the selected bases exactly
    when its own scan marks it. *)
Lemma marked_by_selected env l x :
  In x l ->
  marked_by env l x = is_scanned (outcome_of env (Bases.id x)).
Proof.
  intros Hx. unfold marked_by.
  destruct (is_scanned (outcome_of env (Bases.id x))) eqn:E.
  - apply existsb_exists. exists x. split; [exact Hx|].
    now rewrite E, String.eqb_refl.
  - apply not_true_is_false. intros H. apply existsb_exists in H.
    destruct H as [b [_ H]]. apply andb_true_iff in H. destruct H as [H1 H2].
    apply String.eqb_eq in H2. congruence.
Qed.

(** X8.  After a run that returns without reconciling, the bases a run
    with the same scan identifier selects are the bases this run selected
    whose scan did not mark them (not found, forbidden, unavailable or
    failed on a table), as they were: a base scanned in full is not
    selected again. *)
Theorem rerun_selects_unscanned_bases :
  forall (env : remote) (scan_id : string) (delete_data : js_value)
         (w w' : world),
    not_true delete_data = true ->
    run env scan_id delete_data w = (Return tt, w') ->
    select_bases scan_id (db w')
    = filter (fun b => negb (is_scanned (outcome_of env (Bases.id b))))
             (select_bases scan_id (db w)).
Proof.
  intros env S dd w w' Hflag H. rewrite run_eq, Hflag in H.
  destruct (bases_result env (select_bases S (db w))) as [xs|t] eqn:Er;
    [|discriminate].
  destruct (bases_result_return env _ xs Er) as [Hp _].
  inversion H; subst; clear H.
  unfold select_bases at 1. rewrite bases_scanned_world, Hp.
  rewrite stale_after_scans. unfold select_bases.
  set (l := bases (db w)).
  assert (G : forall l0,
             (forall x, In x l0 -> stale S (Bases.scan_id x) = true ->
                        marked_by env (filter (fun b => stale S (Bases.scan_id b)) l) x
                        = is_scanned (outcome_of env (Bases.id x))) ->
             filter (fun x => stale S (Bases.scan_id x)
                              && negb (marked_by env
                                   (filter (fun b => stale S (Bases.scan_id b)) l) x)) l0
             = filter (fun b => negb (is_scanned (outcome_of env (Bases.id b))))
                      (filter (fun b => stale S (Bases.scan_id b)) l0)).
  { induction l0 as [|x l0 IH]; intros Hm; cbn [filter]; [reflexivity|].
    rewrite IH by (intros y Hy; apply Hm; now right).
    destruct (stale S (Bases.scan_id x)) eqn:Es; cbn [andb filter].
    - rewrite (Hm x (or_introl eq_refl) Es). reflexivity.
    - reflexivity. }
  apply G. intros x Hx Hs. apply marked_by_selected.
  apply filter_In. now split.
Qed.

Lemma rerun_selects_unscanned_bases_witness :
  let env := sample_env in
  let w := sample_world false in
  let w' := snd (run env "S" (JsBool false) w) in
  not_true (JsBool false) = true
  /\ run env "S" (JsBool false) w = (Return tt, w')
  /\ select_bases "S" (db w')
     = filter (fun b => negb (is_scanned (outcome_of env (Bases.id b))))
              (select_bases "S" (db w)).
Proof.
  intros env w w'.
  assert (H : run env "S" (JsBool false) w = (Return tt, w'))
    by (vm_compute; reflexivity).
  split; [reflexivity|]. split; [exact H|].
  exact (rerun_selects_unscanned_bases env "S" (JsBool false) w w' eq_refl H).
Defined.

(** ** The run and its reconciliation *)

Lemma run_reconciled env scan_id w w' :
  run env scan_id (JsBool true) w = (Return tt, w') ->
  let w1 := snd (deleteData scan_id tbl_bases Bases.id
                            (scanned_world env scan_id w)) in
  processed env (select_bases scan_id (db w)) = select_bases scan_id (db w)
  /\ fits scan_id tbl_bases Bases.id (db (scanned_world env scan_id w)) = true
  /\ fits scan_id tbl_data Data.record_id (db w1) = true
  /\ w' = snd (deleteData scan_id tbl_data Data.record_id w1).
Proof.
  intros H w1. rewrite run_eq in H.
  destruct (bases_result env (select_bases scan_id (db w))) as [xs|t] eqn:Er;
    [|discriminate].
  destruct (bases_result_return env _ xs Er) as [Hp _].
  split; [exact Hp|]. cbn [not_true] in H. unfold bind in H. subst w1.
  destruct (deleteData scan_id tbl_bases Bases.id (scanned_world env scan_id w))
    as [[[]|t] w1] eqn:E1; [|discriminate].
  destruct (deleteData_returns _ _ _ _ _ E1) as [F1 _].
  destruct (deleteData_returns _ _ _ _ _ H) as [F2 _].
  cbn [snd]. rewrite H. now repeat split.
Qed.

Lemma bases_after_data_delete scan_id f w :
  bases (db (snd (deleteData scan_id tbl_data f w))) = bases (db w).
Proof.
  rewrite deleteData_db. now destruct (fits scan_id tbl_data f (db w)).
Qed.

(** X6.  After a run with the deletion flag that returns, every row of
    [bases] and every row of [data] carries the scan identifier of the
    run. *)
Theorem reconciled_store_is_current :
  forall (env : remote) (scan_id : string) (w w' : world),
    run env scan_id (JsBool true) w = (Return tt, w') ->
    (forall b, In b (bases (db w')) -> Bases.scan_id b = Some scan_id)
    /\ (forall r, In r (data (db w')) -> Data.scan_id r = Some scan_id).
Proof.
  intros env S w w' H.
  destruct (run_reconciled env S w w' H) as [_ [F1 [F2 ->]]].
  split.
  - rewrite bases_after_data_delete, deleteData_db, F1.
    apply (delete_stale_tagged S tbl_bases).
  - rewrite deleteData_db, F2.
    apply (delete_stale_tagged S tbl_data).
Qed.

Lemma reconciled_store_is_current_witness :
  let w' := snd (run sample_env "S" (JsBool true) (sample_world false)) in
  run sample_env "S" (JsBool true) (sample_world false) = (Return tt, w')
  /\ (forall b, In b (bases (db w')) -> Bases.scan_id b = Some "S")
  /\ (forall r, In r (data (db w')) -> Data.scan_id r = Some "S").
Proof.
  intros w'.
  assert (H : run sample_env "S" (JsBool true) (sample_world false)
              = (Return tt, w')) by (vm_compute; reflexivity).
  split; [exact H|].
  exact (reconciled_store_is_current sample_env "S" (sample_world false) w' H).
Defined.

Lemma skipped_not_scanned env b i :
  In i (skips_of (Bases.id b) (outcome_of env (Bases.id b))) ->
  i = Bases.id b /\ is_scanned (outcome_of env (Bases.id b)) = false.
Proof.
  destruct (outcome_of env (Bases.id b)); cbn; intros H;
    try contradiction; destruct H as [<-|[]]; now split.
Qed.

(** X7.  After a run with the deletion flag that returns, a base that
    the run put on the skip list is no longer in [bases]: reconciliation
    deletes the bases it could not scan along with those deleted
    upstream. *)
Theorem reconciliation_deletes_skipped_bases :
  forall (env : remote) (scan_id : string) (w w' : world),
    run env scan_id (JsBool true) w = (Return tt, w') ->
    NoDup (map Bases.id (bases (db w))) ->
    exists skipped,
      UNSCANNED_BASES w' = UNSCANNED_BASES w ++ skipped
      /\ forall i b, In i skipped -> In b (bases (db w')) -> Bases.id b <> i.
Proof.
  intros env S w w' H Hnd.
  destruct (run_reconciled env S w w' H) as [Hp [F1 [F2 ->]]].
  exists (bases_skips env (select_bases S (db w))).
  split.
  { destruct (deleteData_quiet S tbl_data Data.record_id
                (snd (deleteData S tbl_bases Bases.id (scanned_world env S w))))
      as [e2 [_ [_ ->]]].
    destruct (deleteData_quiet S tbl_bases Bases.id (scanned_world env S w))
      as [e1 [_ [_ ->]]].
    reflexivity. }
  intros i b Hi Hb Hid.
  rewrite bases_after_data_delete in Hb.
  rewrite deleteData_db, F1 in Hb.
  pose proof (delete_stale_tagged S tbl_bases Bases.id _ b Hb) as Htag.
  cbn [tag_of] in Htag.
  rewrite bases_delete_in in Hb. apply filter_In in Hb. destruct Hb as [Hb _].
  rewrite bases_scanned_world, Hp in Hb.
  apply in_map_iff in Hb. destruct Hb as [x0 [Ex Hx0]].
  unfold bases_skips in Hi. rewrite Hp in Hi.
  apply in_flat_map in Hi. destruct Hi as [b0 [Hb0 Hi]].
  apply skipped_not_scanned in Hi. destruct Hi as [Ei Hns].
  assert (Hid0 : Bases.id x0 = Bases.id b0).
  { rewrite <- (id_mark_all env S (select_bases S (db w)) x0), Ex. congruence. }
  pose proof Hb0 as Hsel. apply filter_In in Hsel. destruct Hsel as [Hin Hst].
  assert (x0 = b0) by (apply (key_injective Bases.id (bases (db w))); auto).
  subst x0.
  rewrite <- Ex, (mark_all_unmarked env S _ b0) in Htag.
  - rewrite Htag in Hst. cbn in Hst. now rewrite String.eqb_refl in Hst.
  - now rewrite (marked_by_selected env _ b0 Hb0).
Qed.

Lemma reconciliation_deletes_skipped_bases_witness :
  let w := sample_world false in
  let w' := snd (run sample_env "S" (JsBool true) w) in
  run sample_env "S" (JsBool true) w = (Return tt, w')
  /\ NoDup (map Bases.id (bases (db w)))
  /\ exists skipped,
      UNSCANNED_BASES w' = UNSCANNED_BASES w ++ skipped
      /\ forall i b, In i skipped -> In b (bases (db w')) -> Bases.id b <> i.
Proof.
  intros w w'.
  assert (Hnd : NoDup (map Bases.id (bases (db w)))) by distinct_keys.
  assert (H : run sample_env "S" (JsBool true) w = (Return tt, w'))
    by (vm_compute; reflexivity).
  split; [exact H|]. split; [exact Hnd|].
  exact (reconciliation_deletes_skipped_bases sample_env "S" w w' H Hnd).
Defined.

Lemma NoDup_map_filter {A} (f : A -> string) (p : A -> bool) (l : list A) :
  NoDup (map f l) -> NoDup (map f (filter p l)).
Proof.
  induction l as [|a l IH]; cbn; intros H; [constructor|].
  inversion H as [|? ? Ha Hl]; subst.
  destruct (p a); cbn; [|now apply IH].
  constructor; [|now apply IH].
  intros Hin. apply Ha. apply in_map_iff in Hin.
  destruct Hin as [x [E Hx]]. apply filter_In in Hx.
  rewrite <- E. apply in_map. tauto.
Qed.

Lemma NoDup_upsert r d :
  NoDup (map Data.record_id (data d)) ->
  NoDup (map Data.record_id (data (insert_or_replace_data r d))).
Proof.
  intros H. unfold insert_or_replace_data, set_data. cbn [data].
  rewrite map_app. cbn [map]. apply NoDup_app.
  - now apply NoDup_map_filter.
  - repeat constructor. intros [].
  - intros a Hin [<-|[]]. apply in_map_iff in Hin.
    destruct Hin as [x [E Hx]]. apply filter_In in Hx. destruct Hx as [_ Hx].
    rewrite E, String.eqb_refl in Hx. discriminate.
Qed.

Lemma NoDup_insert_all l : forall d,
  NoDup (map Data.record_id (data d)) ->
  NoDup (map Data.record_id (data (insert_all l d))).
Proof.
  induction l as [|r l IH]; intros d H; [exact H|].
  change (insert_all (r :: l) d) with (insert_all l (insert_or_replace_data r d)).
  now apply IH, NoDup_upsert.
Qed.

Lemma data_db_of env scan_id i d :
  data (db_of env scan_id i d) = data (insert_all (rows_of env scan_id i) d).
Proof.
  rewrite db_of_eq. cbn zeta.
  now destruct (is_scanned (outcome_of env i)).
Qed.

Lemma NoDup_data_scans env scan_id p : forall d,
  NoDup (map Data.record_id (data d)) ->
  NoDup (map Data.record_id
           (data (fold_left (fun d b => db_of env scan_id (Bases.id b) d) p d))).
Proof.
  induction p as [|b p IH]; intros d H; [exact H|].
  cbn [fold_left]. apply IH. rewrite data_db_of. now apply NoDup_insert_all.
Qed.

Lemma ids_scanned_world env scan_id w :
  map Bases.id (bases (db (scanned_world env scan_id w)))
  = map Bases.id (bases (db w)).
Proof.
  rewrite bases_scanned_world, map_map. apply map_ext.
  intros x. apply id_mark_all.
Qed.

Lemma data_delete_bases f ids d :
  exists p, data (delete_in tbl_bases f ids d) = filter p (data d).
Proof.
  unfold delete_in. destruct (foreign_keys d).
  - eexists. reflexivity.
  - exists (fun _ => true). cbn. now rewrite filter_all.
Qed.

Lemma data_delete_in f ids d :
  data (delete_in tbl_data f ids d)
  = filter (fun r => negb (sql_in (f r) ids)) (data d).
Proof. reflexivity. Qed.

(** A run ends in the world the scans left, or in that world after the
    first or after both of the reconciliation deletes. *)
Lemma run_ends env scan_id delete_data w c w' :
  run env scan_id delete_data w = (c, w') ->
  let w1 := snd (deleteData scan_id tbl_bases Bases.id
                            (scanned_world env scan_id w)) in
  w' = scanned_world env scan_id w
  \/ w' = w1
  \/ w' = snd (deleteData scan_id tbl_data Data.record_id w1).
Proof.
  intros H w1. rewrite run_eq in H.
  destruct (bases_result env (select_bases scan_id (db w)));
    [|left; now inversion H].
  destruct (not_true delete_data); [left; now inversion H|].
  right. unfold bind in H. subst w1.
  destruct (deleteData scan_id tbl_bases Bases.id (scanned_world env scan_id w))
    as [[[]|t] w1]; cbn [snd].
  - right. now rewrite H.
  - left. now inversion H.
Qed.

(** [deleteData] keeps the keys of the store keys. *)
Lemma deleteData_keeps_keys scan_id t f w :
  NoDup (map Bases.id (bases (db w))) ->
  NoDup (map Data.record_id (data (db w))) ->
  NoDup (map Bases.id (bases (db (snd (deleteData scan_id t f w)))))
  /\ NoDup (map Data.record_id (data (db (snd (deleteData scan_id t f w))))).
Proof.
  intros Hb Hd. rewrite deleteData_db.
  destruct (fits scan_id t f (db w)); [|now split].
  destruct t.
  - split.
    + rewrite bases_delete_in. now apply NoDup_map_filter.
    + destruct (data_delete_bases f
                  (select_stale tbl_bases f scan_id (db w)) (db w)) as [p ->].
      now apply NoDup_map_filter.
  - split; [exact Hb|]. rewrite data_delete_in. now apply NoDup_map_filter.
Qed.

(** The deletes of the reconciliation keep the rows of [bases] that carry
    the scan identifier. *)
Lemma deleteData_keeps_current scan_id w b :
  In b (bases (db w)) ->
  Bases.scan_id b = Some scan_id ->
  NoDup (map Bases.id (bases (db w))) ->
  In b (bases (db (snd (deleteData scan_id tbl_bases Bases.id w)))).
Proof.
  intros Hb Htag Hnd.
  destruct (fits scan_id tbl_bases Bases.id (db w)) eqn:Hfit.
  - rewrite (deleteData_bases_exact scan_id w Hfit Hnd).
    apply filter_In. split; [exact Hb|]. rewrite Htag. cbn.
    now rewrite String.eqb_refl.
  - now rewrite deleteData_db, Hfit.
Qed.

(** X9.  A run keeps the primary keys of the store keys: when no two rows
    of [bases] share an [id] and no two rows of [data] a [record_id]
    before the run, the same holds after it, whatever the flag and however
    the run completes. *)
Theorem run_keeps_keys_unique :
  forall (env : remote) (scan_id : string) (delete_data : js_value)
         (w : world) (c : completion unit) (w' : world),
    run env scan_id delete_data w = (c, w') ->
    NoDup (map Bases.id (bases (db w))) ->
    NoDup (map Data.record_id (data (db w))) ->
    NoDup (map Bases.id (bases (db w')))
    /\ NoDup (map Data.record_id (data (db w'))).
Proof.
  intros env S dd w c w' H Hb Hd.
  assert (Hs : NoDup (map Bases.id (bases (db (scanned_world env S w))))
               /\ NoDup (map Data.record_id
                           (data (db (scanned_world env S w))))).
  { split; [now rewrite ids_scanned_world|].
    unfold scanned_world, bases_db. cbn [db]. now apply NoDup_data_scans. }
  destruct Hs as [Hs1 Hs2].
  pose proof (deleteData_keeps_keys S tbl_bases Bases.id
                (scanned_world env S w) Hs1 Hs2) as [H1 H2].
  destruct (run_ends env S dd w c w' H) as [->|[->| ->]];
    [now split | now split |].
  now apply deleteData_keeps_keys.
Qed.

Lemma run_keeps_keys_unique_witness :
  let w := sample_world true in
  let r := run sample_env "S" (JsBool true) w in
  r = (fst r, snd r)
  /\ NoDup (map Bases.id (bases (db w)))
  /\ NoDup (map Data.record_id (data (db w)))
  /\ NoDup (map Bases.id (bases (db (snd r))))
  /\ NoDup (map Data.record_id (data (db (snd r)))).
Proof.
  intros w r.
  assert (Hb : NoDup (map Bases.id (bases (db w)))) by distinct_keys.
  assert (Hd : NoDup (map Data.record_id (data (db w)))) by distinct_keys.
  assert (Hr : r = (fst r, snd r)) by (vm_compute; reflexivity).
  split; [exact Hr|]. split; [exact Hb|]. split; [exact Hd|].
  exact (run_keeps_keys_unique sample_env "S" (JsBool true) w _ _ Hr Hb Hd).
Defined.

(** X10.  A run never changes nor deletes the row of a base that already
    carries its scan identifier: with [id] a key of [bases], such a row is
    in [bases] after the run as it was before, whatever the flag and
    however the run completes. *)
Theorem run_keeps_current_bases :
  forall (env : remote) (scan_id : string) (delete_data : js_value)
         (w : world) (c : completion unit) (w' : world) (b : Bases.row),
    run env scan_id delete_data w = (c, w') ->
    NoDup (map Bases.id (bases (db w))) ->
    In b (bases (db w)) ->
    Bases.scan_id b = Some scan_id ->
    In b (bases (db w')).
Proof.
  intros env S dd w c w' b H Hnd Hb Htag.
  set (p := processed env (select_bases S (db w))).
  assert (Hfix : mark_all env S p b = b).
  { apply mark_all_unmarked. apply not_true_is_false. intros Hm.
    apply existsb_exists in Hm. destruct Hm as [b' [Hb' Hm]].
    apply andb_true_iff in Hm. destruct Hm as [_ Hm].
    apply String.eqb_eq in Hm.
    apply processed_incl, filter_In in Hb'. destruct Hb' as [Hin Hst].
    assert (b = b') by (apply (key_injective Bases.id (bases (db w))); auto).
    subst b'. rewrite Htag in Hst. cbn in Hst.
    now rewrite String.eqb_refl in Hst. }
  assert (Hs : In b (bases (db (scanned_world env S w)))).
  { rewrite bases_scanned_world. fold p. rewrite <- Hfix. now apply in_map. }
  assert (H1 : In b (bases (db (snd (deleteData S tbl_bases Bases.id
                                        (scanned_world env S w)))))).
  { apply (deleteData_keeps_current S _ b Hs Htag).
    now rewrite ids_scanned_world. }
  destruct (run_ends env S dd w c w' H) as [->|[->| ->]];
    [exact Hs | exact H1 |].
  now rewrite bases_after_data_delete.
Qed.

Lemma run_keeps_current_bases_witness :
  let w := sample_world false in
  let r := run sample_env "S" (JsBool true) w in
  let b := Bases.mk "appA" (Some "wsp1") (Some "Sales") None
                    (Some "2021-03-01T10:00:00.000Z") (Some "S") in
  r = (fst r, snd r)
  /\ NoDup (map Bases.id (bases (db w)))
  /\ In b (bases (db w))
  /\ Bases.scan_id b = Some "S"
  /\ In b (bases (db (snd r))).
Proof.
  intros w r b.
  assert (Hb : NoDup (map Bases.id (bases (db w)))) by distinct_keys.
  assert (Hr : r = (fst r, snd r)) by (vm_compute; reflexivity).
  assert (Hin : In b (bases (db w))) by now left.
  split; [exact Hr|]. split; [exact Hb|]. split; [exact Hin|].
  split; [reflexivity|].
  exact (run_keeps_current_bases sample_env "S" (JsBool true) w _ _ b
           Hr Hb Hin eq_refl).
Defined.

(** ** The scan of one base: edges *)

Lemma tables_result_readable env base_id tables :
  Forall (readable env base_id) tables ->
  exists l, tables_result env base_id tables = Return l
            /\ length l = length tables.
Proof.
  induction 1 as [|t ts [records Ht] _ [l [IH Hl]]]; cbn.
  - now exists [].
  - rewrite Ht, IH. exists (length records :: l). cbn. now rewrite Hl.
Qed.

Lemma scan_base_result env scan_id b w :
  fst (scan_base env scan_id b w) = result_of (outcome_of env (Bases.id b))
  /\ UNSCANNED_BASES (snd (scan_base env scan_id b w))
     = UNSCANNED_BASES w ++ skips_of (Bases.id b) (outcome_of env (Bases.id b))
  /\ bases (db (snd (scan_base env scan_id b w)))
     = (if is_scanned (outcome_of env (Bases.id b))
        then bases (update_base_scan (now env (Bases.id b)) scan_id
                                     (Bases.id b) (db w))
        else bases (db w))
  /\ trace (snd (scan_base env scan_id b w))
     = events_of env scan_id (Bases.id b) ++ trace w.
Proof.
  rewrite scan_base_eq. cbn [fst snd db UNSCANNED_BASES trace].
  now rewrite bases_db_of.
Qed.

(** X11.  A base whose table list is empty makes its scan throw a
    TypeError (the sum of the record counts is a [reduce] without initial
    value): after the grant and the listing, no table is requested, the
    collaborator is not removed, nothing is written, the base is neither
    marked nor put on the skip list; and a run that selects such a base
    fails. *)
Theorem base_without_tables_fails_run :
  forall (env : remote) (scan_id : string) (b : Bases.row) (u : unit),
    add_collaborator env (Bases.id b) = Fulfilled u ->
    get_tables env (Bases.id b) = Fulfilled [] ->
    (forall w, exists evs,
        scan_base env scan_id b w = (Throw TypeError, log evs w)
        /\ calls evs = [AddCollaborator (Bases.id b); GetTables (Bases.id b)]
        /\ statements evs = [])
    /\ (forall delete_data w,
          In b (select_bases scan_id (db w)) ->
          exists t w', run env scan_id delete_data w = (Throw t, w')).
Proof.
  intros env S b u Hadd Hget.
  assert (Ho : outcome_of env (Bases.id b) = Failed TypeError).
  { unfold outcome_of, on_tables. now rewrite Hadd, Hget. }
  split.
  - intros w. exists (events_of env S (Bases.id b)). split; [|split].
    + rewrite scan_base_eq, Ho. cbn [result_of skips_of]. unfold log.
      rewrite app_nil_r. do 2 f_equal.
      unfold db_of. now rewrite Hadd, Hget.
    + rewrite calls_events_of. unfold calls_of. now rewrite Hadd, Hget.
    + rewrite statements_events_of, Ho. unfold rows_of, scan_rows.
      now rewrite Hadd, Hget.
  - intros dd w Hb. rewrite run_eq.
    destruct (bases_result_failed env (select_bases S (db w))) as [t Ht].
    + apply Exists_exists. exists b. split; [exact Hb|]. now rewrite Ho.
    + rewrite Ht. eauto.
Qed.

Lemma base_without_tables_fails_run_witness :
  let env := refusing_env in
  let tables_env :=
    mkremote (fun _ => Fulfilled tt) (get_tables env) (select_all env)
             (remove_collaborator env) (get_base env) (now env) in
  let b := Bases.mk "appD" None None None None None in
  add_collaborator tables_env (Bases.id b) = Fulfilled tt
  /\ get_tables tables_env (Bases.id b) = Fulfilled []
  /\ (forall w, exists evs,
        scan_base tables_env "S" b w = (Throw TypeError, log evs w)
        /\ calls evs = [AddCollaborator (Bases.id b); GetTables (Bases.id b)]
        /\ statements evs = [])
  /\ (forall delete_data w,
        In b (select_bases "S" (db w)) ->
        exists t w', run tables_env "S" delete_data w = (Throw t, w')).
Proof.
  intros env tables_env b.
  assert (H1 : add_collaborator tables_env (Bases.id b) = Fulfilled tt)
    by reflexivity.
  assert (H2 : get_tables tables_env (Bases.id b) = Fulfilled [])
    by reflexivity.
  split; [exact H1|]. split; [exact H2|].
  exact (base_without_tables_fails_run tables_env "S" b tt H1 H2).
Defined.

(** X12.  Once every table of a base is written, a removal of the
    collaborator that is refused with status 403 is passed over and the
    base is marked; refused with another status it is rethrown: the base
    is then neither marked nor put on the skip list, although its records
    are written. *)
Theorem revoke_failure_after_tables :
  forall (env : remote) (scan_id : string) (b : Bases.row) (w : world)
         (u : unit) (tables : list table) (err : error)
         (resp : http_response),
    add_collaborator env (Bases.id b) = Fulfilled u ->
    get_tables env (Bases.id b) = Fulfilled tables ->
    tables <> [] ->
    Forall (readable env (Bases.id b)) tables ->
    remove_collaborator env (Bases.id b) = Rejected err ->
    response err = Some resp ->
    let r := scan_base env scan_id b w in
    UNSCANNED_BASES (snd r) = UNSCANNED_BASES w
    /\ Forall (written env scan_id (Bases.id b) (db (snd r))) tables
    /\ (status resp = 403 ->
        fst r = Return None
        /\ bases (db (snd r))
           = bases (update_base_scan (now env (Bases.id b)) scan_id
                                     (Bases.id b) (db w)))
    /\ (status resp <> 403 ->
        fst r = Throw (Err err) /\ bases (db (snd r)) = bases (db w)).
Proof.
  intros env S b w u tables err resp Hadd Hget Hne Hall Hrm Hresp r.
  destruct (tables_result_readable env _ tables Hall) as [l [Hres Hlen]].
  destruct (tables_result_return env _ tables l Hres) as [_ [Hatt _]].
  destruct l as [|n l]; [destruct tables; [congruence | discriminate]|].
  assert (Ho : outcome_of env (Bases.id b)
               = if (status resp =? 403)%nat then Scanned else Failed (Err err)).
  { unfold outcome_of, on_tables, on_revoke_error.
    now rewrite Hadd, Hget, Hres, Hrm, Hresp. }
  destruct (scan_base_result env S b w) as [Hc [Hu [Hb _]]]. fold r in Hc, Hu, Hb.
  assert (Hw : Forall (written env S (Bases.id b) (db (snd r))) tables).
  { apply Forall_forall. intros t Ht. subst r. rewrite scan_base_eq.
    cbn [snd db].
    apply (table_written env S (Bases.id b) (db w) tables t); eauto.
    - now rewrite Hatt.
    - rewrite Forall_forall in Hall. now apply Hall. }
  split; [|split; [exact Hw|split]].
  - rewrite Hu, Ho. destruct (status resp =? 403)%nat; cbn; apply app_nil_r.
  - intros H403. rewrite Hc, Hb, Ho, H403. now split.
  - intros H403. apply Nat.eqb_neq in H403. rewrite Hc, Hb, Ho, H403. now split.
Qed.

Lemma revoke_failure_after_tables_witness :
  let env := revoke_refusing_env 403 in
  let b := sample_appA in
  let w := sample_world false in
  let tables := [mktable "tbl1" "Main"] in
  let err := mkerr None (Some (mkresp 403 None)) in
  let r := scan_base env "T" b w in
  add_collaborator env (Bases.id b) = Fulfilled tt
  /\ get_tables env (Bases.id b) = Fulfilled tables
  /\ tables <> []
  /\ Forall (readable env (Bases.id b)) tables
  /\ remove_collaborator env (Bases.id b) = Rejected err
  /\ UNSCANNED_BASES (snd r) = UNSCANNED_BASES w
  /\ Forall (written env "T" (Bases.id b) (db (snd r))) tables
  /\ (status (mkresp 403 None) = 403 ->
      fst r = Return None
      /\ bases (db (snd r))
         = bases (update_base_scan (now env (Bases.id b)) "T"
                                   (Bases.id b) (db w)))
  /\ (status (mkresp 403 None) <> 403 ->
      fst r = Throw (Err err) /\ bases (db (snd r)) = bases (db w)).
Proof.
  intros env b w tables err r.
  assert (H1 : add_collaborator env (Bases.id b) = Fulfilled tt)
    by reflexivity.
  assert (H2 : get_tables env (Bases.id b) = Fulfilled tables)
    by reflexivity.
  assert (H3 : tables <> []) by discriminate.
  assert (H4 : Forall (readable env (Bases.id b)) tables).
  { constructor; [|constructor]. eexists. reflexivity. }
  assert (H5 : remove_collaborator env (Bases.id b) = Rejected err)
    by reflexivity.
  repeat (split; [assumption|]).
  exact (revoke_failure_after_tables env "T" b w tt tables err
           (mkresp 403 None) H1 H2 H3 H4 H5 eq_refl).
Defined.

(** X13.  The scan of a base removes the collaborator it granted only
    when the grant and the listing succeeded, the base has a table and
    every table was read: on every other path past the grant (listing
    refused, a table failed, no table) the administrator is left as a
    collaborator of the base. *)
Theorem collaborator_removed_only_after_all_tables :
  forall (env : remote) (scan_id : string) (b : Bases.row) (w : world),
  exists evs,
    trace (snd (scan_base env scan_id b w)) = evs ++ trace w
    /\ In (AddCollaborator (Bases.id b)) (calls evs)
    /\ (In (RemoveCollaborator (Bases.id b)) (calls evs) <->
        (exists u, add_collaborator env (Bases.id b) = Fulfilled u)
        /\ exists tables,
             get_tables env (Bases.id b) = Fulfilled tables
             /\ tables <> []
             /\ Forall (readable env (Bases.id b)) tables).
Proof.
  intros env S b w. exists (events_of env S (Bases.id b)).
  destruct (scan_base_result env S b w) as [_ [_ [_ Ht]]].
  split; [exact Ht|]. rewrite calls_events_of.
  split; [apply calls_of_grant|]. unfold calls_of. split.
  - intros [H|H]; [discriminate|].
    destruct (add_collaborator env (Bases.id b)) as [u|]; [|destruct H].
    destruct H as [H|H]; [discriminate|].
    destruct (get_tables env (Bases.id b)) as [tables|]; [|destruct H].
    split; [now exists u|]. exists tables. split; [reflexivity|].
    apply in_app_or in H. destruct H as [H|H].
    + apply in_map_iff in H. destruct H as [t [H _]]. discriminate.
    + destruct (tables_result env (Bases.id b) tables) as [[|n l]|] eqn:E;
        try (now destruct H).
      destruct (tables_result_return env _ tables _ E) as [Hall [_ Hlen]].
      split; [|exact Hall]. intros ->. discriminate.
  - intros [[u Hadd] [tables [Hget [Hne Hall]]]]. rewrite Hadd, Hget.
    right. right. apply in_or_app. right.
    destruct (tables_result_readable env _ tables Hall) as [l [-> Hlen]].
    destruct l as [|n l]; [destruct tables; [congruence | discriminate]|].
    now left.
Qed.

(** X14.  A rejection that carries no response (a request that timed
    out, a connection error) is not classified by the scan of a base:
    reading its status throws a TypeError, which leaves the scan in place
    of the rejection, for the grant, for the listing of the tables and for
    the removal of the collaborator alike; the base is neither marked nor
    put on the skip list. *)
Theorem rejection_without_response_throws_TypeError :
  forall (env : remote) (scan_id : string) (b : Bases.row) (w : world)
         (err : error),
    response err = None ->
    add_collaborator env (Bases.id b) = Rejected err
    \/ (exists u, add_collaborator env (Bases.id b) = Fulfilled u)
       /\ (get_tables env (Bases.id b) = Rejected err
           \/ exists tables,
                get_tables env (Bases.id b) = Fulfilled tables
                /\ tables <> []
                /\ Forall (readable env (Bases.id b)) tables
                /\ remove_collaborator env (Bases.id b) = Rejected err) ->
    let r := scan_base env scan_id b w in
    fst r = Throw TypeError
    /\ UNSCANNED_BASES (snd r) = UNSCANNED_BASES w
    /\ bases (db (snd r)) = bases (db w).
Proof.
  intros env S b w err Hresp Hcase r.
  assert (Ho : outcome_of env (Bases.id b) = Failed TypeError).
  { unfold outcome_of.
    destruct Hcase as [Hadd|[[u Hadd] [Hget|[tables [Hget [Hne [Hall Hrm]]]]]]];
      rewrite Hadd.
    - unfold on_grant_error. now rewrite Hresp.
    - rewrite Hget. unfold on_listing_error. now rewrite Hresp.
    - rewrite Hget. unfold on_tables.
      destruct (tables_result_readable env _ tables Hall) as [l [-> Hlen]].
      destruct l as [|n l]; [reflexivity|].
      rewrite Hrm. unfold on_revoke_error. now rewrite Hresp. }
  destruct (scan_base_result env S b w) as [Hc [Hu [Hb _]]].
  fold r in Hc, Hu, Hb. rewrite Hc, Hu, Hb, Ho. cbn.
  now rewrite app_nil_r.
Qed.

Lemma rejection_without_response_throws_TypeError_witness :
  let env := unreachable_env in
  let b := sample_appC in
  let w := sample_world false in
  let r := scan_base env "S" b w in
  response timed_out = None
  /\ add_collaborator env (Bases.id b) = Rejected timed_out
  /\ fst r = Throw TypeError
  /\ UNSCANNED_BASES (snd r) = UNSCANNED_BASES w
  /\ bases (db (snd r)) = bases (db w).
Proof.
  intros env b w r.
  assert (H1 : response timed_out = None) by reflexivity.
  assert (H2 : add_collaborator env (Bases.id b) = Rejected timed_out)
    by reflexivity.
  split; [exact H1|]. split; [exact H2|].
  exact (rejection_without_response_throws_TypeError env "S" b w timed_out
           H1 (or_introl H2)).
Defined.

(** X15.  A record of a base whose tables are all read is written to
    [data] under the base, its table and its record identifier, with the
    creation time of the record in the column [data] and the serialized
    fields in the column [created_time] (the statement lists the two
    columns in one order and their values in the other); the row is in
    the store when the scan ends, provided the scan writes no other row
    under that record identifier, whatever the order in which the tables
    are read. *)
Theorem record_row_as_written :
  forall (env : remote) (scan_id : string) (b : Bases.row) (w : world)
         (u : unit) (tables : list table) (t : table)
         (records : list record) (rec : record),
    add_collaborator env (Bases.id b) = Fulfilled u ->
    get_tables env (Bases.id b) = Fulfilled tables ->
    Forall (readable env (Bases.id b)) tables ->
    In t tables ->
    select_all env (Bases.id b) (t_name t) = Fulfilled records ->
    In rec records ->
    (forall r, In r (flat_map (table_rows env scan_id (Bases.id b)) tables) ->
               Data.record_id r = rec_id rec ->
               r = data_row (Bases.id b) t scan_id rec) ->
    In {| Data.base_id := Bases.id b;
          Data.table_id := t_id t;
          Data.record_id := rec_id rec;
          Data.data := Some (createdTime rec);
          Data.created_time := Some (fields rec);
          Data.scan_id := Some scan_id |}
       (data (db (snd (scan_base env scan_id b w)))).
Proof.
  intros env S b w u tables t records rec Hadd Hget Hall Ht Hrec Hin Hsame.
  destruct (tables_result_readable env _ tables Hall) as [l [Hres _]].
  destruct (tables_result_return env _ tables l Hres) as [_ [Hatt _]].
  assert (Hrows : rows_of env S (Bases.id b)
                  = flat_map (table_rows env S (Bases.id b)) tables)
    by (unfold rows_of, scan_rows; now rewrite Hadd, Hget, Hatt).
  rewrite scan_base_eq. cbn [snd db].
  apply (rows_of_kept_same env S (Bases.id b) (db w)
           (data_row (Bases.id b) t S rec)).
  - rewrite Hrows. apply in_flat_map. exists t. split; [exact Ht|].
    unfold table_rows. rewrite Hrec. now apply in_map.
  - intros r Hr. rewrite Hrows in Hr. exact (Hsame r Hr).
Qed.

Lemma record_row_as_written_witness :
  let env := sample_env in
  let b := sample_appA in
  let w := sample_world false in
  let t := mktable "tbl1" "Main" in
  let rec := mkrecord "rec1" "{}" "2021-01-05T08:00:00.000Z" in
  In {| Data.base_id := "appA";
        Data.table_id := "tbl1";
        Data.record_id := "rec1";
        Data.data := Some "2021-01-05T08:00:00.000Z";
        Data.created_time := Some "{}";
        Data.scan_id := Some "S" |}
     (data (db (snd (scan_base env "S" b w)))).
Proof.
  intros env b w t rec.
  apply (record_row_as_written env "S" b w tt [t] t [rec] rec);
    try reflexivity.
  - repeat constructor. now exists [rec].
  - now left.
  - now left.
  - intros r [<-|[]] _. reflexivity.
Defined.

(** ** The crawl of the accounts *)

Lemma workspace_row_kept api wid ws wid1 tbl :
  get_workspace api wid = Fulfilled ws ->
  In (workspace_row wid ws) tbl ->
  forall ws1, get_workspace api wid1 = Fulfilled ws1 ->
  In (workspace_row wid ws)
     (insert_or_replace_workspace (workspace_row wid1 ws1) tbl).
Proof.
  intros Hg Hin ws1 Hg1. unfold insert_or_replace_workspace.
  apply in_or_app. cbn [workspace_row Workspaces.id].
  destruct (String.eqb wid wid1) eqn:E.
  - apply String.eqb_eq in E. subst wid1. right. left.
    rewrite Hg in Hg1. now inversion Hg1.
  - left. apply filter_In. split; [exact Hin|]. cbn. now rewrite E.
Qed.

Lemma fetch_workspaces_keeps api wid ws wids : forall st st',
  fetch_workspaces api wids st = (Return tt, st') ->
  get_workspace api wid = Fulfilled ws ->
  In (workspace_row wid ws) (fst st) ->
  In (workspace_row wid ws) (fst st').
Proof.
  induction wids as [|wid1 wids IH]; intros st st' H Hg Hin; cbn in H.
  - now inversion H; subst.
  - unfold fetch_workspace in H.
    destruct (get_workspace api wid1) as [ws1|err] eqn:E; [|discriminate].
    apply (IH _ _ H Hg). cbn [fst].
    now apply (workspace_row_kept api wid ws wid1).
Qed.

Lemma fetch_workspaces_return api wids : forall st st',
  fetch_workspaces api wids st = (Return tt, st') ->
  snd st' = snd st ++ queue_of api wids
  /\ (forall wid ws, In wid wids -> get_workspace api wid = Fulfilled ws ->
        In (workspace_row wid ws) (fst st'))
  /\ (forall x, In x (fst st') ->
        (In x (fst st) /\ ~ In (Workspaces.id x) wids)
        \/ exists wid ws, In wid wids /\ get_workspace api wid = Fulfilled ws
                          /\ x = workspace_row wid ws).
Proof.
  induction wids as [|wid wids IH]; intros st st' H; cbn in H.
  - inversion H; subst. unfold queue_of. cbn. rewrite app_nil_r.
    repeat split; try (intros; contradiction). intros x Hx. left. now split.
  - unfold fetch_workspace in H.
    destruct (get_workspace api wid) as [ws|err] eqn:E; [|discriminate].
    pose proof H as H0.
    destruct (IH _ _ H) as [Hq [Hin Hfrom]]. cbn [fst snd] in *.
    split; [|split].
    + rewrite Hq. unfold queue_of. cbn [flat_map]. rewrite E.
      now rewrite app_assoc.
    + intros wid' ws' [<-|Hw] Hg; [|now apply Hin].
      apply (fetch_workspaces_keeps api wid ws' wids _ _ H0 Hg). cbn [fst].
      rewrite E in Hg. inversion Hg; subst.
      unfold insert_or_replace_workspace. apply in_or_app. right. now left.
    + intros x Hx.
      destruct (Hfrom x Hx) as [[Hx' Hn]|[wid' [ws' [Hw [Hg Ex]]]]].
      * unfold insert_or_replace_workspace in Hx'.
        apply in_app_or in Hx'. destruct Hx' as [Hx'|[<-|[]]].
        -- apply filter_In in Hx'. destruct Hx' as [Hx' Hne]. left.
           split; [exact Hx'|]. intros [Eq|Hin']; [|now apply Hn].
           cbn in Hne. rewrite <- Eq, String.eqb_refl in Hne. discriminate.
        -- right. exists wid, ws. repeat split; auto. now left.
      * right. exists wid', ws'. repeat split; auto. now right.
Qed.

Lemma fetch_workspaces_throw api wids : forall st,
  Exists (fun wid => exists err, get_workspace api wid = Rejected err) wids ->
  exists wid err st',
    fetch_workspaces api wids st = (Throw (Err err), st')
    /\ In wid wids /\ get_workspace api wid = Rejected err.
Proof.
  induction wids as [|wid wids IH]; intros st H; [inversion H|].
  cbn [fetch_workspaces]. unfold fetch_workspace.
  destruct (get_workspace api wid) as [ws|err] eqn:E.
  - inversion H as [? ? [err Hr]|? ? Hex]; subst; [congruence|].
    destruct (IH (insert_or_replace_workspace (workspace_row wid ws) (fst st),
                  snd st ++ map (fun b => (wid, b)) (baseIds ws)) Hex)
      as [wid' [err [st' [Hf [Hw Hg]]]]].
    exists wid', err, st'. repeat split; auto. now right.
  - exists wid, err, st. repeat split; auto. now left.
Qed.

Lemma in_queue_of api wids wid base_id :
  In (wid, base_id) (queue_of api wids) <->
  In wid wids
  /\ exists ws, get_workspace api wid = Fulfilled ws /\ In base_id (baseIds ws).
Proof.
  unfold queue_of. rewrite in_flat_map. split.
  - intros [wid' [Hw H]].
    destruct (get_workspace api wid') as [ws|] eqn:E; [|destruct H].
    apply in_map_iff in H. destruct H as [b [Eq Hb]]. inversion Eq; subst.
    split; [exact Hw|]. now exists ws.
  - intros [Hw [ws [E Hb]]]. exists wid. split; [exact Hw|]. rewrite E.
    apply in_map_iff. now exists base_id.
Qed.

Lemma unscanned_row_upsert i j ws ct nm d :
  i = j \/ unscanned_row i d ->
  unscanned_row i (insert_or_replace_base j ws ct nm d).
Proof.
  unfold unscanned_row. rewrite bases_insert_or_replace_base.
  destruct (String.eqb i j) eqn:E.
  - apply String.eqb_eq in E. subst j. intros _.
    exists (Bases.mk i ws nm ct None None).
    split; [apply in_or_app; right; now left | now repeat split].
  - intros [->|[b [Hb [Hid [Hs Ht]]]]]; [now rewrite String.eqb_refl in E|].
    exists b. split; [|now repeat split].
    apply in_or_app. left. apply filter_In. split; [exact Hb|].
    now rewrite Hid, E.
Qed.

Lemma write_base_eq env q w :
  write_base env q w
  = match get_base env (snd q) with
    | Rejected err =>
        (Throw (Err err), log [Remote (GetBase (snd q))] w)
    | Fulfilled (name, created_time) =>
        (Return tt,
         mkworld (insert_or_replace_base (snd q) (Some (fst q)) created_time
                                         name (db w))
                 (UNSCANNED_BASES w)
                 (Sql (InsertBase (snd q)) :: Remote (GetBase (snd q))
                    :: trace w))
    end.
Proof.
  destruct q as [ws i]. unfold write_base, bind, issue, emit, ret, db_run, throw.
  cbn. now destruct (get_base env i) as [[nm ct]|err].
Qed.

(** The statements and fetches of the bases the crawl has written. *)
Lemma write_bases_issued env queue : forall w w',
  write_bases env queue w = (Return tt, w') ->
  exists evs,
    trace w' = evs ++ trace w
    /\ forall q, In q queue ->
         In (Remote (GetBase (snd q))) evs /\ In (Sql (InsertBase (snd q))) evs.
Proof.
  unfold write_bases.
  induction queue as [|q queue IH]; intros w w' H.
  - inversion H; subst. exists []. split; [reflexivity | intros q []].
  - unfold bind in H. cbn [Promise_map] in H. unfold bind at 1 in H.
    rewrite write_base_eq in H.
    destruct (get_base env (snd q)) as [[nm ct]|err]; [|discriminate].
    unfold bind in H.
    destruct (Promise_map (write_base env) queue _) as [[us|t] w2] eqn:E2;
      [|discriminate].
    inversion H; subst; clear H.
    match type of E2 with
    | Promise_map _ _ ?w1 = _ => destruct (IH w1 w') as [evs [Ht Hin]]
    end.
    + unfold bind. rewrite E2. reflexivity.
    + exists (evs ++ [Sql (InsertBase (snd q)); Remote (GetBase (snd q))]).
      split; [rewrite Ht; cbn [trace]; now rewrite <- app_assoc|].
      intros q' [<-|Hq'].
      * split; apply in_or_app; right; [right; now left | now left].
      * destruct (Hin q' Hq'). split; apply in_or_app; now left.
Qed.

Lemma metadata_run_trace api env accounts : forall tbl w c tbl' w',
  metadata_run api env accounts tbl w = (c, (tbl', w')) ->
  exists evs, trace w' = evs ++ trace w.
Proof.
  induction accounts as [|acc accounts IH]; intros tbl w c tbl' w' H;
    cbn [metadata_run] in H.
  - inversion H; subst. now exists [].
  - destruct (get_account api acc) as [wids|];
      [|inversion H; subst; now exists []].
    destruct (fetch_workspaces api wids (tbl, [])) as [[[]|t] [tbl1 queue]];
      [|inversion H; subst; now exists []].
    destruct (write_bases env queue w) as [[[]|t] w1] eqn:E.
    + destruct (write_bases_issued env queue w w1 E) as [e1 [H1 _]].
      destruct (IH _ _ _ _ _ H) as [e2 H2].
      exists (e2 ++ e1). now rewrite H2, H1, app_assoc.
    + inversion H; subst.
      unfold write_bases, bind in E.
      assert (Hp : preserves (fun w0 w1 => exists evs,
                                trace w1 = evs ++ trace w0)
                     (Promise_map (write_base env) queue)).
      { apply preserves_Promise_map.
        - intros w0. now exists [].
        - intros a b c0 [e1 H1] [e2 H2]. exists (e2 ++ e1).
          now rewrite H2, H1, app_assoc.
        - intros q _ w0 c0 w1 Hq. rewrite write_base_eq in Hq.
          destruct (get_base env (snd q)) as [[nm ct]|err];
            inversion Hq; subst; cbn [trace];
            [now exists [Sql (InsertBase (snd q)); Remote (GetBase (snd q))]
            |now exists [Remote (GetBase (snd q))]]. }
      destruct (Promise_map (write_base env) queue w) as [[us|t0] w2] eqn:E2;
        inversion E; subst; exact (Hp _ _ _ E2).
Qed.

(** X16.  When the crawl returns, it has fetched every base listed by a
    workspace of one of the accounts and issued the INSERT OR REPLACE of
    its row, the statement that leaves the base with no scan recorded,
    whatever the row held before. *)
Theorem crawl_upserts_every_base :
  forall (api : admin_api) (env : remote) (accounts : list string)
         (tbl tbl' : list Workspaces.row) (w w' : world) (base_id : string),
    metadata_run api env accounts tbl w = (Return tt, (tbl', w')) ->
    crawled api accounts base_id ->
    exists evs,
      trace w' = evs ++ trace w
      /\ In (Remote (GetBase base_id)) evs
      /\ In (Sql (InsertBase base_id)) evs.
Proof.
  intros api env accounts. induction accounts as [|acc accounts IH];
    intros tbl tbl' w w' i H Hc.
  - destruct Hc as [acc [wids [wid [ws [[] _]]]]].
  - cbn [metadata_run] in H.
    destruct (get_account api acc) as [wids|] eqn:Ea; [|discriminate].
    destruct (fetch_workspaces api wids (tbl, [])) as [[[]|t] [tbl1 queue]]
      eqn:Ef; [|discriminate].
    destruct (write_bases env queue w) as [[[]|t] w1] eqn:Ew;
      [|discriminate].
    destruct (fetch_workspaces_return api wids _ _ Ef) as [Hq _].
    cbn [snd app] in Hq.
    destruct (write_bases_issued env queue w w1 Ew) as [e1 [H1 Hin1]].
    destruct Hc as [acc' [wids' [wid [ws [[<-|Hin] [Ha [Hw [Hg Hb]]]]]]]].
    + rewrite Ea in Ha. inversion Ha; subst wids'.
      destruct (metadata_run_trace api env accounts _ _ _ _ _ H) as [e2 H2].
      destruct (Hin1 (wid, i)) as [Hf Hs].
      { rewrite Hq. apply in_queue_of. split; [exact Hw|]. now exists ws. }
      exists (e2 ++ e1). split; [now rewrite H2, H1, app_assoc|].
      split; apply in_or_app; now right.
    + destruct (IH _ _ _ _ i H) as [e2 [H2 [Hf Hs]]].
      { now exists acc', wids', wid, ws. }
      exists (e2 ++ e1). split; [now rewrite H2, H1, app_assoc|].
      split; apply in_or_app; now left.
Qed.

Lemma crawl_upserts_every_base_witness :
  let w := sample_world false in
  let r := metadata_run sample_api sample_env ["entA"] [] w in
  r = (Return tt, (fst (snd r), snd (snd r)))
  /\ crawled sample_api ["entA"] "appA"
  /\ exists evs,
       trace (snd (snd r)) = evs ++ trace w
       /\ In (Remote (GetBase "appA")) evs
       /\ In (Sql (InsertBase "appA")) evs.
Proof.
  intros w r.
  assert (H1 : r = (Return tt, (fst (snd r), snd (snd r))))
    by (vm_compute; reflexivity).
  assert (H2 : crawled sample_api ["entA"] "appA").
  { exists "entA", ["wsp1"; "wsp2"], "wsp1".
    eexists. split; [now left|]. split; [reflexivity|].
    split; [now left|]. split; [reflexivity|]. now left. }
  split; [exact H1|]. split; [exact H2|].
  exact (crawl_upserts_every_base sample_api sample_env ["entA"] [] _
           w _ "appA" H1 H2).
Defined.

(** X17.  The crawl of an account writes no base before every workspace
    of the account is fetched: when the account cannot be fetched, or one
    of its workspaces cannot, the crawl fails with that rejection, the
    store of the scan is as it was and the accounts after it are not
    crawled. *)
Theorem crawl_failure_writes_no_base :
  forall (api : admin_api) (env : remote) (acc : string)
         (rest : list string) (tbl : list Workspaces.row) (w : world),
    (forall err, get_account api acc = Rejected err ->
       metadata_run api env (acc :: rest) tbl w = (Throw (Err err), (tbl, w)))
    /\ (forall wids,
          get_account api acc = Fulfilled wids ->
          Exists (fun wid => exists err, get_workspace api wid = Rejected err)
                 wids ->
          exists wid err tbl',
            metadata_run api env (acc :: rest) tbl w
            = (Throw (Err err), (tbl', w))
            /\ In wid wids /\ get_workspace api wid = Rejected err).
Proof.
  intros api env acc rest tbl w. split.
  - intros err H. cbn [metadata_run]. now rewrite H.
  - intros wids Ha Hex. cbn [metadata_run]. rewrite Ha.
    destruct (fetch_workspaces_throw api wids (tbl, []) Hex)
      as [wid [err [[tbl' q] [Hf [Hw Hg]]]]].
    rewrite Hf. exists wid, err, tbl'. now repeat split.
Qed.

Lemma crawl_failure_writes_no_base_witness :
  let w := sample_world false in
  get_account sample_api "entB" = Fulfilled ["wsp1"; "wsp9"]
  /\ Exists (fun wid => exists err, get_workspace sample_api wid = Rejected err)
            ["wsp1"; "wsp9"]
  /\ exists wid err tbl',
       metadata_run sample_api sample_env ["entB"; "entA"] [] w
       = (Throw (Err err), (tbl', w))
       /\ In wid ["wsp1"; "wsp9"]
       /\ get_workspace sample_api wid = Rejected err.
Proof.
  intros w.
  assert (H1 : get_account sample_api "entB" = Fulfilled ["wsp1"; "wsp9"])
    by reflexivity.
  assert (H2 : Exists (fun wid => exists err,
                         get_workspace sample_api wid = Rejected err)
                      ["wsp1"; "wsp9"]).
  { apply Exists_cons_tl, Exists_cons_hd. eexists. reflexivity. }
  split; [exact H1|]. split; [exact H2|].
  exact (proj2 (crawl_failure_writes_no_base sample_api sample_env "entB"
                  ["entA"] [] w) _ H1 H2).
Defined.

Lemma metadata_run_workspaces api env accounts : forall tbl w tbl' w',
  metadata_run api env accounts tbl w = (Return tt, (tbl', w')) ->
  (forall wid ws,
      crawled_workspace api accounts wid \/ In (workspace_row wid ws) tbl ->
      get_workspace api wid = Fulfilled ws ->
      In (workspace_row wid ws) tbl')
  /\ (forall x, In x tbl' ->
        (In x tbl /\ ~ crawled_workspace api accounts (Workspaces.id x))
        \/ exists ws, crawled_workspace api accounts (Workspaces.id x)
                      /\ get_workspace api (Workspaces.id x) = Fulfilled ws
                      /\ x = workspace_row (Workspaces.id x) ws).
Proof.
  induction accounts as [|acc accounts IH]; intros tbl w tbl' w' H;
    cbn [metadata_run] in H.
  - inversion H; subst. split.
    + intros wid ws [[acc [wids [[] _]]]|Hin] _. exact Hin.
    + intros x Hx. left. split; [exact Hx|]. intros [acc [wids [[] _]]].
  - destruct (get_account api acc) as [wids|] eqn:Ea; [|discriminate].
    destruct (fetch_workspaces api wids (tbl, [])) as [[[]|t] [tbl1 queue]]
      eqn:Ef; [|discriminate].
    destruct (write_bases env queue w) as [[[]|t] w1] eqn:Ew; [|discriminate].
    destruct (IH _ _ _ _ H) as [Hin Hfrom].
    destruct (fetch_workspaces_return api wids _ _ Ef) as [_ [Hin1 Hfrom1]].
    cbn [fst] in Hin1, Hfrom1.
    split.
    + intros wid ws Hc Hg. apply Hin; [|exact Hg].
      destruct Hc as [[acc' [wids' [[<-|Ha'] [Hga Hw]]]]|Hold].
      * right. rewrite Ea in Hga. inversion Hga; subst. now apply Hin1.
      * left. now exists acc', wids'.
      * right.
        apply (fetch_workspaces_keeps api wid ws wids _ _ Ef Hg Hold).
    + intros x Hx.
      destruct (Hfrom x Hx) as [[Hx1 Hn]|[ws [Hc [Hg Ex]]]].
      * destruct (Hfrom1 x Hx1) as [[Hx0 Hn0]|[wid [ws [Hw [Hg Ex]]]]].
        -- left. split; [exact Hx0|].
           intros [acc' [wids' [[<-|Ha'] [Hga Hw]]]].
           ++ rewrite Ea in Hga. inversion Hga; subst. contradiction.
           ++ apply Hn. now exists acc', wids'.
        -- right. subst x. cbn [workspace_row Workspaces.id] in *.
           exists ws. split; [|now split].
           exists acc, wids. split; [now left|]. now split.
      * right. exists ws. split; [|now split].
        destruct Hc as [acc' [wids' [Ha' [Hga Hw]]]].
        exists acc', wids'. split; [now right|]. now split.
Qed.

(** X18.  When the crawl returns, each workspace listed by one of the
    accounts has its row in [workspaces], and no other row under its
    identifier: the row holds the name and creation time fetched and, as
    owners, the e-mail addresses of the collaborators whose permission
    level is owner, in order, joined by commas. *)
Theorem crawl_writes_workspace_rows :
  forall (api : admin_api) (env : remote) (accounts : list string)
         (tbl tbl' : list Workspaces.row) (w w' : world)
         (wid : string) (ws : workspace),
    metadata_run api env accounts tbl w = (Return tt, (tbl', w')) ->
    crawled_workspace api accounts wid ->
    get_workspace api wid = Fulfilled ws ->
    let row :=
      Workspaces.mk wid
        (String.concat ","
           (map email
                (filter (fun o => String.eqb (permissionLevel o) "owner")
                        (workspaceCollaborators ws))))
        (ws_created_time ws) (ws_name ws) in
    In row tbl'
    /\ forall x, In x tbl' -> Workspaces.id x = wid -> x = row.
Proof.
  intros api env accounts tbl tbl' w w' wid ws H Hc Hg row.
  destruct (metadata_run_workspaces api env accounts _ _ _ _ H)
    as [Hin Hfrom].
  split.
  - apply (Hin wid ws); [now left | exact Hg].
  - intros x Hx Hid.
    destruct (Hfrom x Hx) as [[_ Hn]|[ws' [_ [Hg' Ex]]]].
    + exfalso. apply Hn. now rewrite Hid.
    + rewrite Hid in Hg', Ex. rewrite Hg in Hg'. inversion Hg'; subst ws'.
      exact Ex.
Qed.

Lemma crawl_writes_workspace_rows_witness :
  let r := metadata_run sample_api sample_env ["entA"] [] (sample_world false) in
  let row := Workspaces.mk "wsp1" "alice@example.com,carol@example.com"
                           None (Some "Sales") in
  r = (Return tt, (fst (snd r), snd (snd r)))
  /\ crawled_workspace sample_api ["entA"] "wsp1"
  /\ In row (fst (snd r))
  /\ forall x, In x (fst (snd r)) -> Workspaces.id x = "wsp1" -> x = row.
Proof.
  intros r row.
  assert (H1 : r = (Return tt, (fst (snd r), snd (snd r))))
    by (vm_compute; reflexivity).
  assert (H2 : crawled_workspace sample_api ["entA"] "wsp1").
  { exists "entA", ["wsp1"; "wsp2"]. split; [now left|].
    split; [reflexivity | now left]. }
  split; [exact H1|]. split; [exact H2|].
  exact (crawl_writes_workspace_rows sample_api sample_env ["entA"] [] _
           (sample_world false) _ "wsp1" _ H1 H2 eq_refl).
Defined.

(** X19.  The crawl contains no failure of a base: when the fetch of a
    queued base is rejected, the crawl of the bases fails with the
    rejection of one such base.  It fetches queued bases only, and a base
    that had no scan recorded before still has none. *)
Theorem write_bases_fails_on_rejection :
  forall (env : remote) (queue : list (string * string)) (w : world),
    Exists (fun q => exists err, get_base env (snd q) = Rejected err) queue ->
    exists q err w' evs,
      In q queue
      /\ get_base env (snd q) = Rejected err
      /\ write_bases env queue w = (Throw (Err err), w')
      /\ trace w' = evs ++ trace w
      /\ (forall call, In call (calls evs) ->
            exists q0, In q0 queue /\ call = GetBase (snd q0))
      /\ (forall i, unscanned_row i (db w) -> unscanned_row i (db w')).
Proof.
  intros env queue w Hex. revert w.
  induction Hex as [q queue [err Hrej]|q0 queue Hex IH]; intros w.
  - exists q, err, (log [Remote (GetBase (snd q))] w),
      [Remote (GetBase (snd q))].
    unfold write_bases, bind. cbn [Promise_map]. unfold bind.
    rewrite write_base_eq, Hrej.
    split; [now left|]. split; [reflexivity|]. split; [reflexivity|].
    split; [reflexivity|]. split; [|intros i Hi; exact Hi].
    intros call [<-|[]]. exists q. split; [now left | reflexivity].
  - destruct (get_base env (snd q0)) as [[nm ct]|err0] eqn:Hq0.
    + set (w1 := mkworld (insert_or_replace_base (snd q0) (Some (fst q0)) ct
                                                 nm (db w))
                         (UNSCANNED_BASES w)
                         (Sql (InsertBase (snd q0))
                            :: Remote (GetBase (snd q0)) :: trace w)).
      destruct (IH w1) as [q [err [w' [evs [Hq [Hrej [Hw [Ht [Hc Hkeep]]]]]]]]].
      exists q, err, w',
        (evs ++ [Sql (InsertBase (snd q0)); Remote (GetBase (snd q0))]).
      split; [now right|]. split; [exact Hrej|].
      split; [|split; [|split]].
      * unfold write_bases, bind in *. cbn [Promise_map]. unfold bind at 1.
        rewrite write_base_eq, Hq0. fold w1. unfold bind at 1.
        destruct (Promise_map (write_base env) queue w1)
          as [[us|t] w2]; [discriminate | exact Hw].
      * rewrite Ht. subst w1. cbn [trace]. now rewrite <- app_assoc.
      * intros call Hin. rewrite calls_app in Hin. apply in_app_or in Hin.
        destruct Hin as [[<-|[]]|Hin].
        -- exists q0. split; [now left | reflexivity].
        -- destruct (Hc call Hin) as [q' [Hq' E]]. exists q'.
           split; [now right | exact E].
      * intros i Hi. apply Hkeep. subst w1. cbn [db].
        apply unscanned_row_upsert. now right.
    + exists q0, err0, (log [Remote (GetBase (snd q0))] w),
        [Remote (GetBase (snd q0))].
      unfold write_bases, bind. cbn [Promise_map]. unfold bind.
      rewrite write_base_eq, Hq0.
      split; [now left|]. split; [reflexivity|]. split; [reflexivity|].
      split; [reflexivity|]. split; [|intros i Hi; exact Hi].
      intros call [<-|[]]. exists q0. split; [now left | reflexivity].
Qed.

Lemma write_bases_fails_on_rejection_witness :
  let env :=
    mkremote (add_collaborator sample_env) (get_tables sample_env)
             (select_all sample_env) (remove_collaborator sample_env)
             (fun i => if String.eqb i "appB" then Rejected timed_out
                       else Fulfilled (Some "Sales", None))
             (now sample_env) in
  let w := sample_world false in
  let queue := [("wsp1", "appA"); ("wsp1", "appB"); ("wsp2", "appC")] in
  exists q err w' evs,
    In q queue
    /\ get_base env (snd q) = Rejected err
    /\ write_bases env queue w = (Throw (Err err), w')
    /\ trace w' = evs ++ trace w
    /\ (forall call, In call (calls evs) ->
          exists q0, In q0 queue /\ call = GetBase (snd q0))
    /\ (forall i, unscanned_row i (db w) -> unscanned_row i (db w')).
Proof.
  intros env w queue.
  apply (write_bases_fails_on_rejection env queue w).
  apply Exists_cons_tl, Exists_cons_hd. exists timed_out. reflexivity.
Defined.

(** ** The attachments script *)

Lemma strip_prefix_sound pat : forall s r,
  strip_prefix pat s = Some r -> s = (pat ++ r)%string.
Proof.
  induction pat as [|c pat IH]; intros s r H; cbn in H.
  - now inversion H.
  - destruct s as [|d s]; [discriminate|].
    destruct (Ascii.eqb c d) eqn:E; [|discriminate].
    apply Ascii.eqb_eq in E. subst d. cbn. f_equal. now apply IH.
Qed.

Lemma strip_prefix_complete pat : forall r,
  strip_prefix pat (pat ++ r)%string = Some r.
Proof.
  induction pat as [|c pat IH]; intros r; cbn; [reflexivity|].
  now rewrite Ascii.eqb_refl.
Qed.

Lemma append_assoc (a b c : string) :
  ((a ++ b) ++ c = a ++ (b ++ c))%string.
Proof. induction a as [|x a IH]; cbn; [reflexivity | now rewrite IH]. Qed.

Lemma append_length (a b : string) :
  String.length (a ++ b)%string = String.length a + String.length b.
Proof. induction a as [|x a IH]; cbn; [reflexivity | now rewrite IH]. Qed.

Lemma replace_first_spec :
  forall (pat s : string),
    ((forall a, ~ occurs_at pat a s) -> replace_first pat s = s)
    /\ (forall a0, occurs_at pat a0 s ->
        exists a b,
          s = (a ++ pat ++ b)%string
          /\ replace_first pat s = (a ++ b)%string
          /\ forall a', occurs_at pat a' s ->
                        String.length a <= String.length a').
Proof.
  intros pat s. split.
  - induction s as [|c s IH]; intros Hno; cbn.
    + destruct (strip_prefix pat "") as [r|] eqn:E; [|reflexivity].
      apply strip_prefix_sound in E. exfalso. apply (Hno ""%string). now exists r.
    + destruct (strip_prefix pat (String c s)) as [r|] eqn:E.
      * apply strip_prefix_sound in E. exfalso. apply (Hno ""%string). now exists r.
      * f_equal. apply IH. intros a [b Hb]. apply (Hno (String c a)).
        exists b. cbn. now rewrite Hb.
  - induction s as [|c s IH]; intros a0 Hocc.
    + destruct Hocc as [b0 Hb0].
      assert (Ha0 : a0 = ""%string) by (destruct a0; [reflexivity | discriminate]).
      subst a0. cbn in Hb0. exists ""%string, b0. cbn [append].
      split; [exact Hb0|]. split.
      * destruct pat; cbn in Hb0; [now subst b0 | discriminate].
      * intros a' _. cbn. lia.
    + cbn [replace_first].
      destruct (strip_prefix pat (String c s)) as [r|] eqn:E.
      * exists ""%string, r. cbn [append]. split; [now apply strip_prefix_sound|].
        split; [reflexivity|]. intros a' _. cbn. lia.
      * destruct Hocc as [b0 Hb0]. destruct a0 as [|d a0].
        -- cbn in Hb0. rewrite Hb0, strip_prefix_complete in E. discriminate.
        -- cbn in Hb0. injection Hb0 as _ Hs0.
           destruct (IH a0) as [a [b [Hs [Hr Hmin]]]]; [now exists b0|].
           exists (String c a), b. cbn [append].
           split; [now rewrite <- Hs|].
           split; [now rewrite Hr|].
           intros a' [b' Hb']. destruct a' as [|d' a'].
           ++ cbn in Hb'. rewrite Hb', strip_prefix_complete in E.
              discriminate.
           ++ cbn in Hb'. injection Hb' as _ Hs'. cbn. apply le_n_S.
              apply Hmin. now exists b'.
Qed.

Lemma append_same_length (a1 a2 b1 b2 : string) :
  String.length a1 = String.length a2 ->
  (a1 ++ b1)%string = (a2 ++ b2)%string ->
  a1 = a2 /\ b1 = b2.
Proof.
  revert a2. induction a1 as [|c a1 IH]; intros [|d a2] Hl H; cbn in *;
    try discriminate.
  - now split.
  - injection H as -> H. injection Hl as Hl.
    destruct (IH _ Hl H) as [-> ->]. now split.
Qed.

(** X22.  The name of the file of an attachment is its identifier, an
    underscore, and its file name without the first occurrence of
    "?authuser=0": a file name without the text is kept as it is,
    otherwise the text is cut out where it first occurs, and only there. *)
Theorem file_name_cuts_first_authuser (a : attachment) :
  ((forall x, ~ occurs_at "?authuser=0" x (a_filename a)) ->
   file_name a = (a_id a ++ "_" ++ a_filename a)%string)
  /\ (forall x y,
        a_filename a = (x ++ "?authuser=0" ++ y)%string ->
        (forall x', occurs_at "?authuser=0" x' (a_filename a) ->
                    String.length x <= String.length x') ->
        file_name a = (a_id a ++ "_" ++ x ++ y)%string).
Proof.
  unfold file_name.
  destruct (replace_first_spec "?authuser=0" (a_filename a)) as [Hno Hocc].
  split.
  - intros H. now rewrite (Hno H).
  - intros x y Hxy Hmin.
    destruct (Hocc x) as [x0 [y0 [Hs [Hr Hmin0]]]]; [now exists y|].
    assert (Hl : String.length x0 = String.length x).
    { apply Nat.le_antisymm.
      - apply Hmin0. now exists y.
      - apply Hmin. now exists y0. }
    rewrite Hs in Hxy.
    destruct (append_same_length _ _ _ _ Hl Hxy) as [-> Hy].
    destruct (append_same_length _ _ _ _ eq_refl Hy) as [_ ->].
    now rewrite Hr.
Qed.

Lemma file_name_cuts_first_authuser_witness :
  file_name (mkattachment "att1" "photo.png?authuser=0" "https://dl/1")
  = "att1_photo.png".
Proof.
  apply (proj2 (file_name_cuts_first_authuser
                  (mkattachment "att1" "photo.png?authuser=0" "https://dl/1"))
               "photo.png" "").
  - reflexivity.
  - intros x' [y' H]. cbn in H.
    do 9 (destruct x' as [|? x']; [cbn in H; discriminate|]).
    cbn. lia.
Defined.

(** X23.  Two attachments whose identifiers differ and have the same
    length are given different names for their files (the text joined to
    the directory of the base), whatever their file names are. *)
Theorem file_names_distinct (a1 a2 : attachment) :
  String.length (a_id a1) = String.length (a_id a2) ->
  a_id a1 <> a_id a2 ->
  file_name a1 <> file_name a2.
Proof.
  intros Hl Hne H. unfold file_name in H.
  now destruct (append_same_length _ _ _ _ Hl H).
Qed.

Lemma file_names_distinct_witness :
  file_name (mkattachment "att1" "a.png" "https://dl/1")
  <> file_name (mkattachment "att2" "a.png" "https://dl/2").
Proof.
  apply file_names_distinct; cbn; [reflexivity | discriminate].
Defined.

Lemma download_each_fulfilled net path : forall l files,
  Forall (fun a => exists u, get_url net (a_url a) = Fulfilled u) l ->
  download_each net path l files
  = (Return tt,
     files ++ map (fun a => (path, file_name a))
                  (filter (fun a => negb (write_fails net path (file_name a)))
                          l)).
Proof.
  induction l as [|a l IH]; intros files H; cbn.
  - now rewrite app_nil_r.
  - inversion H as [|? ? [u Hu] Hl]; subst. rewrite Hu, (IH _ Hl).
    destruct (write_fails net path (file_name a)); cbn; [reflexivity|].
    now rewrite <- app_assoc.
Qed.

Lemma download_each_rejected net path : forall l files,
  Exists (fun a => exists e, get_url net (a_url a) = Rejected e) l ->
  exists a e files',
    In a l /\ get_url net (a_url a) = Rejected e
    /\ download_each net path l files = (Throw (Err e), files').
Proof.
  induction l as [|a l IH]; intros files H; [inversion H|].
  cbn [download_each]. destruct (get_url net (a_url a)) as [u|e] eqn:E.
  - inversion H as [? ? [e He]|? ? Hl]; subst; [congruence|].
    destruct (IH (if write_fails net path (file_name a) then files
                  else files ++ [(path, file_name a)]) Hl)
      as [a' [e [files' [Hin [He Hd]]]]].
    exists a', e, files'. repeat split; [now right | assumption | assumption].
  - exists a, e, files. repeat split; [now left | assumption].
Qed.

(** X24.  [downloadAttachmentsAsync] returns the number of attachments
    found in the records, not of files written: when every download is
    answered the files written are those of the attachments whose write
    did not fail, in order, and the count is that of all of them; a
    download that is rejected rejects the call with its error. *)
Theorem downloads_count_found_attachments net records attachment_fields
    attachment_path files :
  let found := found_attachments records attachment_fields in
  (Forall (fun a => exists u, get_url net (a_url a) = Fulfilled u) found ->
   downloadAttachmentsAsync net records attachment_fields attachment_path
     files
   = (Return (List.length found),
      files ++ map (fun a => (attachment_path, file_name a))
                   (filter (fun a => negb (write_fails net attachment_path
                                                       (file_name a)))
                           found)))
  /\ (Exists (fun a => exists e, get_url net (a_url a) = Rejected e) found ->
      exists a e,
        In a found /\ get_url net (a_url a) = Rejected e
        /\ fst (downloadAttachmentsAsync net records attachment_fields
                   attachment_path files)
           = Throw (Err e)).
Proof.
  intros found. unfold downloadAttachmentsAsync. fold found. split.
  - intros H. now rewrite (download_each_fulfilled _ _ _ _ H).
  - intros H.
    destruct (download_each_rejected net attachment_path found files H)
      as [a [e [files' [Hin [He Hd]]]]].
    exists a, e. rewrite Hd. now repeat split.
Qed.

Lemma downloads_count_found_attachments_witness :
  downloadAttachmentsAsync sample_network sample_records
    (findAttachmentField files_table) "attachments/appA" []
  = (Return 2, [("attachments/appA", "att1_photo.png")]).
Proof.
  apply (proj1 (downloads_count_found_attachments sample_network
                  sample_records (findAttachmentField files_table)
                  "attachments/appA" [])).
  vm_compute. repeat constructor; now exists tt.
Defined.

Lemma download_table_eq env base_id t w :
  download_table env base_id t w
  = if has_attachment_field t
    then (match eachPage env base_id t with
          | Fulfilled n => Done n
          | Rejected e => Raised (Thrown (Err e))
          end,
          log (retry_events (eachPage env base_id t) "undefined"
               ++ [Remote (SelectAll base_id (at_name t))]) w)
    else (Raised (ReferenceError "table"), w).
Proof.
  unfold download_table, has_attachment_field.
  destruct (findAttachmentField t) as [|f fs]; [reflexivity|].
  cbn [List.length Nat.eqb].
  unfold try_a, lift, bind, issue, emit, ret. cbn.
  rewrite requestWithRetry_eq.
  destruct (eachPage env base_id t) as [n|e]; cbn [settled];
    f_equal; same_world.
Qed.

Lemma removals_app l1 l2 :
  filter is_removal (calls (l1 ++ l2))
  = filter is_removal (calls l2) ++ filter is_removal (calls l1).
Proof. now rewrite calls_app, filter_app. Qed.

Lemma removals_retry_events {A} (request : settlement A) id :
  filter is_removal (calls (retry_events request id)) = [].
Proof. now rewrite calls_retry_events. Qed.

(** The tables of a base are not all read when one of them has no
    attachment field. *)
Lemma download_tables_raise env base_id : forall tables w,
  Exists (fun t => has_attachment_field t = false) tables ->
  exists r evs,
    Promise_map_a (download_table env base_id) tables w
    = (Raised r, log evs w)
    /\ filter is_removal (calls evs) = [].
Proof.
  induction tables as [|t ts IH]; intros w H; [inversion H|].
  cbn [Promise_map_a]. unfold bind_a at 1. rewrite download_table_eq.
  destruct (has_attachment_field t) eqn:F.
  - assert (Hts : Exists (fun t => has_attachment_field t = false) ts)
      by (inversion H; subst; [congruence | assumption]).
    destruct (eachPage env base_id t) as [n|e] eqn:E.
    + destruct (IH (log (retry_events (Fulfilled n) "undefined"
                         ++ [Remote (SelectAll base_id (at_name t))]) w) Hts)
        as [r [evs [Hr Hc]]].
      exists r, (evs ++ retry_events (@Fulfilled nat n) "undefined"
                     ++ [Remote (SelectAll base_id (at_name t))]).
      split.
      * unfold bind_a. rewrite Hr. f_equal. same_world.
      * rewrite !removals_app, Hc. reflexivity.
    + exists (Thrown (Err e)),
        (retry_events (@Rejected nat e) "undefined"
         ++ [Remote (SelectAll base_id (at_name t))]).
      split; [reflexivity|].
      now rewrite removals_app, removals_retry_events.
  - exists (ReferenceError "table"), []. split; [now destruct w | reflexivity].
Qed.

Lemma download_base_listed env b tables w :
  post_collaborator env (lb_id b) = Fulfilled tt ->
  get_tables_fields env (lb_id b) = Fulfilled tables ->
  download_base env b w
  = (let w1 := log ([Await (lb_id b); Remote (GetTables (lb_id b));
                     Await (lb_id b); Remote (AddCollaborator (lb_id b))]) w in
     match mkdirSync env (lb_id b) with
     | Some err => (Raised (Thrown (Err err)), w1)
     | None =>
         match Promise_map_a (download_table env (lb_id b)) tables w1 with
         | (Raised _, w2) =>
             (Done None,
              mkworld (db w2) (UNSCANNED_BASES w2 ++ [lb_id b]) (trace w2))
         | (Done record_numbers, w2) =>
             (num_records <-- lift (reduce_sum record_numbers) ;;
              _ <-- try_a
                      (lift (request <- issue (RemoveCollaborator (lb_id b))
                                              (delete_collaborator env (lb_id b)) ;;
                             requestWithRetry request (lb_id b) None))
                      (fun err =>
                         match response_of_raised err with
                         | None => raise (Thrown TypeError)
                         | Some resp =>
                             if (status resp =? 403)%nat then done tt
                             else raise err
                         end) ;;
              done None) w2
         end
     end).
Proof.
  intros Hg Hl. unfold download_base.
  unfold bind_a at 1. unfold try_a at 1. unfold lift at 1.
  unfold bind, issue, emit, ret. cbn.
  rewrite requestWithRetry_eq, Hg. cbn.
  unfold bind_a at 1. unfold try_a at 1. unfold lift at 1. cbn.
  rewrite requestWithRetry_eq, Hl. cbn.
  unfold bind_a at 1.
  destruct (mkdirSync env (lb_id b)) as [err|]; [reflexivity|].
  unfold done at 1. cbn.
  unfold bind_a at 1. unfold try_a at 1. unfold bind_a at 1.
  unfold log. cbn.
  destruct (Promise_map_a _ tables _) as [[l|r] w2]; reflexivity.
Qed.

Lemma has_attachment_field_false t :
  findAttachmentField t = [] -> has_attachment_field t = false.
Proof. unfold has_attachment_field. now intros ->. Qed.

Lemma no_removal evs c :
  filter is_removal (calls evs) = [] -> In c (calls evs) -> is_removal c = false.
Proof.
  intros H Hin. destruct (is_removal c) eqn:E; [|reflexivity].
  assert (Hf : In c (filter is_removal (calls evs)))
    by (apply filter_In; now split).
  rewrite H in Hf. destruct Hf.
Qed.

(** X25.  A base with a table that has no attachment field is never
    completed by the attachments script: reading [table.id] in the branch
    for such a table throws, the base lands on the skip list, the mapper
    returns undefined and the admin is not removed from the base. *)
Theorem table_without_attachment_field_skips_base env b tables w :
  post_collaborator env (lb_id b) = Fulfilled tt ->
  get_tables_fields env (lb_id b) = Fulfilled tables ->
  mkdirSync env (lb_id b) = None ->
  Exists (fun t => findAttachmentField t = []) tables ->
  exists evs,
    download_base env b w
    = (Done None,
       mkworld (db w) (UNSCANNED_BASES w ++ [lb_id b]) (evs ++ trace w))
    /\ ~ In (RemoveCollaborator (lb_id b)) (calls evs).
Proof.
  intros Hg Hl Hm He.
  rewrite (download_base_listed _ _ _ _ Hg Hl), Hm. cbv zeta.
  assert (He' : Exists (fun t => has_attachment_field t = false) tables).
  { apply Exists_exists. apply Exists_exists in He.
    destruct He as [t [Hin Ht]]. exists t.
    split; [assumption | now apply has_attachment_field_false]. }
  destruct (download_tables_raise env (lb_id b) tables
              (log [Await (lb_id b); Remote (GetTables (lb_id b));
                    Await (lb_id b); Remote (AddCollaborator (lb_id b))] w)
              He') as [r [evs [Hr Hc]]].
  rewrite Hr.
  exists (evs ++ [Await (lb_id b); Remote (GetTables (lb_id b));
                  Await (lb_id b); Remote (AddCollaborator (lb_id b))]).
  split; [f_equal; same_world|].
  intros Hin. rewrite calls_app in Hin. apply in_app_or in Hin.
  destruct Hin as [Hin|Hin].
  - cbn in Hin. destruct Hin as [Hin|[Hin|[]]]; discriminate.
  - now pose proof (no_removal _ _ Hc Hin).
Qed.

Lemma table_without_attachment_field_skips_base_witness :
  exists evs,
    download_base sample_attachments_remote (mklisted_base "appA") empty_world
    = (Done None, mkworld (db empty_world) ["appA"] (evs ++ []))
    /\ ~ In (RemoveCollaborator "appA") (calls evs).
Proof.
  apply (table_without_attachment_field_skips_base sample_attachments_remote
           (mklisted_base "appA") [files_table; plain_table] empty_world);
    try reflexivity.
  apply Exists_cons_tl. apply Exists_cons_hd. reflexivity.
Defined.

Lemma attachments_run_raises env b : forall listed w,
  In b listed ->
  (forall w1, exists r w2, download_base env b w1 = (Raised r, w2)) ->
  exists r w', attachments_run env listed w = (Raised r, w').
Proof.
  unfold attachments_run.
  induction listed as [|a listed IH]; intros w Hin Hb; [destruct Hin|].
  cbn [Promise_map_a]. unfold bind_a at 1 2.
  destruct (download_base env a w) as [[x|r] w1] eqn:E.
  - destruct Hin as [->|Hin].
    + destruct (Hb w) as [r [w2 Hr]]. congruence.
    + destruct (IH w1 Hin Hb) as [r [w' Hr]]. unfold bind_a in Hr.
      unfold bind_a at 1.
      destruct (Promise_map_a (download_base env) listed w1) as [[l|r'] w2].
      * discriminate.
      * now exists r', w2.
  - now exists r, w1.
Qed.

(** X26.  When the directory of a base cannot be made, the error leaves
    the mapper after the admin was added and the tables were listed:
    nothing is downloaded, the admin is not removed, the base is not put
    on the skip list, and a run over bases with that base fails. *)
Theorem directory_failure_fails_run env b tables err :
  post_collaborator env (lb_id b) = Fulfilled tt ->
  get_tables_fields env (lb_id b) = Fulfilled tables ->
  mkdirSync env (lb_id b) = Some err ->
  (forall w,
     exists w',
       download_base env b w = (Raised (Thrown (Err err)), w')
       /\ UNSCANNED_BASES w' = UNSCANNED_BASES w
       /\ exists evs,
            trace w' = evs ++ trace w
            /\ calls evs = [AddCollaborator (lb_id b); GetTables (lb_id b)])
  /\ (forall listed w,
        In b listed ->
        exists r w', attachments_run env listed w = (Raised r, w')).
Proof.
  intros Hg Hl Hm.
  assert (Hb : forall w,
             exists w',
               download_base env b w = (Raised (Thrown (Err err)), w')
               /\ UNSCANNED_BASES w' = UNSCANNED_BASES w
               /\ exists evs,
                    trace w' = evs ++ trace w
                    /\ calls evs = [AddCollaborator (lb_id b);
                                    GetTables (lb_id b)]).
  { intros w. rewrite (download_base_listed _ _ _ _ Hg Hl), Hm. cbv zeta.
    eexists. split; [reflexivity|]. split; [reflexivity|].
    eexists. split; reflexivity. }
  split; [exact Hb|].
  intros listed w Hin. apply (attachments_run_raises env b listed w Hin).
  intros w1. destruct (Hb w1) as [w2 [H2 _]]. now exists (Thrown (Err err)), w2.
Qed.

Lemma directory_failure_fails_run_witness :
  exists r w',
    attachments_run sample_attachments_remote
      [mklisted_base "appA"; mklisted_base "appD"] empty_world
    = (Raised r, w').
Proof.
  apply (proj2 (directory_failure_fails_run sample_attachments_remote
                  (mklisted_base "appD") [files_table]
                  (mkerr (Some "ENOENT") None)
                  eq_refl eq_refl eq_refl)).
  right. now left.
Defined.

Lemma download_tables_done env base_id : forall tables w,
  Forall (fun t => has_attachment_field t = true
                   /\ exists n, eachPage env base_id t = Fulfilled n) tables ->
  exists l evs,
    Promise_map_a (download_table env base_id) tables w = (Done l, log evs w)
    /\ calls evs = map (fun t => SelectAll base_id (at_name t)) tables
    /\ List.length l = List.length tables.
Proof.
  induction tables as [|t ts IH]; intros w H.
  - exists [], []. split; [now destruct w | now split].
  - inversion H as [|? ? [Hf [n Hn]] Hts]; subst.
    cbn [Promise_map_a]. unfold bind_a at 1.
    rewrite download_table_eq, Hf, Hn.
    destruct (IH (log (retry_events (@Fulfilled nat n) "undefined"
                       ++ [Remote (SelectAll base_id (at_name t))]) w) Hts)
      as [l [evs [Hr [Hc Hlen]]]].
    exists (n :: l),
      (evs ++ retry_events (@Fulfilled nat n) "undefined"
           ++ [Remote (SelectAll base_id (at_name t))]).
    split; [|split].
    + unfold bind_a. rewrite Hr. unfold done. f_equal. same_world.
    + read_trace. now rewrite Hc.
    + cbn. now rewrite Hlen.
Qed.

(** X27.  A base is completed by the attachments script when it has
    tables, each with an attachment field and read to its end: the admin
    is added first, the tables are listed next, each table is read once,
    in some order, the admin is removed last, and the base is not put on
    the skip list; this also holds when the removal is refused with
    status 403. *)
Theorem base_with_attachment_fields_is_completed env b tables w :
  post_collaborator env (lb_id b) = Fulfilled tt ->
  get_tables_fields env (lb_id b) = Fulfilled tables ->
  mkdirSync env (lb_id b) = None ->
  tables <> [] ->
  Forall (fun t => findAttachmentField t <> []
                   /\ exists n, eachPage env (lb_id b) t = Fulfilled n)
         tables ->
  (delete_collaborator env (lb_id b) = Fulfilled tt
   \/ exists e resp,
        delete_collaborator env (lb_id b) = Rejected e
        /\ response e = Some resp /\ status resp = 403) ->
  exists evs reads,
    download_base env b w
    = (Done None, mkworld (db w) (UNSCANNED_BASES w) (evs ++ trace w))
    /\ calls evs
       = [AddCollaborator (lb_id b); GetTables (lb_id b)]
         ++ reads ++ [RemoveCollaborator (lb_id b)]
    /\ Permutation reads
         (map (fun t => SelectAll (lb_id b) (at_name t)) tables).
Proof.
  intros Hg Hl Hm Hne Hts Hd.
  rewrite (download_base_listed _ _ _ _ Hg Hl), Hm. cbv zeta.
  assert (Hts' : Forall (fun t => has_attachment_field t = true
                                  /\ exists n, eachPage env (lb_id b) t
                                               = Fulfilled n) tables).
  { eapply Forall_impl; [|exact Hts]. intros t [Hf Hn]. split; [|exact Hn].
    unfold has_attachment_field. now destruct (findAttachmentField t). }
  destruct (download_tables_done env (lb_id b) tables
              (log [Await (lb_id b); Remote (GetTables (lb_id b));
                    Await (lb_id b); Remote (AddCollaborator (lb_id b))] w)
              Hts') as [l [evs [Hr [Hc Hlen]]]].
  rewrite Hr.
  destruct l as [|x l];
    [destruct tables; [congruence | discriminate]|].
  unfold bind_a at 1. unfold lift at 1. cbn [reduce_sum]. unfold ret at 1.
  unfold bind_a at 1. unfold try_a, lift, bind, issue, emit, ret. cbn.
  rewrite requestWithRetry_eq.
  exists (retry_events (delete_collaborator env (lb_id b)) (lb_id b)
          ++ [Remote (RemoveCollaborator (lb_id b))] ++ evs
          ++ [Await (lb_id b); Remote (GetTables (lb_id b));
              Await (lb_id b); Remote (AddCollaborator (lb_id b))]).
  exists (map (fun t => SelectAll (lb_id b) (at_name t)) tables).
  split; [|split].
  - destruct Hd as [Hd | [e [resp [Hd [Hresp Hs]]]]]; rewrite Hd;
      cbn [settled].
    + unfold done. f_equal. same_world.
    + cbn [response_of_raised response_of]. rewrite Hresp, Hs. cbn.
      unfold done. f_equal. same_world.
  - read_trace. rewrite Hc. reflexivity.
  - apply Permutation_refl.
Qed.

Lemma base_with_attachment_fields_is_completed_witness :
  exists evs reads,
    download_base sample_attachments_remote (mklisted_base "appB") empty_world
    = (Done None, mkworld (db empty_world) [] (evs ++ []))
    /\ calls evs
       = [AddCollaborator "appB"; GetTables "appB"]
         ++ reads ++ [RemoveCollaborator "appB"]
    /\ Permutation reads [SelectAll "appB" "Documents"].
Proof.
  apply (base_with_attachment_fields_is_completed sample_attachments_remote
           (mklisted_base "appB") [files_table] empty_world);
    try reflexivity.
  - discriminate.
  - repeat constructor; [discriminate | now exists 2].
  - now left.
Defined.
